(** * A shallow embedding of the weather dashboard

    The dashboard is a browser client over a vendor weather API.  This
    development embeds the parts of it that carry logic: the forecast
    aggregation of the weather page ([fiveDayForecast], [rainChance]),
    the weather data client ([searchCities]), the favourite-city store,
    the search history, the debounced suggestion search and the
    geolocation fallback.

    Conventions of the embedding.
    - A JavaScript Number that is only compared, selected or rounded to
      an integer (a temperature of the forecast list, a coordinate) is a
      rational [Q]: comparisons, [Math.min], [Math.max], [Math.abs] and
      [Math.round] are exact on finite doubles.
    - A Number that enters a product, a sum, a difference or a quotient
      (the probability [pop], the readings behind the dew point) is a
      binary64 double, [float], and the arithmetic on it is the
      arithmetic of doubles, rounded to nearest as in the browser.
    - Timestamps and hours are integers [Z].
    - The browser's time zone is a parameter that gives the offset to UTC
      at every instant, so that daylight saving time is covered.
    - A property that may be [undefined] is an [option]; [a || b] on such
      properties is [js_or], which follows JavaScript truthiness (the
      number 0 is falsy).
    - Thrown errors are the [inr] side of a sum. *)

From Stdlib Require Import ZArith QArith Qround Lqa Floats.
From stdpp Require Import base list sorting strings pretty.

Open Scope Z_scope.

(** A decimal literal such as [0.42] denotes the double nearest to it, as
    in JavaScript source and in [JSON.parse]. *)
Set Warnings "-inexact-float".

(** ** JavaScript numerics *)
Module JS.

(** [Math.round]: the integer nearest to [x], halves going up. *)
Definition Math_round (x : Q) : Z := Qfloor (x + (1 # 2))%Q.

Definition Qmin2 (x y : Q) : Q := if Qle_bool x y then x else y.
Definition Qmax2 (x y : Q) : Q := if Qle_bool x y then y else x.

(** [Math.min(...xs)] and [Math.max(...xs)] on a non-empty argument list
    [x :: xs]; every call site guards [length > 0]. *)
Definition Math_min (x : Q) (xs : list Q) : Q := foldl Qmin2 x xs.
Definition Math_max (x : Q) (xs : list Q) : Q := foldl Qmax2 x xs.

(** Truthiness of a Number: 0 is falsy (NaN is not a value here). *)
Definition truthy (x : Q) : bool := negb (Qeq_bool x 0).

(** [a || b] where [a] and [b] are Numbers or [undefined]. *)
Definition js_or (a b : option Q) : option Q :=
  match a with
  | Some x => if truthy x then Some x else b
  | None => b
  end.

(** A Number or [Infinity], for a running minimum that starts at
    [Infinity]. *)
Inductive ext := Fin (d : Z) | Infinity.

Definition lt_ext (d : Z) (e : ext) : bool :=
  match e with
  | Fin d' => bool_decide (d < d')
  | Infinity => true
  end.

(** The product [pop * 100], on doubles. *)
Definition percentOfDouble (pop : float) : float := PrimFloat.mul pop 100%float.

(** The value of the finite double with the sign [s], the mantissa [m]
    and the exponent [e]: plus or minus [m * 2 ^ e]. *)
Definition valueOf (s : bool) (m : positive) (e : Z) : Q :=
  let magnitude :=
    match e with
    | Z0 => Zpos m # 1
    | Zpos k => (Zpos m * 2 ^ Zpos k) # 1
    | Zneg k => Zpos m # (2 ^ k)%positive
    end in
  if s then (- magnitude)%Q else magnitude.

(** What [Math.round] returns for a double: an integer (the two zeros are
    the integer 0), an infinity or NaN. *)
Inductive Rounded := Integer (z : Z) | PlusInfinity | MinusInfinity | NotANumber.

(** [Math.round] on a double. *)
Definition Math_round_double (x : float) : Rounded :=
  match Prim2SF x with
  | S754_zero _ => Integer 0
  | S754_finite s m e => Integer (Math_round (valueOf s m e))
  | S754_infinity s => if s then MinusInfinity else PlusInfinity
  | S754_nan => NotANumber
  end.

(** [xs.length] as a Number; the length of an array is below [2 ^ 32]. *)
Definition lengthOf {A : Type} (xs : list A) : float :=
  PrimFloat.of_uint63 (Uint63.of_Z (Z.of_nat (length xs))).

(** [xs.reduce((a, b) => a + b, 0)] *)
Definition sum (xs : list float) : float := foldl PrimFloat.add 0%float xs.

End JS.

(** ** Binary64 rounding: vocabulary

    The arithmetic of doubles rounds an exact result by shifting its
    mantissa to the right ([SpecFloat.shr]); the first two predicates
    follow the shift, the third bounds a double. *)
Module Binary64.

(** No bit has been shifted out of [x]. *)
Definition exact (x : shr_record) : Prop := shr_r x = false ∧ shr_s x = false.

(** [y] is [x] shifted right by [k] bits. *)
Definition shifted (k : Z) (x y : shr_record) : Prop :=
  0 ≤ shr_m x →
  0 ≤ shr_m y ∧ shr_m y = shr_m x `div` 2 ^ k
  ∧ (exact x → (2 ^ k | shr_m x) → exact y).

(** [x] is a zero or a positive double of a value that is at most the
    integer [bound]; the comparison is made on integers, after scaling by
    [2 ^ scale]. *)
Definition atMost (scale bound : Z) (x : spec_float) : Prop :=
  match x with
  | S754_zero _ => True
  | S754_finite s m e =>
      s = false ∧ -1074 ≤ e ∧ Zpos m * 2 ^ (e + scale) ≤ bound * 2 ^ scale
  | S754_infinity _ | S754_nan => False
  end.

End Binary64.

(** ** The vendor's forecast entries and the unified weather record *)

(** One element of a [weather] array. *)
Record WeatherItem := { icon : string; description : string }.

(** The nested [main] object of a forecast entry. *)
Record Main := { main_temp : option Q; temp_min : option Q; temp_max : option Q }.

(** One item of the forecast list.  [weather] absent and [weather] empty
    both make [weather?.[0]] undefined, so the field is a list. *)
Record ForecastEntry := {
  dt : Z;                   (* seconds since the epoch *)
  main : option Main;
  temp : option Q;
  weather : list WeatherItem;
  pop : option float
}.

Record CurrentConditions := {
  cur_dt : Z;
  cur_temp : float;
  cur_weather : list WeatherItem;
  rain : option Q           (* [currentData.rain || null]; an object is truthy *)
}.

(** [weatherData.weather]: [current] and [daily] are both tested for
    presence by the page before use.  The page's [weatherData] itself may
    be [null]: the functions below take an [option WeatherRecord]. *)
Record WeatherRecord := {
  current : option CurrentConditions;
  daily : option (list ForecastEntry)
}.

(** ** Local time

    [Date] methods depend on the browser's time zone.  The zone is a
    parameter.  As in the language specification, it is given by the
    offset of local time to UTC, in milliseconds, which may change from
    one instant to the next (daylight saving time): [offsetAt t] is the
    offset in force at the time value [t], and [offsetOfLocal l] is the
    offset the zone assigns to the local time value [l], which [setHours]
    uses on the way back to a time value. *)
Module LocalTime.

Record Zone := { offsetAt : Z → Z; offsetOfLocal : Z → Z }.

(** A zone without daylight saving time. *)
Definition fixed (utcOffset : Z) : Zone :=
  {| offsetAt := λ _, utcOffset; offsetOfLocal := λ _, utcOffset |}.

Definition msPerDay : Z := 86400000.
Definition msPerHour : Z := 3600000.

Section zone.
Variable zone : Zone.

(** [LocalTime(t)] and [UTC(l)] of the language specification. *)
Definition localTime (t : Z) : Z := t + offsetAt zone t.
Definition utc (l : Z) : Z := l - offsetOfLocal zone l.

(** [new Date(t).getHours()] *)
Definition getHours (t : Z) : Z := (localTime t `mod` msPerDay) `div` msPerHour.

(** The time value after [setHours(0, 0, 0, 0)]: the local time of [t]
    is cut to the start of its day and converted back. *)
Definition startOfDay (t : Z) : Z := utc (localTime t - localTime t `mod` msPerDay).

(** [toISOString().split('T')[0]]: the UTC calendar date, as the number
    of days since 1970-01-01. *)
Definition isoDate (t : Z) : Z := t `div` msPerDay.

(** The local calendar date of [t], as a day number. *)
Definition localDay (t : Z) : Z := localTime t `div` msPerDay.

(** [toLocaleDateString('en-US', {weekday: 'long'})], 0 for Sunday;
    1970-01-01 was a Thursday. *)
Definition weekday (t : Z) : Z := (localDay t + 4) `mod` 7.

End zone.
End LocalTime.

(** ** The weather page: forecast aggregation *)
Module WeatherPage.
Section zone.
Variable zone : LocalTime.Zone.

Local Abbreviation getHours := (LocalTime.getHours zone).
Local Abbreviation startOfDay := (LocalTime.startOfDay zone).
Local Abbreviation weekday := (LocalTime.weekday zone).

(** One value of the [dailyData] object. *)
Record DayBucket := {
  date : Z;                          (* [forecastDate] of the entry that opened the bucket *)
  temps : list Q;
  pops : list float;
  bweather : option WeatherItem;
  noonTimeDiff : JS.ext
}.

(** [dailyData] is a plain object keyed by the day string; its values are
    enumerated in insertion order, so it is an association list that
    grows at the end. *)
Definition DailyData := list (Z * DayBucket).

Fixpoint lookupDay (k : Z) (d : DailyData) : option DayBucket :=
  match d with
  | [] => None
  | (k', b) :: d' => if decide (k' = k) then Some b else lookupDay k d'
  end.

Fixpoint alterDay (g : DayBucket → DayBucket) (k : Z) (d : DailyData) : DailyData :=
  match d with
  | [] => []
  | (k', b) :: d' =>
      if decide (k' = k) then (k', g b) :: d' else (k', b) :: alterDay g k d'
  end.

Definition emptyBucket (forecastDate : Z) : DayBucket :=
  {| date := forecastDate; temps := []; pops := [];
     bweather := None; noonTimeDiff := JS.Infinity |}.

(** [forecast.main?.temp || forecast.temp] *)
Definition tempSample (forecast : ForecastEntry) : option Q :=
  JS.js_or (main forecast ≫= main_temp) (temp forecast).

Definition forecastHour (forecast : ForecastEntry) : Z := getHours (dt forecast * 1000).
Definition forecastDate (forecast : ForecastEntry) : Z := startOfDay (dt forecast * 1000).
Definition dayKey (forecast : ForecastEntry) : Z := LocalTime.isoDate (forecastDate forecast).
Definition timeDiffFromNoon (forecast : ForecastEntry) : Z := Z.abs (forecastHour forecast - 12).

(** The three updates the loop body makes to the entry's bucket. *)
Definition noteWeather (forecast : ForecastEntry) (b : DayBucket) : DayBucket :=
  if JS.lt_ext (timeDiffFromNoon forecast) (noonTimeDiff b)
  then {| date := date b; temps := temps b; pops := pops b;
          bweather := head (weather forecast);
          noonTimeDiff := JS.Fin (timeDiffFromNoon forecast) |}
  else b.

Definition noteTemp (forecast : ForecastEntry) (b : DayBucket) : DayBucket :=
  match tempSample forecast with
  | Some t => {| date := date b; temps := temps b ++ [t]; pops := pops b;
                 bweather := bweather b; noonTimeDiff := noonTimeDiff b |}
  | None => b
  end.

Definition notePop (forecast : ForecastEntry) (b : DayBucket) : DayBucket :=
  match pop forecast with
  | Some p => {| date := date b; temps := temps b;
                 pops := pops b ++ [JS.percentOfDouble p];
                 bweather := bweather b; noonTimeDiff := noonTimeDiff b |}
  | None => b
  end.

Definition visit (forecast : ForecastEntry) (b : DayBucket) : DayBucket :=
  notePop forecast (noteTemp forecast (noteWeather forecast b)).

(** The body of [forecastList.forEach]. *)
Definition addForecast (dailyData : DailyData) (forecast : ForecastEntry) : DailyData :=
  let dailyData' :=
    match lookupDay (dayKey forecast) dailyData with
    | None => dailyData ++ [(dayKey forecast, emptyBucket (forecastDate forecast))]
    | Some _ => dailyData
    end in
  alterDay (visit forecast) (dayKey forecast) dailyData'.

Definition groupByDay (forecastList : list ForecastEntry) : DailyData :=
  foldl addForecast [] forecastList.

(** One element of the five-day view model. *)
Record DayForecast := {
  index : nat;
  dayName : Z;
  day_date : Z;
  minTemp : Z;
  maxTemp : Z;
  day_pop : JS.Rounded;
  day_weather : option WeatherItem
}.

Definition dayView (index : nat) (day : DayBucket) : DayForecast :=
  {| index := index;
     dayName := weekday (date day);
     day_date := date day;
     minTemp := match temps day with
                | t :: ts => JS.Math_round (JS.Math_min t ts)
                | [] => 0
                end;
     maxTemp := match temps day with
                | t :: ts => JS.Math_round (JS.Math_max t ts)
                | [] => 0
                end;
     day_pop := match pops day with
                | _ :: _ =>
                    JS.Math_round_double
                      (PrimFloat.div (JS.sum (pops day)) (JS.lengthOf (pops day)))
                | [] => JS.Integer 0
                end;
     day_weather := bweather day |}.

(** The comparator [(a, b) => a.date - b.date]. *)
Definition byDate (a b : DayBucket) : Prop := date a ≤ date b.

Global Instance byDate_dec a b : Decision (byDate a b).
Proof. unfold byDate. apply _. Defined.

(** [Object.values(dailyData).sort(..).filter(..).slice(0, 5).map(..)],
    with [today] the time value of today's local midnight. *)
Definition buildFiveDay (forecastList : list ForecastEntry) (today : Z) : list DayForecast :=
  imap dayView
    (take 5
      (filter (λ day, today ≤ date day)
        (merge_sort byDate (snd <$> groupByDay forecastList)))).

(** The memoised [fiveDayForecast] of the page, at the time [now]. *)
Definition fiveDayForecast (weatherData : option WeatherRecord) (now : Z) : list DayForecast :=
  match weatherData ≫= daily with
  | None => []
  | Some forecastList => buildFiveDay forecastList (startOfDay now)
  end.

(** [rainChance], with [now = Math.floor(Date.now() / 1000)]. *)
Definition closer (now : Z) (closest : option ForecastEntry) (forecast : ForecastEntry)
  : option ForecastEntry :=
  match closest with
  | None => Some forecast
  | Some c =>
      let closestDiff := Z.abs (dt c - now) in
      let forecastDiff := Z.abs (dt forecast - now) in
      if bool_decide (forecastDiff < closestDiff) then Some forecast else Some c
  end.

Definition currentForecast (forecastList : list ForecastEntry) (now : Z) : option ForecastEntry :=
  foldl (closer now) None forecastList.

Definition rainChance (weatherData : option WeatherRecord) (now : Z) : JS.Rounded :=
  match weatherData ≫= current with
  | None => JS.Integer 0
  | Some cur =>
      let forecastPop :=
        match weatherData ≫= daily with
        | Some forecastList => currentForecast forecastList now ≫= pop
        | None => None
        end in
      match forecastPop with
      | Some p => JS.Math_round_double (PrimFloat.mul p 100%float)
      | None => match rain cur with Some _ => JS.Integer 10 | None => JS.Integer 0 end
      end
  end.

(** *** Vocabulary of the properties *)

(** The entries the loop files under the day key [k], in the order of
    the list. *)
Definition dayEntries (k : Z) (forecastList : list ForecastEntry) : list ForecastEntry :=
  filter (λ f, dayKey f = k) forecastList.

(** The bucket the loop builds from the entries of one day. *)
Definition dayBucket (entries : list ForecastEntry) : option DayBucket :=
  foldl (λ b f, Some (visit f (default (emptyBucket (forecastDate f)) b))) None entries.

(** [forecast.pop * 100], when the entry has a [pop]. *)
Definition popSample (forecast : ForecastEntry) : option float :=
  JS.percentOfDouble <$> pop forecast.

(** The buckets that reach the view: from today on, the first five by date. *)
Definition shownDays (forecastList : list ForecastEntry) (today : Z) : list DayBucket :=
  take 5 (filter (λ day, today ≤ date day)
            (merge_sort byDate ((groupByDay forecastList).*2))).

(** The forecast entries of the local calendar date [d], a day number. *)
Definition onLocalDay (d : Z) (forecastList : list ForecastEntry) : list ForecastEntry :=
  filter (λ f, LocalTime.localDay zone (dt f * 1000) = d) forecastList.

End zone.

(** [x], at index [i] of [l], has the least distance, and every element
    before it has a strictly greater one: the element a running best
    replaced only on a strictly smaller distance ends at. *)
Definition FirstMin {A : Type} (dist : A → Z) (l : list A) (i : nat) (x : A) : Prop :=
  l !! i = Some x
  ∧ ∀ j y, l !! j = Some y → dist x ≤ dist y ∧ ((j < i)%nat → dist x < dist y).

(** The distance of a forecast entry to [now]. *)
Definition fromNow (now : Z) (forecast : ForecastEntry) : Z := Z.abs (dt forecast - now).

End WeatherPage.

(** ** Errors thrown by the services, by message *)
Inductive Error :=
  | ApiKeyMissing                         (* "API key is missing" *)
  | Api401                                (* "API key error (401)" *)
  | ApiStatus (label : string) (status : nat) (message : string)
                                          (* "<label> error: <status> - <message>" *)
  | FetchRejected                         (* the rejection of [fetch] or of [response.json()] *)
  | CityNotFound (cityName : string)
  | AlreadyInFavorites                    (* "This city is already in your favorites" *)
  | NotInFavorites                        (* "City not found in favorites" *)
  | SaveFailed                            (* "Failed to save favorite cities" *)
  | QuotaExceeded.                        (* the exception of [localStorage.setItem] *)

Definition dquote : string := String (Ascii.ascii_of_nat 34) EmptyString.

(** [error.message] *)
Definition messageOf (e : Error) : string :=
  match e with
  | ApiKeyMissing => "API key is missing"
  | Api401 => "API key error (401)"
  | ApiStatus label status message =>
      label +:+ " error: " +:+ pretty status +:+ " - " +:+ message
  | FetchRejected => "Failed to fetch"
  | CityNotFound cityName => "City " +:+ dquote +:+ cityName +:+ dquote +:+ " not found"
  | AlreadyInFavorites => "This city is already in your favorites"
  | NotInFavorites => "City not found in favorites"
  | SaveFailed => "Failed to save favorite cities"
  | QuotaExceeded => "QuotaExceededError"
  end.

(** A computation that returns or throws. *)
Definition result (A : Type) : Type := (A + Error)%type.

Definition ok {A} (a : A) : result A := inl a.
Definition throw {A} (e : Error) : result A := inr e.
Definition andThen {A B} (r : result A) (k : A → result B) : result B :=
  match r with inl a => k a | inr e => inr e end.
Definition catch {A} (r : result A) (handler : Error → result A) : result A :=
  match r with inl a => inl a | inr e => handler e end.

Declare Scope result_scope.
Delimit Scope result_scope with result.
Notation "'let*' x := r 'in' k" := (andThen r (λ x, k))
  (at level 10, x pattern, r at level 100, k at level 200) : result_scope.
Notation "r ;;; k" := (andThen r (λ _, k))
  (at level 100, k at level 200, right associativity) : result_scope.

(** [String.prototype.trim] *)
Fixpoint trimStart (s : string) : string :=
  match s with
  | String c s' => if Ascii.is_space c then trimStart s' else s
  | EmptyString => EmptyString
  end.
Definition trim (s : string) : string :=
  String.rev (trimStart (String.rev (trimStart s))).

(** ** The weather data client (services/weatherApi.js) *)
Module WeatherApi.

(** One element of the geocoding response. *)
Record GeoLocation := {
  lat : Q; lon : Q; name : string; country : string; state : option string
}.

(** What [searchCities] returns for it. *)
Record City := {
  c_lat : Q; c_lon : Q; c_name : string; c_country : string;
  c_state : option string; displayName : string
}.

(** A request of the geocoding search, by the parts of its URL
    [GEO_BASE_URL/direct?q=<q>&limit=<limit>&appid=<appid>]. *)
Record Request := { q : string; limit : nat; appid : string }.

(** What the network answers. *)
Inductive Body := Unparsable | JsonNull | JsonArray (data : list GeoLocation).
Inductive Response :=
  | NetworkFailure
  | HttpOk (body : Body)
  | HttpError (status : nat) (message : option string) (statusText : string).

Section client.
Variable API_KEY : string.
Variable fetch : Request → Response.

Definition ensureApiKey : result unit :=
  if decide (API_KEY = "") then throw ApiKeyMissing else ok ().

Definition requestJson (url : Request) (label : string) : result (option (list GeoLocation)) :=
  match fetch url with
  | NetworkFailure => throw FetchRejected
  | HttpOk Unparsable => throw FetchRejected
  | HttpOk JsonNull => ok None
  | HttpOk (JsonArray data) => ok (Some data)
  | HttpError status message statusText =>
      if decide (status = 401%nat) then throw Api401
      else throw (ApiStatus label status
                    (match message with
                     | Some m => if decide (m = "") then statusText else m
                     | None => statusText
                     end))
  end.

Definition toCity (location : GeoLocation) : City :=
  {| c_lat := lat location; c_lon := lon location;
     c_name := name location; c_country := country location;
     c_state := state location;
     displayName :=
       name location +:+
       (match state location with
        | Some s => if decide (s = "") then "" else ", " +:+ s
        | None => ""
        end) +:+ ", " +:+ country location |}.

Definition searchCities (query : string) (limit : nat) : result (list City) :=
  (ensureApiKey ;;;
   if bool_decide (query = "") || bool_decide (String.length (trim query) < 2)%nat
   then ok []
   else
     let url := {| q := trim query; limit := limit; appid := API_KEY |} in
     catch
       (let* data := requestJson url "Geocoding API" in
        ok (toCity <$> default [] data))
       (λ _, ok []))%result.

(** The body of the debounce timer's callback on both pages:
    the suggestions it stores once [searchCities] has settled. *)
Definition fetchedSuggestions (query : string) (limit : nat) : list City :=
  match searchCities query limit with
  | inl suggestions => suggestions
  | inr _ => []
  end.

End client.
End WeatherApi.

(** ** Browser storage

    [localStorage] holds one JSON document per key.  The documents are
    kept as the values [JSON.parse] yields for them; [Garbled] is a stored
    text that is empty or does not parse.  [setItem] throws when the quota
    is exceeded, and [setItemCalls] counts its calls. *)

(** A favourite: [{ id, ...cityData, addedAt }]. *)
Record FavoriteCity := {
  id : string;
  city : WeatherApi.City;           (* the spread [...cityData] *)
  addedAt : string
}.

Module LocalStorage.

Inductive item (A : Type) := Absent | Garbled | Doc (value : A).
Arguments Absent {A}.
Arguments Garbled {A}.
Arguments Doc {A} value.

Record t := {
  favorite_cities : item (list FavoriteCity);        (* key "favorite-cities" *)
  weather_search_history : item (list string);       (* key "weather-search-history" *)
  quotaExceeded : bool;
  setItemCalls : nat
}.

Definition empty : t :=
  {| favorite_cities := Absent; weather_search_history := Absent;
     quotaExceeded := false; setItemCalls := 0 |}.

(** [localStorage.setItem(FAVORITES_STORAGE_KEY, JSON.stringify(cities))] *)
Definition setFavorites (cities : list FavoriteCity) (st : t) : result unit * t :=
  if quotaExceeded st
  then (throw QuotaExceeded,
        {| favorite_cities := favorite_cities st;
           weather_search_history := weather_search_history st;
           quotaExceeded := quotaExceeded st;
           setItemCalls := S (setItemCalls st) |})
  else (ok (),
        {| favorite_cities := Doc cities;
           weather_search_history := weather_search_history st;
           quotaExceeded := quotaExceeded st;
           setItemCalls := S (setItemCalls st) |}).

(** [localStorage.setItem(SEARCH_HISTORY_KEY, JSON.stringify(history))] *)
Definition setHistory (history : list string) (st : t) : result unit * t :=
  if quotaExceeded st
  then (throw QuotaExceeded,
        {| favorite_cities := favorite_cities st;
           weather_search_history := weather_search_history st;
           quotaExceeded := quotaExceeded st;
           setItemCalls := S (setItemCalls st) |})
  else (ok (),
        {| favorite_cities := favorite_cities st;
           weather_search_history := Doc history;
           quotaExceeded := quotaExceeded st;
           setItemCalls := S (setItemCalls st) |}).

(** [localStorage.removeItem(FAVORITES_STORAGE_KEY)] *)
Definition removeFavorites (st : t) : t :=
  {| favorite_cities := Absent;
     weather_search_history := weather_search_history st;
     quotaExceeded := quotaExceeded st;
     setItemCalls := setItemCalls st |}.

End LocalStorage.

(** ** Favourite cities (services/weatherApi.js) *)
Module Favorites.
Import WeatherApi.

(** [stored ? JSON.parse(stored) : []], with the parse error caught. *)
Definition getFavoriteCities (st : LocalStorage.t) : list FavoriteCity :=
  match LocalStorage.favorite_cities st with
  | LocalStorage.Doc cities => cities
  | LocalStorage.Absent | LocalStorage.Garbled => []
  end.

Definition saveFavoriteCities (cities : list FavoriteCity) (st : LocalStorage.t)
  : result unit * LocalStorage.t :=
  match LocalStorage.setFavorites cities st with
  | (inl _, st') => (ok (), st')
  | (inr _, st') => (throw SaveFailed, st')
  end.

(** [city.lat === cityData.lat && city.lon === cityData.lon] *)
Definition sameCoords (cityData : City) (fav : FavoriteCity) : bool :=
  Qeq_bool (c_lat (city fav)) (c_lat cityData)
  && Qeq_bool (c_lon (city fav)) (c_lon cityData).

(** [newId] is the value of the id template and [timestamp] that of
    [new Date().toISOString()] at the call. *)
Definition addFavoriteCity (cityData : City) (newId timestamp : string)
    (st : LocalStorage.t) : result FavoriteCity * LocalStorage.t :=
  let favorites := getFavoriteCities st in
  let exists_ := existsb (sameCoords cityData) favorites in
  if exists_ then (throw AlreadyInFavorites, st)
  else
    let newCity := {| id := newId; city := cityData; addedAt := timestamp |} in
    match saveFavoriteCities (favorites ++ [newCity]) st with
    | (inl _, st') => (ok newCity, st')
    | (inr e, st') => (throw e, st')
    end.

Definition removeFavoriteCity (cityId : string) (st : LocalStorage.t)
  : result unit * LocalStorage.t :=
  let favorites := getFavoriteCities st in
  let filtered := filter (λ city, id city ≠ cityId) favorites in
  if decide (length filtered = length favorites)
  then (throw NotInFavorites, st)
  else saveFavoriteCities filtered st.

Definition isCityFavorited (lat lon : Q) (st : LocalStorage.t) : bool :=
  existsb (λ fav, Qeq_bool (c_lat (city fav)) lat
                   && Qeq_bool (c_lon (city fav)) lon)
          (getFavoriteCities st).

Definition clearAllFavorites (st : LocalStorage.t) : LocalStorage.t :=
  LocalStorage.removeFavorites st.

(** The calls by which the pages change the favourites, and the storage
    after a run of them (whether a call returned or threw). *)
Inductive Op :=
  | Add (cityData : City) (newId timestamp : string)
  | Remove (cityId : string)
  | Clear.

Definition apply (st : LocalStorage.t) (op : Op) : LocalStorage.t :=
  match op with
  | Add cityData newId timestamp => snd (addFavoriteCity cityData newId timestamp st)
  | Remove cityId => snd (removeFavoriteCity cityId st)
  | Clear => clearAllFavorites st
  end.

Definition run (ops : list Op) (st : LocalStorage.t) : LocalStorage.t :=
  foldl apply st ops.

(** Two favourites at the same point. *)
Definition sameLatLon (a b : FavoriteCity) : Prop :=
  (c_lat (city a) == c_lat (city b))%Q ∧ (c_lon (city a) == c_lon (city b))%Q.

(** No two entries of the list are at the same point. *)
Definition distinctCoords (l : list FavoriteCity) : Prop :=
  ∀ i j a b, l !! i = Some a → l !! j = Some b → sameLatLon a b → i = j.

(** The storage after a successful write of [cities]. *)
Definition written (cities : list FavoriteCity) (st : LocalStorage.t) : LocalStorage.t :=
  {| LocalStorage.favorite_cities := LocalStorage.Doc cities;
     LocalStorage.weather_search_history := LocalStorage.weather_search_history st;
     LocalStorage.quotaExceeded := LocalStorage.quotaExceeded st;
     LocalStorage.setItemCalls := S (LocalStorage.setItemCalls st) |}.

(** The coordinates of a favourite in lowest terms: equal exactly for
    favourites at the same point. *)
Definition coords (a : FavoriteCity) : Q * Q :=
  (Qred (c_lat (city a)), Qred (c_lon (city a))).

End Favorites.

(** ** Search history of the weather page *)
Module SearchHistory.

Definition MAX_HISTORY_ITEMS : nat := 5.

(** [parseJSONSafely(localStorage.getItem(SEARCH_HISTORY_KEY), [])] *)
Definition readHistoryFromStorage (st : LocalStorage.t) : list string :=
  match LocalStorage.weather_search_history st with
  | LocalStorage.Doc history => history
  | LocalStorage.Absent | LocalStorage.Garbled => []
  end.

(** The page's [searchHistory] state next to the storage it mirrors. *)
Record State := { searchHistory : list string; storage : LocalStorage.t }.

Definition initial : State :=
  {| searchHistory := readHistoryFromStorage LocalStorage.empty;
     storage := LocalStorage.empty |}.

Definition cityIdentifier (location : WeatherApi.GeoLocation) : string :=
  WeatherApi.name location +:+ ", " +:+ WeatherApi.country location.

(** The state updater of [addToSearchHistory]. *)
Definition newHistory (cityIdentifier : string) (prev : list string) : list string :=
  let filtered := filter (λ item, item ≠ cityIdentifier) prev in
  take MAX_HISTORY_ITEMS (cityIdentifier :: filtered).

(** [addToSearchHistory]: the updater writes the new list to storage and
    returns it; an exception of [setItem] leaves the state as it was. *)
Definition addToSearchHistory (location : WeatherApi.GeoLocation) (s : State)
  : result unit * State :=
  let history := newHistory (cityIdentifier location) (searchHistory s) in
  match LocalStorage.setHistory history (storage s) with
  | (inl _, st') => (ok (), {| searchHistory := history; storage := st' |})
  | (inr e, st') => (throw e, {| searchHistory := searchHistory s; storage := st' |})
  end.

(** A run of additions, stopping at the first exception. *)
Fixpoint addAll (locations : list WeatherApi.GeoLocation) (s : State) : result unit * State :=
  match locations with
  | [] => (ok (), s)
  | location :: rest =>
      match addToSearchHistory location s with
      | (inl _, s') => addAll rest s'
      | (inr e, s') => (throw e, s')
      end
  end.

(** [l] without repetitions: each string stays where it first occurs. *)
Fixpoint firstOccurrences (l : list string) : list string :=
  match l with
  | [] => []
  | x :: l' => x :: filter (λ item, item ≠ x) (firstOccurrences l')
  end.

(** The identifiers of a run of additions [added] (oldest first), each
    once, in the order of their latest addition, newest first. *)
Definition mostRecentFirst (added : list string) : list string :=
  firstOccurrences (reverse added).

(** The history after the additions [added], by the updater alone. *)
Definition historyAfter (added : list string) : list string :=
  foldl (λ prev x, newHistory x prev) [] added.

End SearchHistory.

(** ** Debounced suggestion search (both pages)

    The browser's timers are a list of active timers; [setTimeout] adds
    one under a fresh positive id and [clearTimeout] removes the one with
    the given id, if it is still there.  Time is in milliseconds. *)
Module SuggestionSearch.
Import WeatherApi.

Definition DEBOUNCE_DELAY : nat := 300.

Record Timer := { timerId : nat; fireAt : nat; timerQuery : string }.

(** A call of [searchCities] made by the callback of timer [callTimer]. *)
Record Call := { callTimer : nat; callQuery : string }.

Record Page := {
  now : nat;
  nextTimerId : nat;
  timers : list Timer;
  debounceTimerRef : option nat;
  searchSuggestions : list City;
  isSearching : bool;
  issued : list Call;               (* every call made so far, oldest first *)
  inFlight : list Call              (* the calls that have not settled yet *)
}.

Definition initial : Page :=
  {| now := 0; nextTimerId := 1; timers := []; debounceTimerRef := None;
     searchSuggestions := []; isSearching := false; issued := []; inFlight := [] |}.

Definition withTimers (ts : list Timer) (p : Page) : Page :=
  {| now := now p; nextTimerId := nextTimerId p; timers := ts;
     debounceTimerRef := debounceTimerRef p;
     searchSuggestions := searchSuggestions p; isSearching := isSearching p;
     issued := issued p; inFlight := inFlight p |}.

Definition withSuggestions (l : list City) (searching : bool) (p : Page) : Page :=
  {| now := now p; nextTimerId := nextTimerId p; timers := timers p;
     debounceTimerRef := debounceTimerRef p;
     searchSuggestions := l; isSearching := searching;
     issued := issued p; inFlight := inFlight p |}.

Definition clearTimeout (i : nat) (p : Page) : Page :=
  withTimers (filter (λ t, timerId t ≠ i) (timers p)) p.

(** [debounceTimerRef.current = setTimeout(callback, delay)] *)
Definition setTimeoutRef (query : string) (delay : nat) (p : Page) : Page :=
  {| now := now p; nextTimerId := S (nextTimerId p);
     timers := timers p ++ [{| timerId := nextTimerId p;
                               fireAt := now p + delay;
                               timerQuery := query |}];
     debounceTimerRef := Some (nextTimerId p);
     searchSuggestions := searchSuggestions p; isSearching := isSearching p;
     issued := issued p; inFlight := inFlight p |}.

Definition debouncedSearchCities (query : string) (p : Page) : Page :=
  let p1 := match debounceTimerRef p with
            | Some i => clearTimeout i p
            | None => p
            end in
  if bool_decide (query = "") || bool_decide (String.length (trim query) < 2)%nat
  then withSuggestions [] false p1
  else setTimeoutRef query DEBOUNCE_DELAY
         (withSuggestions (searchSuggestions p1) true p1).

(** The timer's callback starts: it calls [searchCities]. *)
Definition fire (t : Timer) (p : Page) : Page :=
  let call := {| callTimer := timerId t; callQuery := timerQuery t |} in
  {| now := now p; nextTimerId := nextTimerId p; timers := timers p;
     debounceTimerRef := debounceTimerRef p;
     searchSuggestions := searchSuggestions p; isSearching := isSearching p;
     issued := issued p ++ [call]; inFlight := inFlight p ++ [call] |}.

Definition due (time : nat) (t : Timer) : Prop := (fireAt t ≤ time)%nat.
Definition earlier (a b : Timer) : Prop := (fireAt a ≤ fireAt b)%nat.

Global Instance due_dec time t : Decision (due time t).
Proof. unfold due. apply _. Defined.
Global Instance earlier_dec a b : Decision (earlier a b).
Proof. unfold earlier. apply _. Defined.

(** [d] milliseconds pass: the timers that are due run, earliest first. *)
Definition elapse (d : nat) (p : Page) : Page :=
  let time := (now p + d)%nat in
  let ready := merge_sort earlier (filter (due time) (timers p)) in
  let waiting := filter (λ t, ¬ due time t) (timers p) in
  foldl (λ p t, fire t p)
    {| now := time; nextTimerId := nextTimerId p; timers := waiting;
       debounceTimerRef := debounceTimerRef p;
       searchSuggestions := searchSuggestions p; isSearching := isSearching p;
       issued := issued p; inFlight := inFlight p |}
    ready.

Section page.
Variable API_KEY : string.
Variable fetch : Request → Response.
Variable limit : nat.             (* 5 on the weather page, 8 on the stations page *)

(** The [n]-th call in flight settles: the rest of the callback runs. *)
Definition settle (n : nat) (p : Page) : Page :=
  match inFlight p !! n with
  | None => p
  | Some call =>
      {| now := now p; nextTimerId := nextTimerId p; timers := timers p;
         debounceTimerRef := debounceTimerRef p;
         searchSuggestions := fetchedSuggestions API_KEY fetch (callQuery call) limit;
         isSearching := false;
         issued := issued p; inFlight := delete n (inFlight p) |}
  end.

Inductive Event :=
  | Keystroke (query : string)
  | Elapse (d : nat)
  | Settle (n : nat).

Definition step (p : Page) (e : Event) : Page :=
  match e with
  | Keystroke query => debouncedSearchCities query p
  | Elapse d => elapse d p
  | Settle n => settle n p
  end.

Definition run (es : list Event) (p : Page) : Page := foldl step p es.

End page.

(** *** Vocabulary of the properties *)

Local Open Scope nat_scope.

Definition toCall (t : Timer) : Call :=
  {| callTimer := timerId t; callQuery := timerQuery t |}.

(** The first statement of [debouncedSearchCities]. *)
Definition cancelled (p : Page) : Page :=
  match debounceTimerRef p with Some i => clearTimeout i p | None => p end.

(** The test that makes a keystroke clear the suggestions and schedule
    nothing. *)
Definition tooShort (query : string) : bool :=
  bool_decide (query = "") || bool_decide (String.length (trim query) < 2).

(** The time an event takes. *)
Definition elapsedOf (e : Event) : nat :=
  match e with Elapse d => d | Keystroke _ | Settle _ => 0 end.
Definition elapsed (es : list Event) : nat := sum_list (elapsedOf <$> es).

(** What holds of the page in every state: at most one timer is active and
    it is the one the ref names; timer ids are handed out in increasing
    order. *)
Record Inv (p : Page) : Prop := {
  inv_ref : ∀ t, t ∈ timers p → debounceTimerRef p = Some (timerId t);
  inv_one : length (timers p) ≤ 1;
  inv_timers : ∀ t, t ∈ timers p → timerId t < nextTimerId p;
  inv_issued : ∀ c, c ∈ issued p → callTimer c < nextTimerId p
}.

(** Timer [i] has made no call, and can make none before time [T]: it was
    handed out, and if it is still active it is not due before [T]. *)
Record Safe (i T : nat) (p : Page) : Prop := {
  safe_inv : Inv p;
  safe_old : i < nextTimerId p;
  safe_issued : ∀ c, c ∈ issued p → callTimer c ≠ i;
  safe_timer : ∀ t, t ∈ timers p → timerId t = i → T ≤ fireAt t
}.

(** Timer [i] has made no call and is no longer active. *)
Record Dead (i : nat) (p : Page) : Prop := {
  dead_inv : Inv p;
  dead_old : i < nextTimerId p;
  dead_issued : ∀ c, c ∈ issued p → callTimer c ≠ i;
  dead_timer : ∀ t, t ∈ timers p → timerId t ≠ i
}.

End SuggestionSearch.

(** ** Geolocation fallback of the weather page *)
Module Geolocation.

Record PositionOptions := {
  enableHighAccuracy : bool;
  timeout : Z;
  maximumAge : Z
}.

Definition geolocationAttempts : list PositionOptions :=
  [ {| enableHighAccuracy := false; timeout := 10000; maximumAge := 300000 |};
    {| enableHighAccuracy := true; timeout := 20000; maximumAge := 0 |} ].

(** The two configurations of [geolocationAttempts], by name. *)
Definition lowAccuracy : PositionOptions :=
  {| enableHighAccuracy := false; timeout := 10000; maximumAge := 300000 |}.
Definition highAccuracy : PositionOptions :=
  {| enableHighAccuracy := true; timeout := 20000; maximumAge := 0 |}.

Record Coords := { latitude : Q; longitude : Q }.

(** A [GeolocationPositionError]: code 1 is permission denied, 2 position
    unavailable, 3 timeout. *)
Record PositionError := { code : Z; message : string }.

(** How a [requestPosition] promise settles.  A promise resolved with a
    falsy position is [Resolved None]. *)
Inductive Outcome :=
  | Resolved (position : option Coords)
  | Rejected (attemptError : PositionError).

(** What the [try] block of the handler can throw. *)
Inductive Thrown :=
  | DeviceError (e : PositionError)
  | NewError (message : string)
  | ServiceError (e : Error).

Record LocationInfo := { name : string; country : string; state : string }.

(** The answer to the reverse geocoding request. *)
Inductive ReverseAnswer :=
  | ReverseFailed                     (* [fetch] or the body's parse throws *)
  | ReverseNotOk
  | ReverseOk (first : option WeatherApi.GeoLocation).

(** The requests the handler makes, in order. *)
Inductive Effect :=
  | GetCurrentPosition (options : PositionOptions)
  | ReverseGeocode (lat lon : Q)
  | GetWeatherByCoordinates (lat lon : Q) (locationInfo : LocationInfo).

Definition GENERIC_FAILURE : string :=
  "Unable to determine location after multiple attempts".

Section device.
Variable geolocationSupported : bool.                 (* [navigator.geolocation] *)
(** The device's answer to the [n]-th request of the handler. *)
Variable requestPosition : nat → PositionOptions → Outcome.
Variable API_KEY : string.
Variable reverse : Q → Q → ReverseAnswer.
Variable WeatherData : Type.
Variable getWeatherByCoordinates : Q → Q → LocationInfo → result WeatherData.

(** The [for ... of] loop over the attempts, from the [n]-th request on:
    the final [position] and [lastError], and the requests made. *)
Fixpoint attempt (n : nat) (attempts : list PositionOptions)
    (lastError : option PositionError)
  : option Coords * option PositionError * list Effect :=
  match attempts with
  | [] => (None, lastError, [])
  | options :: rest =>
      match requestPosition n options with
      | Resolved (Some position) =>
          (Some position, lastError, [GetCurrentPosition options])
      | Resolved None =>
          let '(position, lastError', made) := attempt (S n) rest lastError in
          (position, lastError', GetCurrentPosition options :: made)
      | Rejected attemptError =>
          let '(position, lastError', made) := attempt (S n) rest (Some attemptError) in
          (position, lastError', GetCurrentPosition options :: made)
      end
  end.

Definition defaultInfo : LocationInfo :=
  {| name := "Current Location"; country := ""; state := "" |}.

(** The best-effort reverse geocoding. *)
Definition resolveInfo (latitude longitude : Q) : LocationInfo * list Effect :=
  if decide (API_KEY = "") then (defaultInfo, [])
  else
    (match reverse latitude longitude with
     | ReverseOk (Some location) =>
         {| name := WeatherApi.name location;
            country := WeatherApi.country location;
            state := default "" (WeatherApi.state location) |}
     | ReverseOk None | ReverseNotOk | ReverseFailed => defaultInfo
     end,
     [ReverseGeocode latitude longitude]).

(** The [try] block: the weather data to apply, or what is thrown. *)
Definition locateAndFetch : (WeatherData + Thrown) * list Effect :=
  let '(position, lastError, made) := attempt 0 geolocationAttempts None in
  match position with
  | None =>
      (inr (match lastError with
            | Some e => DeviceError e
            | None => NewError GENERIC_FAILURE
            end), made)
  | Some coords =>
      let '(locationInfo, made') := resolveInfo (latitude coords) (longitude coords) in
      let made'' := made ++ made' ++
        [GetWeatherByCoordinates (latitude coords) (longitude coords) locationInfo] in
      match getWeatherByCoordinates (latitude coords) (longitude coords) locationInfo with
      | inl data => (inl data, made'')
      | inr e => (inr (ServiceError e), made'')
      end
  end.

(** [m || 'Failed to get current location. ...'] *)
Definition orFallback (m : string) : string :=
  if decide (m = "") then
    "Failed to get current location. Please search for your city instead."
  else m.

(** The [catch] block: the message shown for what was thrown. *)
Definition errorMessage (err : Thrown) : string :=
  match err with
  | DeviceError e =>
      if decide (code e = 1) then
        "Location access denied. Please allow location access in your browser settings and reload the page."
      else if decide (code e = 2) then
        "Unable to determine your location. Try searching for your city manually."
      else if decide (code e = 3) then
        "Location request timed out. Your device may be having trouble determining location. Try searching for your city manually."
      else orFallback (message e)
  | NewError m => orFallback m
  | ServiceError e => orFallback (messageOf e)
  end.

(** The part of the page's state the handler writes. *)
Record View := {
  error : option string;
  weatherData : option WeatherData;
  gettingLocation : bool;
  loading : bool
}.

Definition handleCurrentLocation (v : View) : View * list Effect :=
  if negb geolocationSupported
  then ({| error := Some "Geolocation is not supported by your browser";
           weatherData := weatherData v;
           gettingLocation := gettingLocation v; loading := loading v |}, [])
  else
    match locateAndFetch with
    | (inl data, made) =>
        ({| error := None; weatherData := Some data;
            gettingLocation := false; loading := false |}, made)
    | (inr err, made) =>
        ({| error := Some (errorMessage err); weatherData := weatherData v;
            gettingLocation := false; loading := false |}, made)
    end.

(** *** Outcomes of the handler *)

(** What the handler does once a position is at hand: the requests after
    the position requests, the last of them the weather request at the
    position's coordinates, and the state it leaves. *)
Definition fetchedAt (coords : Coords) (v v' : View) (rest : list Effect) : Prop :=
  let locationInfo := fst (resolveInfo (latitude coords) (longitude coords)) in
  let fetched :=
    getWeatherByCoordinates (latitude coords) (longitude coords) locationInfo in
  rest = snd (resolveInfo (latitude coords) (longitude coords))
         ++ [GetWeatherByCoordinates (latitude coords) (longitude coords) locationInfo]
  ∧ match fetched with
    | inl data => v' = {| error := None; weatherData := Some data;
                          gettingLocation := false; loading := false |}
    | inr e => v' = {| error := Some (errorMessage (ServiceError e));
                       weatherData := weatherData v;
                       gettingLocation := false; loading := false |}
    end.

(** What the handler does when no position was obtained: it throws [err],
    which its own [catch] turns into the message shown. *)
Definition failedWith (err : Thrown) (v v' : View) : Prop :=
  fst locateAndFetch = inr err
  ∧ v' = {| error := Some (errorMessage err); weatherData := weatherData v;
            gettingLocation := false; loading := false |}.

End device.

Arguments error {WeatherData} v : rename.
Arguments weatherData {WeatherData} v : rename.
Arguments gettingLocation {WeatherData} v : rename.
Arguments loading {WeatherData} v : rename.

End Geolocation.

(** ** Sample data

    Oslo in January: local time is UTC+1.  The sample days start at
    2024-01-15, a Monday; forecast timestamps are in seconds. *)
Module Samples.

Definition oslo : WeatherApi.City :=
  {| WeatherApi.c_lat := 5991 # 100; WeatherApi.c_lon := 1075 # 100;
     WeatherApi.c_name := "Oslo"; WeatherApi.c_country := "NO";
     WeatherApi.c_state := None; WeatherApi.displayName := "Oslo, NO" |}.
Definition bergen : WeatherApi.City :=
  {| WeatherApi.c_lat := 6039 # 100; WeatherApi.c_lon := 532 # 100;
     WeatherApi.c_name := "Bergen"; WeatherApi.c_country := "NO";
     WeatherApi.c_state := None; WeatherApi.displayName := "Bergen, NO" |}.

(** Oslo again, its coordinates written as other fractions. *)
Definition osloAgain : WeatherApi.City :=
  {| WeatherApi.c_lat := 11982 # 200; WeatherApi.c_lon := 215 # 20;
     WeatherApi.c_name := "Oslo"; WeatherApi.c_country := "NO";
     WeatherApi.c_state := None; WeatherApi.displayName := "Oslo, NO" |}.

Definition favOslo : FavoriteCity :=
  {| id := "1700000000000_abc"; city := oslo; addedAt := "2023-11-14T22:13:20.000Z" |}.
Definition favBergen : FavoriteCity :=
  {| id := "1700000000500_xyz"; city := bergen; addedAt := "2023-11-14T22:13:20.500Z" |}.

Definition twoFavorites : LocalStorage.t :=
  Favorites.written [favOslo; favBergen] LocalStorage.empty.

Definition place (name : string) : WeatherApi.GeoLocation :=
  {| WeatherApi.lat := 0; WeatherApi.lon := 0; WeatherApi.name := name;
     WeatherApi.country := "NO"; WeatherApi.state := None |}.

Definition sixCities : list WeatherApi.GeoLocation :=
  place <$> ["Oslo"; "Bergen"; "Trondheim"; "Stavanger"; "Tromso"; "Bodo"].

Definition london : Geolocation.Coords :=
  {| Geolocation.latitude := 515 # 10; Geolocation.longitude := -12 # 100 |}.

(** A device whose quick attempt times out and whose precise one gives a
    position. *)
Definition slowDevice (n : nat) (options : Geolocation.PositionOptions) : Geolocation.Outcome :=
  if Geolocation.enableHighAccuracy options then Geolocation.Resolved (Some london)
  else Geolocation.Rejected {| Geolocation.code := 3; Geolocation.message := "Timeout expired" |}.

Definition blank : Geolocation.View unit :=
  {| Geolocation.error := None; Geolocation.weatherData := None;
     Geolocation.gettingLocation := false; Geolocation.loading := false |}.

Definition offline (url : WeatherApi.Request) : WeatherApi.Response :=
  WeatherApi.NetworkFailure.

(** Central European Time, one hour ahead of UTC. *)
Definition cet : LocalTime.Zone := LocalTime.fixed 3600000.

(** Europe/London in the spring of 2024: the clocks go from 01:00 to
    02:00 on Sunday 2024-03-31, at the time value [1711846800000]. *)
Definition europeLondon : LocalTime.Zone :=
  {| LocalTime.offsetAt := λ t, if bool_decide (t < 1711846800000) then 0 else 3600000;
     LocalTime.offsetOfLocal := λ l, if bool_decide (l < 1711850400000) then 0 else 3600000 |}.

(** Sunday 2024-03-31 at 10:00 and Monday 2024-04-01 at 12:00, London
    time, in seconds. *)
Definition sundayMorning : Z := 1711875600.
Definition mondayNoon : Z := 1711969200.

Definition londonEntries : list ForecastEntry :=
  [ {| dt := sundayMorning;
       main := Some {| main_temp := Some 8%Q; temp_min := None; temp_max := None |};
       temp := None; weather := [{| icon := "10d"; description := "rain" |}];
       pop := None |};
    {| dt := mondayNoon;
       main := Some {| main_temp := Some 14%Q; temp_min := None; temp_max := None |};
       temp := None; weather := [{| icon := "01d"; description := "clear sky" |}];
       pop := None |} ].

(** Local midnight of 2024-01-15 in seconds, and the time value of it. *)
Definition monday : Z := 1705273200.
Definition today : Z := monday * 1000.

(** The entry of day [d] (0 for Monday) at local hour [h]. *)
Definition entry (d h : Z) (t : Q) (icon : string) (p : option float) : ForecastEntry :=
  {| dt := monday + d * 86400 + h * 3600;
     main := Some {| main_temp := Some t; temp_min := None; temp_max := None |};
     temp := None;
     weather := [{| icon := icon; description := "" |}];
     pop := p |}.

(** One day with entries at 9, 12 and 15 o'clock and the temperatures
    10, 15 and 12. *)
Definition threeEntries : list ForecastEntry :=
  [ entry 0 9 10 "02d" (Some 0.2%float);
    entry 0 12 15 "01d" (Some 0.42%float);
    entry 0 15 12 "10d" (Some 0.7%float) ].

(** The view of that day. *)
Definition noonDay : WeatherPage.DayForecast :=
  {| WeatherPage.index := 0; WeatherPage.dayName := 1; WeatherPage.day_date := today;
     WeatherPage.minTemp := 10; WeatherPage.maxTemp := 15; WeatherPage.day_pop := JS.Integer 44;
     WeatherPage.day_weather := Some {| icon := "01d"; description := "" |} |}.

(** One day with the readings 0, 4 and 2. *)
Definition freezing : list ForecastEntry :=
  [entry 0 9 0 "13d" None; entry 0 12 4 "01d" None; entry 0 15 2 "02d" None].

(** Entries at noon of days 0 to 7, out of order. *)
Definition week : list ForecastEntry :=
  (λ d, entry d 12 (inject_Z d) "01d" None) <$> [6; 0; 3; 1; 7; 2; 5; 4; 3].

Definition dry : CurrentConditions :=
  {| cur_dt := monday + 43000; cur_temp := 15; cur_weather := []; rain := None |}.

End Samples.

(** * Further parts of the client

    The modules that follow embed the icon table, the station store, the
    hourly strip and the keyboard handling of the weather page, the
    weather requests of the client, the cards of the stations page and
    the search handlers of the weather page.

    Conventions added to those above.
    - A call of the client is the pair of what it returns or throws and
      of the requests it sent, in order ([WeatherClient.Traced]); the
      answers of the network are section variables.
    - [Promise.all] over two calls: both are started, so both requests
      are sent; it returns both results or throws the failure that comes
      first, and which one that is when both fail is a section variable.
    - An asynchronous handler is the state of the page once the handler
      has run to its end, with the requests it sent.
    - [Infinity], [-Infinity] and [NaN] are values only where
      [Math.min] and [Math.max] are applied to a list that can be empty
      ([StationsPage.Number]).
    - The favourite-city calls of the stations page come from a service
      module of their own; of that page [fetchCityWeather] is embedded,
      which depends on the weather client alone. *)

(** ** Weather icons (utils/weatherIcons.js) *)
Module WeatherIcons.

(** Weather codes that do not have day/night variants. *)
Definition NO_DAY_NIGHT_VARIANTS : list string :=
  ["04"; "09"; "10"; "11"; "13"; "15"; "22"; "30"; "31"; "32"; "33"; "34";
   "46"; "47"; "48"; "49"; "50"].

(** [s.slice(0, -1)]: all but the last character. *)
Fixpoint sliceInit (s : string) : string :=
  match s with
  | EmptyString => EmptyString
  | String c s' =>
      match s' with
      | EmptyString => EmptyString
      | String _ _ => String c (sliceInit s')
      end
  end.

(** [s.slice(-1)]: the last character, as a string. *)
Fixpoint sliceLast (s : string) : string :=
  match s with
  | EmptyString => EmptyString
  | String c s' =>
      match s' with
      | EmptyString => String c EmptyString
      | String _ _ => sliceLast s'
      end
  end.

(** The template [`/src/assets/weather-icons/${code}.svg`]. *)
Definition iconFile (code : string) : string :=
  "/src/assets/weather-icons/" +:+ code +:+ ".svg".

(** The default of the [fallback] parameter. *)
Definition DEFAULT_FALLBACK : string := "01d".

(** [getWeatherIconPath(iconCode, fallback = "01d")]; an argument that is
    [undefined] is [None], and the empty string is falsy like it. *)
Definition getWeatherIconPath (iconCode : option string) (fallback : option string) : string :=
  let fallback := default DEFAULT_FALLBACK fallback in
  match iconCode with
  | None => iconFile fallback
  | Some iconCode =>
      if decide (iconCode = "") then iconFile fallback
      else
        let baseCode := sliceInit iconCode in
        let suffix := sliceLast iconCode in
        if bool_decide (baseCode ∈ NO_DAY_NIGHT_VARIANTS)
           && (bool_decide (suffix = "d") || bool_decide (suffix = "n"))
        then iconFile baseCode
        else iconFile iconCode
  end.

(** [getWeatherIcon(weatherObj, fallback = "01d")] *)
Definition getWeatherIcon (weatherObj : option WeatherItem) (fallback : option string) : string :=
  let fallback := default DEFAULT_FALLBACK fallback in
  let iconCode :=
    match weatherObj with
    | Some w => if decide (icon w = "") then fallback else icon w
    | None => fallback
    end in
  getWeatherIconPath (Some iconCode) (Some fallback).

(** [String.prototype.toLowerCase], on the letters A to Z. *)
Definition lowerChar (c : Ascii.ascii) : Ascii.ascii :=
  let n := Ascii.nat_of_ascii c in
  if (65 <=? n)%nat && (n <=? 90)%nat then Ascii.ascii_of_nat (n + 32) else c.

Fixpoint toLowerCase (s : string) : string :=
  match s with
  | EmptyString => EmptyString
  | String c s' => String (lowerChar c) (toLowerCase s')
  end.

(** [s.includes(needle)] *)
Fixpoint includes (needle s : string) : bool :=
  String.prefix needle s
  || match s with
     | EmptyString => false
     | String _ s' => includes needle s'
     end.

(** [getIconCodeFromCondition(condition, isDay = true)] *)
Definition getIconCodeFromCondition (condition : option string) (isDay : option bool) : string :=
  let suffix := if default true isDay then "d" else "n" in
  let conditionLower := default "" (toLowerCase <$> condition) in
  if includes "clear" conditionLower then "01" +:+ suffix
  else if includes "cloud" conditionLower then
    if includes "few" conditionLower then "02" +:+ suffix
    else if includes "scattered" conditionLower then "03" +:+ suffix
    else if includes "broken" conditionLower || includes "overcast" conditionLower then "04"
    else "03" +:+ suffix
  else if includes "rain" conditionLower then
    if includes "shower" conditionLower then "09"
    else "10" +:+ suffix
  else if includes "drizzle" conditionLower then "09"
  else if includes "thunderstorm" conditionLower then "11"
  else if includes "snow" conditionLower then "13"
  else if includes "mist" conditionLower || includes "fog" conditionLower
          || includes "haze" conditionLower then "50"
  else "01" +:+ suffix.

(** The files a condition text can be drawn with. *)
Definition conditionFiles : list string :=
  iconFile <$> ["01d"; "01n"; "02d"; "02n"; "03d"; "03n"; "04"; "09"; "10"; "11"; "13"; "50"].

End WeatherIcons.

(** ** Saved weather stations (utils/storage.js) *)
Module Stations.
Section stations.

(** A station is an element of the parsed array, and [station_id] the
    string its [id] holds ([None] when it holds none). *)
Context {Station : Type}.
Variable station_id : Station → option string.

(** What [localStorage.getItem(STATIONS_KEY)] finds: nothing, the empty
    string, a text that is not JSON, a JSON value that is not an array,
    or an array of stations. *)
Inductive Stored :=
  | Missing
  | EmptyText
  | NotJson
  | NotArray
  | Saved (stations : list Station).

Record Storage := { weather_stations : Stored; quotaExceeded : bool }.

Definition readStations (st : Storage) : list Station :=
  match weather_stations st with
  | Missing | EmptyText => []
  | NotJson => []
  | NotArray => []
  | Saved parsed => parsed
  end.

Definition getStations (st : Storage) : list Station := readStations st.

(** [localStorage.setItem(STATIONS_KEY, JSON.stringify(stations))] *)
Definition setItem (stations : list Station) (st : Storage) : result unit * Storage :=
  if quotaExceeded st then (throw QuotaExceeded, st)
  else (ok (), {| weather_stations := Saved stations; quotaExceeded := quotaExceeded st |}).

Definition addStation (station : Station) (st : Storage) : result unit * Storage :=
  let stations := readStations st in
  setItem (stations ++ [station]) st.

Definition removeStation (stationId : string) (st : Storage) : result unit * Storage :=
  let stations := readStations st in
  let filtered := filter (λ station, station_id station ≠ Some stationId) stations in
  setItem filtered st.

End stations.

Arguments Stored : clear implicits.
Arguments Storage : clear implicits.

(** A station of the samples: its id and its name. *)
Definition stationA : option string * string := (Some "st-1", "Blindern").
Definition stationB : option string * string := (Some "st-2", "Florida").

End Stations.

(** ** The hourly strip of the weather page (pages/Weather.jsx) *)
Module HourlyForecast.
Section zone.
Variable zone : LocalTime.Zone.

(** [toLocaleTimeString('en-GB', {hour: '2-digit', minute: '2-digit',
    hour12: false})]: the hour and the minute of the local time, which
    the page prints as [HH:MM]. *)
Record ClockTime := { hours : Z; minutes : Z }.

Definition msPerMinute : Z := 60000.

Definition toLocaleTimeString (t : Z) : ClockTime :=
  {| hours := LocalTime.getHours zone t;
     minutes := (LocalTime.localTime zone t `mod` LocalTime.msPerHour) `div` msPerMinute |}.

(** One element of [hourlyForecast]. *)
Record HourView := {
  time : ClockTime;
  hour_temp : Z;
  hour_weather : option WeatherItem
}.

(** The body of the [map]:
    [Math.round(forecast.main?.temp || forecast.temp || 0)]. *)
Definition hourView (forecast : ForecastEntry) : HourView :=
  {| time := toLocaleTimeString (dt forecast * 1000);
     hour_temp :=
       match JS.js_or (JS.js_or (main forecast ≫= main_temp) (temp forecast)) (Some 0%Q) with
       | Some t => JS.Math_round t
       | None => 0
       end;
     hour_weather := head (weather forecast) |}.

(** [hourlyForecast], with [nowMs] the value of [Date.now()]. *)
Definition hourlyForecast (weatherData : option WeatherRecord) (nowMs : Z) : list HourView :=
  match weatherData ≫= daily with
  | None => []
  | Some forecastList =>
      let now := (inject_Z nowMs / 1000)%Q in
      hourView <$>
        take 11 (filter (λ forecast, Qle_bool now (inject_Z (dt forecast)) = true)
                        forecastList)
  end.

(** [formatTime(timestamp)]; [None] is the text 'N/A'. *)
Definition formatTime (timestamp : option Z) : option ClockTime :=
  match timestamp with
  | None => None
  | Some t => if decide (t = 0) then None else Some (toLocaleTimeString (t * 1000))
  end.

(** The forecast entries that are not over at [nowMs]. *)
Definition upcoming (nowMs : Z) (forecastList : list ForecastEntry) : list ForecastEntry :=
  filter (λ forecast, nowMs ≤ dt forecast * 1000) forecastList.

End zone.
End HourlyForecast.

(** ** The search dropdown of the weather page (pages/Weather.jsx) *)
Module SearchDropdown.
Import Stdlib.Strings.Ascii WeatherApi.

(** The state [handleKeyDown] reads. *)
Record View := {
  showHistory : bool;
  isActivelyTyping : bool;
  cityName : string;
  searchSuggestions : list City;
  searchHistory : list string;
  highlightedIndex : Z
}.

Inductive Key := ArrowDown | ArrowUp | Enter | Escape | OtherKey.

(** The handler a key press calls, with the argument the array access
    gives it ([None] for [undefined]). *)
Inductive Action :=
  | HandleSuggestionClick (suggestion : option City)
  | HandleCurrentLocation
  | HandleRecentSearchClick (city : option string)
  | Blur.

Definition setHighlightedIndex (i : Z) (v : View) : View :=
  {| showHistory := showHistory v; isActivelyTyping := isActivelyTyping v;
     cityName := cityName v; searchSuggestions := searchSuggestions v;
     searchHistory := searchHistory v; highlightedIndex := i |}.

(** [isActivelyTyping && cityName.trim().length >= 2] *)
Definition suggesting (v : View) : bool :=
  isActivelyTyping v && bool_decide (2 ≤ String.length (trim (cityName v)))%nat.

Definition totalItems (v : View) : Z :=
  let items := if suggesting v then length (searchSuggestions v)
               else length (searchHistory v) in
  if isActivelyTyping v then Z.of_nat items else Z.of_nat items + 1.

Definition handleKeyDown (key : Key) (v : View) : View * option Action :=
  if negb (showHistory v) then (v, None)
  else
    let prev := highlightedIndex v in
    match key with
    | ArrowDown =>
        (setHighlightedIndex (if bool_decide (prev < totalItems v - 1) then prev + 1 else 0) v,
         None)
    | ArrowUp =>
        (setHighlightedIndex (if bool_decide (prev > 0) then prev - 1 else totalItems v - 1) v,
         None)
    | Enter =>
        if bool_decide (prev >= 0) then
          if suggesting v then
            if bool_decide (prev < Z.of_nat (length (searchSuggestions v)))
            then (v, Some (HandleSuggestionClick (searchSuggestions v !! Z.to_nat prev)))
            else (v, None)
          else
            if bool_decide (prev = 0) then (v, Some HandleCurrentLocation)
            else if bool_decide (prev <= Z.of_nat (length (searchHistory v)))
            then (v, Some (HandleRecentSearchClick (searchHistory v !! Z.to_nat (prev - 1))))
            else (v, None)
        else (v, None)
    | Escape =>
        ({| showHistory := false; isActivelyTyping := isActivelyTyping v;
            cityName := cityName v; searchSuggestions := searchSuggestions v;
            searchHistory := searchHistory v; highlightedIndex := -1 |},
         Some Blur)
    | OtherKey => (v, None)
    end.

(** [s.split(',')[0]] *)
Fixpoint beforeComma (s : string) : string :=
  match s with
  | EmptyString => EmptyString
  | String c s' => if Ascii.eqb c ","%char then EmptyString else String c (beforeComma s')
  end.

(** The term [handleRecentSearchClick(city)] searches for:
    [city.split(',')[0].trim()]. *)
Definition recentSearchTerm (city : string) : string := trim (beforeComma city).

(** [s] holds no comma. *)
Fixpoint commaFree (s : string) : bool :=
  match s with
  | EmptyString => true
  | String c s' => negb (Ascii.eqb c ","%char) && commaFree s'
  end.

(** A dropdown of two recent searches, opened by focus and opened by
    typing one character. *)
Definition focused : View :=
  {| showHistory := true; isActivelyTyping := false; cityName := "";
     searchSuggestions := []; searchHistory := ["Oslo, NO"; "Bergen, NO"];
     highlightedIndex := 1 |}.
Definition typedOne : View :=
  {| showHistory := true; isActivelyTyping := true; cityName := "B";
     searchSuggestions := []; searchHistory := ["Oslo, NO"; "Bergen, NO"];
     highlightedIndex := 1 |}.

End SearchDropdown.

(** ** The weather requests of the client (services/weatherApi.js) *)
Module WeatherClient.
Import WeatherApi.

(** What [fetch(url)] and [response.json()] give for a request whose
    body, when the response is ok, has the shape [A]. *)
Inductive Answer (A : Type) :=
  | FetchFails
  | Ok200 (body : option A)            (* [None]: [response.json()] rejects *)
  | NotOk (status : nat) (message : option string) (statusText : string).
Arguments FetchFails {A}.
Arguments Ok200 {A} body.
Arguments NotOk {A} status message statusText.

(** [requestJson(url, label)], on the answer to its [fetch(url)]. *)
Definition requestJson {A} (answer : Answer A) (label : string) : result A :=
  match answer with
  | FetchFails => throw FetchRejected
  | Ok200 None => throw FetchRejected
  | Ok200 (Some data) => ok data
  | NotOk status message statusText =>
      if decide (status = 401%nat) then throw Api401
      else throw (ApiStatus label status
                    (match message with
                     | Some m => if decide (m = "") then statusText else m
                     | None => statusText
                     end))
  end.

(** The body of the current-weather endpoint, by the members the client
    reads. *)
Record MainReadings := {
  m_temp : float; m_feels_like : Q; m_pressure : Q; m_humidity : float
}.
Record CurrentData := {
  cd_dt : Z;
  cd_main : MainReadings;
  cd_clouds_all : option Q;            (* [clouds?.all] *)
  cd_visibility : option Q;
  cd_wind_speed : option Q;            (* [wind?.speed] *)
  cd_wind_deg : option Q;              (* [wind?.deg] *)
  cd_weather : list WeatherItem;
  cd_rain : option Q;
  cd_sunrise : option Z;               (* [sys?.sunrise] *)
  cd_sunset : option Z                 (* [sys?.sunset] *)
}.

(** The body of the forecast endpoint. *)
Record ForecastData := { fd_list : option (list ForecastEntry) }.

(** The [current] member of what [getWeatherData] returns. *)
Record Current := {
  w_dt : Z; w_temp : float; w_feels_like : Q; w_pressure : Q; w_humidity : float;
  w_dew_point : float; w_uvi : Q; w_clouds : Q; w_visibility : Q;
  w_wind_speed : Q; w_wind_deg : Q;
  w_weather : list WeatherItem;
  w_rain : option Q;
  w_sunrise : option Z; w_sunset : option Z
}.

Record WeatherData := {
  wd_current : Current;
  wd_daily : list ForecastEntry;
  wd_hourly : list ForecastEntry
}.

(** What [getWeatherByCity] and [getWeatherByCoordinates] return. *)
Record CityWeather := { cw_location : GeoLocation; cw_weather : WeatherData }.

(** The [locationInfo] argument of [getWeatherByCoordinates]. *)
Record LocationInfo := {
  info_name : string; info_country : string; info_state : option string
}.

(** [x || 0] *)
Definition orZero (x : option Q) : Q :=
  match JS.js_or x (Some 0%Q) with Some v => v | None => 0%Q end.

(** [x || null] *)
Definition orNull (x : option Z) : option Z :=
  match x with
  | Some v => if decide (v = 0) then None else Some v
  | None => None
  end.

(** The requests sent, by the parts of their URLs. *)
Inductive Sent :=
  | SentGeocode (url : Request)
  | SentCurrent (lat lon : Q) (appid : string)
  | SentForecast (lat lon : Q) (appid : string).

(** A call of the client: what it returns or throws, and the requests it
    sent, in order. *)
Definition Traced (A : Type) : Type := (result A * list Sent)%type.

(** The object [getWeatherData] builds from the two bodies. *)
Definition buildWeatherData (currentData : CurrentData) (forecastData : ForecastData)
  : WeatherData :=
  {| wd_current :=
       {| w_dt := cd_dt currentData;
          w_temp := m_temp (cd_main currentData);
          w_feels_like := m_feels_like (cd_main currentData);
          w_pressure := m_pressure (cd_main currentData);
          w_humidity := m_humidity (cd_main currentData);
          w_dew_point := (m_temp (cd_main currentData)
                          - (100 - m_humidity (cd_main currentData)) / 5)%float;
          w_uvi := 0%Q;
          w_clouds := orZero (cd_clouds_all currentData);
          w_visibility := orZero (cd_visibility currentData);
          w_wind_speed := orZero (cd_wind_speed currentData);
          w_wind_deg := orZero (cd_wind_deg currentData);
          w_weather := cd_weather currentData;
          w_rain := cd_rain currentData;
          w_sunrise := orNull (cd_sunrise currentData);
          w_sunset := orNull (cd_sunset currentData) |};
     wd_daily := default [] (fd_list forecastData);
     wd_hourly := default [] (take 24 <$> fd_list forecastData) |}.

Section client.
Variable API_KEY : string.
Variable fetch : Request → Response.                 (* the geocoding endpoint *)
Variable fetchCurrent : Q → Q → Answer CurrentData.  (* the current-weather endpoint *)
Variable fetchForecast : Q → Q → Answer ForecastData.
(** When both requests of [getWeatherData] fail, whether the forecast's
    failure comes first. *)
Variable forecastSettlesFirst : bool.

Definition getCoordinatesFromCity (cityName : string) : Traced GeoLocation :=
  match ensureApiKey API_KEY with
  | inr e => (throw e, [])
  | inl _ =>
      let url := {| q := cityName; limit := 1; appid := API_KEY |} in
      ((let* data := WeatherApi.requestJson fetch url "Geocoding API" in
        match data with
        | None | Some [] => throw (CityNotFound cityName)
        | Some (location :: _) =>
            ok {| lat := lat location; lon := lon location; name := name location;
                  country := country location; state := state location |}
        end)%result,
       [SentGeocode url])
  end.

Definition getCurrentWeather (lat lon : Q) : Traced CurrentData :=
  match ensureApiKey API_KEY with
  | inr e => (throw e, [])
  | inl _ => (requestJson (fetchCurrent lat lon) "Current Weather API",
              [SentCurrent lat lon API_KEY])
  end.

Definition getForecast (lat lon : Q) : Traced ForecastData :=
  match ensureApiKey API_KEY with
  | inr e => (throw e, [])
  | inl _ => (requestJson (fetchForecast lat lon) "Forecast API",
              [SentForecast lat lon API_KEY])
  end.

(** [await Promise.all([a, b])] on two calls that have both been started:
    both results, or the failure that comes first. *)
Definition promiseAll {A B} (a : result A) (b : result B) : result (A * B) :=
  match a, b with
  | inl x, inl y => ok (x, y)
  | inr e, inl _ => throw e
  | inl _, inr e => throw e
  | inr ea, inr eb => if forecastSettlesFirst then throw eb else throw ea
  end.

Definition getWeatherData (lat lon : Q) : Traced WeatherData :=
  let current := getCurrentWeather lat lon in
  let forecast := getForecast lat lon in
  ((let* both := promiseAll (fst current) (fst forecast) in
    ok (buildWeatherData (fst both) (snd both)))%result,
   snd current ++ snd forecast).

Definition getWeatherByCity (cityName : string) : Traced CityWeather :=
  match getCoordinatesFromCity cityName with
  | (inr e, sent) => (throw e, sent)
  | (inl location, sent) =>
      match getWeatherData (lat location) (lon location) with
      | (inr e, sent') => (throw e, sent ++ sent')
      | (inl weatherData, sent') =>
          (ok {| cw_location := location; cw_weather := weatherData |}, sent ++ sent')
      end
  end.

Definition getWeatherByCoordinates (lat lon : Q) (locationInfo : LocationInfo)
  : Traced CityWeather :=
  match getWeatherData lat lon with
  | (inr e, sent) => (throw e, sent)
  | (inl weatherData, sent) =>
      (ok {| cw_location := {| lat := lat; lon := lon; name := info_name locationInfo;
                               country := info_country locationInfo;
                               state := info_state locationInfo |};
             cw_weather := weatherData |}, sent)
  end.

(** The call [handleSuggestionClick] makes for a suggestion. *)
Definition weatherOfSuggestion (suggestion : City) : Traced CityWeather :=
  getWeatherByCoordinates (c_lat suggestion) (c_lon suggestion)
    {| info_name := c_name suggestion; info_country := c_country suggestion;
       info_state := c_state suggestion |}.

End client.

(** [locationName] of the weather page. *)
Definition locationName (weatherData : option CityWeather) : option string :=
  match weatherData with
  | None => None
  | Some data =>
      let location := cw_location data in
      Some (name location +:+
            (match state location with
             | Some s => if decide (s = "") then "" else ", " +:+ s
             | None => ""
             end) +:+ ", " +:+ country location)
  end.

(** The part of the data the weather page's views read. *)
Definition toRecord (weatherData : WeatherData) : WeatherRecord :=
  {| current := Some {| cur_dt := w_dt (wd_current weatherData);
                        cur_temp := w_temp (wd_current weatherData);
                        cur_weather := w_weather (wd_current weatherData);
                        rain := w_rain (wd_current weatherData) |};
     daily := Some (wd_daily weatherData) |}.

(** A call sent no request to the weather endpoints. *)
Definition geocodeOnly (sent : list Sent) : Prop :=
  Forall (λ s, match s with SentGeocode _ => True | _ => False end) sent.

End WeatherClient.

(** ** The cards of the stations page (pages/Stations.jsx) *)
Module StationsPage.
Import WeatherApi WeatherClient.

(** A JavaScript Number, where a computation can leave the rationals. *)
Inductive Number := Finite (x : Q) | PlusInfinity | MinusInfinity | NaN.

(** [Math.min(...xs)] and [Math.max(...xs)] on any argument list; an
    [undefined] among the arguments gives [NaN]. *)
Definition Math_min_spread (xs : list (option Q)) : Number :=
  match mapM (λ x, x) xs with
  | None => NaN
  | Some [] => PlusInfinity
  | Some (x :: rest) => Finite (JS.Math_min x rest)
  end.

Definition Math_max_spread (xs : list (option Q)) : Number :=
  match mapM (λ x, x) xs with
  | None => NaN
  | Some [] => MinusInfinity
  | Some (x :: rest) => Finite (JS.Math_max x rest)
  end.

(** [forecasts.map(f => f.main.<field>)]; [None] when some [f.main] is
    [undefined] and the access throws. *)
Definition readings (field : Main → option Q) (forecasts : list ForecastEntry)
  : option (list (option Q)) :=
  mapM (λ f, field <$> main f) forecasts.

(** What [fetchCityWeather] returns for a card. *)
Record CardWeather := {
  card_temp : float;
  card_temp_min : Number;
  card_temp_max : Number;
  card_weather : list WeatherItem
}.

Section page.
Variable API_KEY : string.
Variable fetchCurrent : Q → Q → Answer CurrentData.
Variable fetchForecast : Q → Q → Answer ForecastData.
Variable forecastSettlesFirst : bool.

(** [fetchCityWeather(city)]; [None] is the [null] of its [catch]. *)
Definition fetchCityWeather (lat lon : Q) : option CardWeather * list Sent :=
  match getWeatherData API_KEY fetchCurrent fetchForecast forecastSettlesFirst lat lon with
  | (inr _, sent) => (None, sent)
  | (inl data, sent) =>
      let todayForecasts := take 8 (wd_daily data) in
      (mins ← readings temp_min todayForecasts;
       maxs ← readings temp_max todayForecasts;
       Some {| card_temp := w_temp (wd_current data);
               card_temp_min := Math_min_spread mins;
               card_temp_max := Math_max_spread maxs;
               card_weather := w_weather (wd_current data) |},
       sent)
  end.

End page.
End StationsPage.

(** ** Sample answers of the weather endpoints *)
Module ClientSamples.
Import WeatherApi WeatherClient.

Definition osloPlace : GeoLocation :=
  {| lat := 5991 # 100; lon := 1075 # 100; name := "Oslo"; country := "NO";
     state := None |}.

Definition mild : CurrentData :=
  {| cd_dt := Samples.monday + 43000;
     cd_main := {| m_temp := 15; m_feels_like := 14; m_pressure := 1013;
                   m_humidity := 80 |};
     cd_clouds_all := Some 40%Q; cd_visibility := Some 10000%Q;
     cd_wind_speed := Some 3%Q; cd_wind_deg := None;
     cd_weather := [{| icon := "02d"; description := "few clouds" |}];
     cd_rain := None; cd_sunrise := Some 1705305600; cd_sunset := Some 1705331700 |}.

(** 7.31 degrees at 88 percent of humidity. *)
Definition chilly : CurrentData :=
  {| cd_dt := Samples.monday + 43000;
     cd_main := {| m_temp := 7.31; m_feels_like := 5; m_pressure := 1004;
                   m_humidity := 88 |};
     cd_clouds_all := Some 90%Q; cd_visibility := Some 8000%Q;
     cd_wind_speed := Some 6%Q; cd_wind_deg := Some 270%Q;
     cd_weather := [{| icon := "04d"; description := "overcast clouds" |}];
     cd_rain := None; cd_sunrise := Some 1705305600; cd_sunset := Some 1705331700 |}.

Definition threeHourly : ForecastData := {| fd_list := Some Samples.threeEntries |}.

(** Both endpoints answer. *)
Definition fetchCurrent (lat lon : Q) : Answer CurrentData := Ok200 (Some mild).
Definition fetchForecast (lat lon : Q) : Answer ForecastData := Ok200 (Some threeHourly).

(** The forecast endpoint answers with an empty list. *)
Definition fetchNoForecast (lat lon : Q) : Answer ForecastData :=
  Ok200 (Some {| fd_list := Some [] |}).

(** Forecast entries with the day's range in [main]. *)
Definition ranged (lo hi : Q) : ForecastEntry :=
  {| dt := Samples.monday; 
     main := Some {| main_temp := Some lo; temp_min := Some lo; temp_max := Some hi |};
     temp := None; weather := []; pop := None |}.
Definition fetchRanged (lat lon : Q) : Answer ForecastData :=
  Ok200 (Some {| fd_list := Some [ranged 3 5; ranged 1 4; ranged 2 8] |}).

Definition osloWeather : CityWeather :=
  {| cw_location := osloPlace; cw_weather := buildWeatherData mild threeHourly |}.

End ClientSamples.

(** ** Searching on the weather page (pages/Weather.jsx) *)
Module WeatherSearch.
Import WeatherApi WeatherClient.

(** The storage of the browser: the two keys of [LocalStorage.t] and the
    key "weather-current-data" with the last data shown. *)
Record Browser := {
  local : LocalStorage.t;
  weather_current_data : LocalStorage.item CityWeather
}.

(** [localStorage.setItem(CURRENT_WEATHER_KEY, JSON.stringify(data))] *)
Definition setCurrentWeather (data : CityWeather) (b : Browser) : result unit * Browser :=
  let counted :=
    {| LocalStorage.favorite_cities := LocalStorage.favorite_cities (local b);
       LocalStorage.weather_search_history := LocalStorage.weather_search_history (local b);
       LocalStorage.quotaExceeded := LocalStorage.quotaExceeded (local b);
       LocalStorage.setItemCalls := S (LocalStorage.setItemCalls (local b)) |} in
  if LocalStorage.quotaExceeded (local b)
  then (throw QuotaExceeded,
        {| local := counted; weather_current_data := weather_current_data b |})
  else (ok (), {| local := counted; weather_current_data := LocalStorage.Doc data |}).

(** [parseJSONSafely(localStorage.getItem(CURRENT_WEATHER_KEY))] *)
Definition readSavedWeather (b : Browser) : option CityWeather :=
  match weather_current_data b with
  | LocalStorage.Doc saved => Some saved
  | LocalStorage.Absent | LocalStorage.Garbled => None
  end.

(** The state of the page the search handlers read and write. *)
Record Page := {
  cityName : string;
  loading : bool;
  error : option string;
  weatherData : option CityWeather;
  searchHistory : list string;
  showHistory : bool;
  isActivelyTyping : bool;
  browser : Browser
}.

Definition setCityName (x : string) (p : Page) : Page :=
  {| cityName := x; loading := loading p; error := error p;
     weatherData := weatherData p; searchHistory := searchHistory p;
     showHistory := showHistory p; isActivelyTyping := isActivelyTyping p;
     browser := browser p |}.
Definition setLoading (x : bool) (p : Page) : Page :=
  {| cityName := cityName p; loading := x; error := error p;
     weatherData := weatherData p; searchHistory := searchHistory p;
     showHistory := showHistory p; isActivelyTyping := isActivelyTyping p;
     browser := browser p |}.
Definition setError (x : option string) (p : Page) : Page :=
  {| cityName := cityName p; loading := loading p; error := x;
     weatherData := weatherData p; searchHistory := searchHistory p;
     showHistory := showHistory p; isActivelyTyping := isActivelyTyping p;
     browser := browser p |}.
Definition setWeatherData (x : option CityWeather) (p : Page) : Page :=
  {| cityName := cityName p; loading := loading p; error := error p;
     weatherData := x; searchHistory := searchHistory p;
     showHistory := showHistory p; isActivelyTyping := isActivelyTyping p;
     browser := browser p |}.
Definition setSearchHistory (x : list string) (p : Page) : Page :=
  {| cityName := cityName p; loading := loading p; error := error p;
     weatherData := weatherData p; searchHistory := x;
     showHistory := showHistory p; isActivelyTyping := isActivelyTyping p;
     browser := browser p |}.
Definition setShowHistory (x : bool) (p : Page) : Page :=
  {| cityName := cityName p; loading := loading p; error := error p;
     weatherData := weatherData p; searchHistory := searchHistory p;
     showHistory := x; isActivelyTyping := isActivelyTyping p;
     browser := browser p |}.
Definition setIsActivelyTyping (x : bool) (p : Page) : Page :=
  {| cityName := cityName p; loading := loading p; error := error p;
     weatherData := weatherData p; searchHistory := searchHistory p;
     showHistory := showHistory p; isActivelyTyping := x;
     browser := browser p |}.
Definition setBrowser (x : Browser) (p : Page) : Page :=
  {| cityName := cityName p; loading := loading p; error := error p;
     weatherData := weatherData p; searchHistory := searchHistory p;
     showHistory := showHistory p; isActivelyTyping := isActivelyTyping p;
     browser := x |}.

(** [addToSearchHistory(cityData)], on the page's state and storage. *)
Definition addToSearchHistory (cityData : CityWeather) (p : Page) : result unit * Page :=
  let '(r, s) :=
    SearchHistory.addToSearchHistory (cw_location cityData)
      {| SearchHistory.searchHistory := searchHistory p;
         SearchHistory.storage := local (browser p) |} in
  (r, setBrowser {| local := SearchHistory.storage s;
                    weather_current_data := weather_current_data (browser p) |}
        (setSearchHistory (SearchHistory.searchHistory s) p)).

(** [applyWeatherData(data, { persist, saveHistory })] *)
Definition applyWeatherData (data : CityWeather) (persist saveHistory : bool) (p : Page)
  : result unit * Page :=
  let p1 := setCityName (name (cw_location data)) (setWeatherData (Some data) p) in
  let '(r2, p2) :=
    if persist then
      let '(r, b) := setCurrentWeather data (browser p1) in (r, setBrowser b p1)
    else (ok (), p1) in
  match r2 with
  | inr e => (throw e, p2)
  | inl _ => if saveHistory then addToSearchHistory data p2 else (ok (), p2)
  end.

Section page.
Variable API_KEY : string.
Variable fetch : Request → Response.
Variable fetchCurrent : Q → Q → Answer CurrentData.
Variable fetchForecast : Q → Q → Answer ForecastData.
Variable forecastSettlesFirst : bool.

Local Abbreviation getWeatherByCity :=
  (getWeatherByCity API_KEY fetch fetchCurrent fetchForecast forecastSettlesFirst).

(** [searchTerm || cityName.trim()] *)
Definition termOf (searchTerm : option string) (p : Page) : string :=
  match searchTerm with
  | Some t => if decide (t = "") then trim (cityName p) else t
  | None => trim (cityName p)
  end.

(** The body of [handleSearch] below the line that computes [term]: the
    page once the handler has run to its end, and the requests sent.
    The state updates are made on [p]. *)
Definition searchFor (term : string) (p : Page) : Page * list Sent :=
  if decide (term = "") then (p, [])
  else
    let p1 := setIsActivelyTyping false
                (setShowHistory false (setError None (setLoading true p))) in
    match getWeatherByCity term with
    | (inl data, sent) =>
        match applyWeatherData data true true p1 with
        | (inl _, p2) => (setLoading false p2, sent)
        | (inr err, p2) => (setLoading false (setError (Some (messageOf err)) p2), sent)
        end
    | (inr err, sent) => (setLoading false (setError (Some (messageOf err)) p1), sent)
    end.

(** [handleSearch(e, searchTerm)] *)
Definition handleSearch (searchTerm : option string) (p : Page) : Page * list Sent :=
  searchFor (termOf searchTerm p) p.

(** [handleRecentSearchClick(city)].  The [handleSearch] it calls is the
    one of the current render: it reads the [cityName] of [p], the text
    before [setCityName] takes effect, while its state updates follow
    that of [setCityName]. *)
Definition handleRecentSearchClick (city : string) (p : Page) : Page * list Sent :=
  let cityName := SearchDropdown.recentSearchTerm city in
  searchFor (termOf (Some cityName) p) (setCityName cityName p).

(** [loadInitialData()], while the page is mounted. *)
Definition loadInitialData (p : Page) : Page * list Sent :=
  let savedHistory := SearchHistory.readHistoryFromStorage (local (browser p)) in
  let p1 := setSearchHistory savedHistory p in
  match readSavedWeather (browser p1) with
  | Some savedWeather => (snd (applyWeatherData savedWeather false false p1), [])
  | None =>
      let p2 := setLoading true p1 in
      match getWeatherByCity "New York" with
      | (inl data, sent) =>
          match applyWeatherData data true true p2 with
          | (inl _, p3) => (setLoading false p3, sent)
          | (inr _, p3) =>
              (setLoading false (setError (Some "Failed to load default weather") p3), sent)
          end
      | (inr _, sent) =>
          (setLoading false (setError (Some "Failed to load default weather") p2), sent)
      end
  end.

End page.

(** The page as it is mounted over a storage: the initial values of its
    [useState] calls. *)
Definition mounted (b : Browser) : Page :=
  {| cityName := ""; loading := false; error := None; weatherData := None;
     searchHistory := []; showHistory := false; isActivelyTyping := false;
     browser := b |}.

(** A browser with nothing stored, and the page mounted over it with
    " Oslo " typed. *)
Definition emptyBrowser : Browser :=
  {| local := LocalStorage.empty; weather_current_data := LocalStorage.Absent |}.
Definition typing : Page := setCityName " Oslo " (mounted emptyBrowser).

(** A geocoding endpoint that knows Oslo alone. *)
Definition knowsOslo (url : Request) : Response :=
  if decide (q url = "Oslo") then HttpOk (JsonArray [ClientSamples.osloPlace])
  else HttpOk (JsonArray []).

End WeatherSearch.

(** * Properties *)

(** ** The weather data client *)
Module WeatherApiFacts.
Import WeatherApi.

Lemma ensureApiKey_absent : ensureApiKey "" = throw ApiKeyMissing.
Proof. reflexivity. Qed.

Lemma ensureApiKey_present key : key ≠ "" → ensureApiKey key = ok ().
Proof. intros Hkey. unfold ensureApiKey. by destruct (decide (key = "")). Qed.

(** With a credential, [searchCities] never throws: a failure of the
    request is answered by the empty list. *)
Lemma searchCities_swallows key fetch query limit :
  key ≠ "" → ∃ cities, searchCities key fetch query limit = ok cities.
Proof.
  intros Hkey. unfold searchCities. rewrite (ensureApiKey_present _ Hkey). simpl.
  destruct (bool_decide (query = "") || _); [by eexists|].
  destruct (requestJson _ _ _); simpl; by eexists.
Qed.

(** C1, as stated, fails: without a credential [searchCities "London" 5]
    does not return the empty list, whatever the network would answer. *)
Lemma searchCities_without_key_not_empty :
  searchCities "" (λ _, HttpOk (JsonArray [])) "London" 5 ≠ ok [].
Proof. discriminate. Qed.

(** C1 (amended): without a credential [searchCities] throws the
    credential-missing error for every query and limit, before the query
    is looked at and before any request; the suggestion search still ends
    with an empty list, because the debounce callback that calls it
    catches the error and stores [[]]. *)
Theorem searchCities_no_key fetch query limit :
  searchCities "" fetch query limit = throw ApiKeyMissing
  ∧ fetchedSuggestions "" fetch query limit = [].
Proof. split; reflexivity. Qed.

End WeatherApiFacts.

(** ** Favourite cities *)
Module FavoritesFacts.
Import WeatherApi Favorites.

(** The filter keeps the whole list exactly when every element passes. *)
Lemma length_filter_all {A} (P : A → Prop) `{∀ x, Decision (P x)} (l : list A) :
  length (filter P l) = length l ↔ Forall P l.
Proof.
  induction l as [|x l IH].
  - split; [constructor | reflexivity].
  - rewrite filter_cons. destruct (decide (P x)) as [HP | HP]; simpl.
    + rewrite Forall_cons. split.
      * intros Hlen. split; [done | apply IH; lia].
      * intros [_ Hall]. f_equal. by apply IH.
    + split.
      * intros Hlen. pose proof (length_filter P l). lia.
      * intros Hall. apply Forall_cons in Hall as [? _]. done.
Qed.

Lemma saveFavoriteCities_ok cities st :
  LocalStorage.quotaExceeded st = false →
  saveFavoriteCities cities st = (ok (), written cities st).
Proof.
  intros Hq. unfold saveFavoriteCities, LocalStorage.setFavorites, written.
  by rewrite Hq.
Qed.

Lemma saveFavoriteCities_full cities st :
  LocalStorage.quotaExceeded st = true →
  fst (saveFavoriteCities cities st) = throw SaveFailed
  ∧ getFavoriteCities (snd (saveFavoriteCities cities st)) = getFavoriteCities st.
Proof.
  intros Hq. unfold saveFavoriteCities, LocalStorage.setFavorites. by rewrite Hq.
Qed.

(** What a write leaves as the favourites: the new list or the old one. *)
Lemma saveFavoriteCities_favorites cities st :
  getFavoriteCities (snd (saveFavoriteCities cities st)) = cities
  ∨ getFavoriteCities (snd (saveFavoriteCities cities st)) = getFavoriteCities st.
Proof.
  unfold saveFavoriteCities, LocalStorage.setFavorites.
  destruct (LocalStorage.quotaExceeded st); simpl; auto.
Qed.

(** C10: when no favourite has the id, [removeFavoriteCity] throws 'City
    not found in favorites' and the storage is left as it was (no write
    is made); when some favourite has it, the list handed to the storage
    is the stored list without the entries of that id, the others kept in
    their order, and once written it is the persisted list. *)
Theorem removeFavoriteCity_spec (cityId : string) (st : LocalStorage.t) :
  let favorites := getFavoriteCities st in
  let kept := filter (λ fav, id fav ≠ cityId) favorites in
  ((∀ fav, fav ∈ favorites → id fav ≠ cityId) →
     removeFavoriteCity cityId st = (throw NotInFavorites, st))
  ∧ ((∃ fav, fav ∈ favorites ∧ id fav = cityId) →
     removeFavoriteCity cityId st = saveFavoriteCities kept st
     ∧ kept `sublist_of` favorites
     ∧ (∀ fav, fav ∈ kept ↔ fav ∈ favorites ∧ id fav ≠ cityId)
     ∧ (LocalStorage.quotaExceeded st = false →
        fst (removeFavoriteCity cityId st) = ok ()
        ∧ getFavoriteCities (snd (removeFavoriteCity cityId st)) = kept)).
Proof.
  intros favorites kept. unfold removeFavoriteCity. fold favorites. fold kept.
  split.
  - intros Hnone.
    destruct (decide (length kept = length favorites)) as [_ | Hne]; [done|].
    exfalso. apply Hne. apply length_filter_all. by apply Forall_forall.
  - intros (fav & Hin & Hid).
    destruct (decide (length kept = length favorites)) as [Heq | _].
    + apply length_filter_all in Heq. rewrite Forall_forall in Heq.
      by destruct (Heq fav Hin).
    + split; [done|]. split; [apply sublist_filter|]. split.
      * intros fav'. unfold kept. rewrite list_elem_of_filter. tauto.
      * intros Hq. by rewrite (saveFavoriteCities_ok _ _ Hq).
Qed.

Lemma coords_eq a b : coords a = coords b ↔ sameLatLon a b.
Proof.
  unfold coords, sameLatLon. split.
  - intros [= Hlat Hlon]. split; by apply Qred_eq_iff.
  - intros [Hlat Hlon]. f_equal; by apply Qred_complete.
Qed.

Lemma distinctCoords_NoDup l : distinctCoords l ↔ NoDup (coords <$> l).
Proof.
  rewrite NoDup_alt. unfold distinctCoords. split.
  - intros Hd i j x Hi Hj.
    rewrite list_lookup_fmap in Hi, Hj.
    destruct (l !! i) as [a|] eqn:Ha; [|done].
    destruct (l !! j) as [b|] eqn:Hb; [|done].
    simpl in *. apply (Hd i j a b Ha Hb). apply coords_eq. congruence.
  - intros Hn i j a b Ha Hb Hsame.
    apply (Hn i j (coords a)); rewrite list_lookup_fmap.
    + by rewrite Ha.
    + rewrite Hb. simpl. f_equal. symmetry. by apply coords_eq.
Qed.

Lemma sameCoords_spec cityData fav newId timestamp :
  sameCoords cityData fav = true
  ↔ sameLatLon fav {| id := newId; city := cityData; addedAt := timestamp |}.
Proof.
  unfold sameCoords, sameLatLon. simpl.
  rewrite andb_true_iff, !Qeq_bool_iff. done.
Qed.

(** A city that is at no stored point can be appended. *)
Lemma distinctCoords_snoc favorites cityData newId timestamp :
  existsb (sameCoords cityData) favorites = false →
  distinctCoords favorites →
  distinctCoords (favorites ++ [{| id := newId; city := cityData; addedAt := timestamp |}]).
Proof.
  intros Hnew Hd. apply distinctCoords_NoDup. rewrite fmap_app.
  apply NoDup_app. split; [by apply distinctCoords_NoDup|]. split.
  - intros x Hx Hx'. apply list_elem_of_fmap in Hx as (fav & -> & Hfav).
    apply list_elem_of_singleton in Hx'. apply coords_eq in Hx'.
    apply sameCoords_spec in Hx'.
    assert (existsb (sameCoords cityData) favorites = true) as Hex; [|congruence].
    apply existsb_exists. exists fav. split; [by apply list_elem_of_In | done].
  - apply NoDup_singleton.
Qed.

Lemma distinctCoords_filter (P : FavoriteCity → Prop) `{∀ x, Decision (P x)} favorites :
  distinctCoords favorites → distinctCoords (filter P favorites).
Proof.
  rewrite !distinctCoords_NoDup. intros Hd.
  eapply sublist_NoDup; [exact Hd|]. apply fmap_sublist, sublist_filter.
Qed.

(** Each call keeps the favourites free of repeated points. *)
Lemma apply_distinctCoords st op :
  distinctCoords (getFavoriteCities st) →
  distinctCoords (getFavoriteCities (apply st op)).
Proof.
  intros Hd. destruct op as [cityData newId timestamp | cityId | ]; simpl.
  - unfold addFavoriteCity.
    destruct (existsb (sameCoords cityData) (getFavoriteCities st)) eqn:Hex; [done|].
    match goal with |- context [saveFavoriteCities ?l st] =>
      pose proof (saveFavoriteCities_favorites l st) as Hsave;
      destruct (saveFavoriteCities l st) as [[[]|e] st'] end;
    simpl in *; destruct Hsave as [-> | ->]; auto using distinctCoords_snoc.
  - unfold removeFavoriteCity.
    destruct (decide _); [done|].
    match goal with |- context [saveFavoriteCities ?l st] =>
      destruct (saveFavoriteCities_favorites l st) as [-> | ->] end;
    auto using distinctCoords_filter.
  - by intros i j a b Ha.
Qed.

Lemma run_distinctCoords ops st :
  distinctCoords (getFavoriteCities st) →
  distinctCoords (getFavoriteCities (run ops st)).
Proof.
  revert st. induction ops as [|op ops IH]; intros st Hd; [done|].
  apply IH, apply_distinctCoords, Hd.
Qed.

(** C6: when a stored favourite is at the point of [cityData],
    [addFavoriteCity] throws 'This city is already in your favorites' and
    leaves the storage as it was; and the favourites never hold two
    entries at one point: a list free of them stays so through every run
    of additions, removals and clearings. *)
Theorem addFavoriteCity_duplicate :
  (∀ st cityData newId timestamp fav,
      fav ∈ getFavoriteCities st →
      (c_lat (city fav) == c_lat cityData)%Q →
      (c_lon (city fav) == c_lon cityData)%Q →
      addFavoriteCity cityData newId timestamp st = (throw AlreadyInFavorites, st))
  ∧ (∀ st ops,
      distinctCoords (getFavoriteCities st) →
      distinctCoords (getFavoriteCities (run ops st))).
Proof.
  split; [|intros st ops; apply run_distinctCoords].
  intros st cityData newId timestamp fav Hin Hlat Hlon. unfold addFavoriteCity.
  assert (existsb (sameCoords cityData) (getFavoriteCities st) = true) as ->; [|done].
  apply existsb_exists. exists fav. split; [by apply list_elem_of_In|].
  unfold sameCoords. by rewrite andb_true_iff, !Qeq_bool_iff.
Qed.

End FavoritesFacts.

(** ** Favourite cities on sample data *)
Module FavoritesExamples.
Import WeatherApi Favorites FavoritesFacts Samples.

(** The theorem of C10 at a storage with two favourites: an unknown id
    is refused, and removing Oslo persists Bergen alone. *)
Lemma removeFavoriteCity_spec_witness :
  removeFavoriteCity "nobody" twoFavorites = (throw NotInFavorites, twoFavorites)
  ∧ fst (removeFavoriteCity (id favOslo) twoFavorites) = ok ()
  ∧ getFavoriteCities (snd (removeFavoriteCity (id favOslo) twoFavorites)) = [favBergen].
Proof.
  split.
  - apply (removeFavoriteCity_spec "nobody" twoFavorites).
    intros fav Hin. apply list_elem_of_In in Hin.
    destruct Hin as [<- | [<- | []]]; discriminate.
  - apply (removeFavoriteCity_spec (id favOslo) twoFavorites); [|reflexivity].
    exists favOslo. split; [left | reflexivity].
Defined.

(** The theorem of C6 at the same storage: Oslo is refused a second
    time, also under another spelling of its coordinates, and a run of
    calls from the empty storage keeps the points distinct. *)
Lemma addFavoriteCity_duplicate_witness :
  addFavoriteCity osloAgain "1700000009999_new" "2023-11-14T22:13:29.999Z" twoFavorites
  = (throw AlreadyInFavorites, twoFavorites)
  ∧ distinctCoords
      (getFavoriteCities
         (run [Add oslo "a" "t1"; Add bergen "b" "t2"; Add oslo "c" "t3"; Remove "a"]
              LocalStorage.empty)).
Proof.
  split.
  - apply (proj1 addFavoriteCity_duplicate) with (fav := favOslo);
      [left | reflexivity | reflexivity].
  - apply (proj2 addFavoriteCity_duplicate).
    intros i j a b Hi. discriminate Hi.
Defined.

End FavoritesExamples.

(** ** Search history *)
Module SearchHistoryFacts.
Import SearchHistory.
Local Open Scope nat_scope.

Lemma newHistory_length x prev : length (newHistory x prev) ≤ MAX_HISTORY_ITEMS.
Proof. unfold newHistory. rewrite length_take. lia. Qed.

Lemma newHistory_head x prev : head (newHistory x prev) = Some x.
Proof. reflexivity. Qed.

Lemma newHistory_NoDup x prev : NoDup prev → NoDup (newHistory x prev).
Proof.
  intros Hprev. unfold newHistory.
  eapply sublist_NoDup; [|apply sublist_take].
  constructor.
  - rewrite list_elem_of_filter. tauto.
  - by apply NoDup_filter.
Qed.

Lemma firstOccurrences_NoDup l : NoDup (firstOccurrences l).
Proof.
  induction l as [|x l IH]; simpl; constructor.
  - rewrite list_elem_of_filter. tauto.
  - by apply NoDup_filter.
Qed.

Lemma firstOccurrences_elem_of l x : x ∈ firstOccurrences l ↔ x ∈ l.
Proof.
  induction l as [|y l IH]; simpl; [done|].
  rewrite !elem_of_cons, list_elem_of_filter, IH.
  destruct (decide (x = y)); tauto.
Qed.

Lemma filter_ne_not_elem_of (x : string) (l : list string) :
  x ∉ l → filter (λ item, item ≠ x) l = l.
Proof.
  induction l as [|y l IH]; [done|].
  rewrite not_elem_of_cons. intros [Hxy Hl].
  rewrite filter_cons_True by done. f_equal. by apply IH.
Qed.

Lemma firstOccurrences_id l : NoDup l → firstOccurrences l = l.
Proof.
  induction 1 as [|x l Hx Hl IH]; simpl; [done|].
  rewrite IH. f_equal. by apply filter_ne_not_elem_of.
Qed.

(** Dropping one string from a duplicate-free list shortens no prefix by
    more than one: the cut before the filter does not show after it. *)
Lemma take_filter_take (x : string) (l : list string) n :
  NoDup l →
  take n (filter (λ item, item ≠ x) (take (S n) l))
  = take n (filter (λ item, item ≠ x) l).
Proof.
  intros Hl. revert n. induction Hl as [|y l Hy Hl IH]; intros n; [done|].
  rewrite firstn_cons. destruct (decide (y = x)) as [-> | Hne].
  - rewrite !filter_cons_False by naive_solver.
    rewrite !filter_ne_not_elem_of; [by rewrite take_take, Nat.min_id | done |].
    intros Hin. apply Hy. rewrite <- (take_drop n l). apply elem_of_app. by left.
  - rewrite !filter_cons_True by done.
    destruct n as [|n]; [done|]. simpl. f_equal. apply IH.
Qed.

Lemma historyAfter_mostRecentFirst added :
  historyAfter added = take MAX_HISTORY_ITEMS (mostRecentFirst added).
Proof.
  unfold historyAfter, mostRecentFirst.
  induction added as [|x added IH] using rev_ind; [done|].
  rewrite foldl_snoc, IH, reverse_snoc. simpl firstOccurrences.
  unfold newHistory, MAX_HISTORY_ITEMS. rewrite !firstn_cons. f_equal.
  apply take_filter_take, firstOccurrences_NoDup.
Qed.

(** While the quota holds, a run of additions goes through, and the state
    and the stored document stay the same list. *)
Lemma addAll_ok locations s :
  LocalStorage.quotaExceeded (storage s) = false →
  ∃ s', addAll locations s = (ok (), s')
        ∧ searchHistory s'
          = foldl (λ prev x, newHistory x prev) (searchHistory s) (cityIdentifier <$> locations)
        ∧ (readHistoryFromStorage (storage s) = searchHistory s →
           readHistoryFromStorage (storage s') = searchHistory s')
        ∧ LocalStorage.quotaExceeded (storage s') = false.
Proof.
  revert s. induction locations as [|location rest IH]; intros s Hq.
  - by exists s.
  - simpl. unfold addToSearchHistory, LocalStorage.setHistory. rewrite Hq. cbn.
    match goal with |- context [addAll rest ?s1] =>
      destruct (IH s1) as (s' & -> & Hh & Hst & Hq') end; [done|].
    exists s'. split; [done|]. split; [done|]. split; [|done].
    intros _. by apply Hst.
Qed.

(** C7: after every run of additions to a fresh history, the stored history
    has at most 5 entries, no string twice, and is the identifiers of the
    run in the order of their latest addition, newest first, cut to 5; one
    addition drops the prior occurrences of its string, puts it first and
    cuts to 5; when the added identifiers are distinct the history is the
    last 5 of them, newest first. *)
Theorem search_history_invariant (locations : list WeatherApi.GeoLocation) :
  let added := cityIdentifier <$> locations in
  let s := snd (addAll locations initial) in
  let stored := readHistoryFromStorage (storage s) in
  fst (addAll locations initial) = ok ()
  ∧ stored = searchHistory s
  ∧ length stored ≤ 5
  ∧ NoDup stored
  ∧ stored = take 5 (mostRecentFirst added)
  ∧ (∀ location,
       searchHistory (snd (addToSearchHistory location s))
       = take 5 (cityIdentifier location
                   :: filter (λ item, item ≠ cityIdentifier location) stored))
  ∧ (NoDup added → stored = take 5 (reverse added)).
Proof.
  intros added s stored. subst s stored.
  destruct (addAll_ok locations initial) as (s' & Heq & Hh & Hst & Hq); [done|].
  rewrite Heq. simpl. specialize (Hst eq_refl). rewrite Hst.
  assert (searchHistory s' = take 5 (mostRecentFirst added)) as Hrecent.
  { rewrite Hh. apply historyAfter_mostRecentFirst. }
  split; [done|]. split; [done|]. split; [|split; [|split; [done|split]]].
  - rewrite Hrecent, length_take. lia.
  - rewrite Hrecent. eapply sublist_NoDup; [|apply sublist_take].
    apply firstOccurrences_NoDup.
  - intros location. unfold addToSearchHistory, LocalStorage.setHistory.
    by rewrite Hq.
  - intros Hadded. rewrite Hrecent. unfold mostRecentFirst.
    rewrite firstOccurrences_id; [done|]. by rewrite reverse_Permutation.
Qed.

End SearchHistoryFacts.

(** ** Search history on sample data *)
Module SearchHistoryExamples.
Import SearchHistory SearchHistoryFacts Samples.

(** The theorem of C7 at six distinct cities: the first one added is gone,
    the other five are stored newest first. *)
Lemma search_history_invariant_witness :
  SearchHistory.readHistoryFromStorage (storage (snd (addAll sixCities initial)))
  = ["Bodo, NO"; "Tromso, NO"; "Stavanger, NO"; "Trondheim, NO"; "Bergen, NO"].
Proof.
  destruct (search_history_invariant sixCities) as (_ & _ & _ & _ & _ & _ & Hlast).
  apply Hlast. apply (bool_decide_unpack _). vm_compute. exact I.
Defined.

(** Searching a city again moves it to the front and leaves no copy. *)
Example searched_again :
  searchHistory (snd (addAll (place <$> ["Oslo"; "Bergen"; "Oslo"]) initial))
  = ["Oslo, NO"; "Bergen, NO"].
Proof. reflexivity. Qed.

End SearchHistoryExamples.

(** ** Geolocation fallback *)
Module GeolocationFacts.
Import Geolocation.

Section device.
Context (requestPosition : nat → PositionOptions → Outcome) (API_KEY : string)
  (reverse : Q → Q → ReverseAnswer) {WeatherData : Type}
  (getWeatherByCoordinates : Q → Q → LocationInfo → result WeatherData).

Local Abbreviation locateAndFetch :=
  (locateAndFetch requestPosition API_KEY reverse WeatherData getWeatherByCoordinates).
Local Abbreviation handleCurrentLocation :=
  (handleCurrentLocation true requestPosition API_KEY reverse WeatherData
     getWeatherByCoordinates).
Local Abbreviation resolveInfo := (resolveInfo API_KEY reverse).
Local Abbreviation fetchedAt :=
  (fetchedAt API_KEY reverse WeatherData getWeatherByCoordinates).
Local Abbreviation failedWith :=
  (failedWith requestPosition API_KEY reverse WeatherData getWeatherByCoordinates).

(** C9: the handler asks the device with the low-accuracy options first
    and only when that gives no position with the high-accuracy options; at
    the first position it stops asking and requests the weather at that
    position's coordinates; when neither attempt gives a position it throws
    the error of the last attempt that failed, or the generic error when no
    attempt failed with one. *)
Theorem handleCurrentLocation_attempts (v : View WeatherData) :
  let v' := fst (handleCurrentLocation v) in
  let made := snd (handleCurrentLocation v) in
  geolocationAttempts
  = [ {| enableHighAccuracy := false; timeout := 10000; maximumAge := 300000 |};
      {| enableHighAccuracy := true; timeout := 20000; maximumAge := 0 |} ]
  ∧ match requestPosition 0 lowAccuracy, requestPosition 1 highAccuracy with
    | Resolved (Some coords), _ =>
        ∃ rest, made = GetCurrentPosition lowAccuracy :: rest
                ∧ fetchedAt coords v v' rest
    | _, Resolved (Some coords) =>
        ∃ rest, made = GetCurrentPosition lowAccuracy
                         :: GetCurrentPosition highAccuracy :: rest
                ∧ fetchedAt coords v v' rest
    | _, Rejected lastError =>
        made = [GetCurrentPosition lowAccuracy; GetCurrentPosition highAccuracy]
        ∧ failedWith (DeviceError lastError) v v'
    | Rejected lastError, Resolved None =>
        made = [GetCurrentPosition lowAccuracy; GetCurrentPosition highAccuracy]
        ∧ failedWith (DeviceError lastError) v v'
    | Resolved None, Resolved None =>
        made = [GetCurrentPosition lowAccuracy; GetCurrentPosition highAccuracy]
        ∧ failedWith (NewError "Unable to determine location after multiple attempts") v v'
    end.
Proof.
  intros v' made. split; [reflexivity|]. subst v' made.
  unfold Geolocation.failedWith, Geolocation.fetchedAt, Geolocation.handleCurrentLocation,
    Geolocation.locateAndFetch, geolocationAttempts.
  fold lowAccuracy highAccuracy. simpl.
  destruct (requestPosition 0%nat lowAccuracy) as [[c1|]|e1];
    destruct (requestPosition 1%nat highAccuracy) as [[c2|]|e2]; simpl;
    repeat match goal with
      | |- context [Geolocation.resolveInfo ?k ?r ?a ?b] =>
          destruct (Geolocation.resolveInfo k r a b) as [info eff] eqn:Hinfo; simpl
      | |- context [getWeatherByCoordinates ?a ?b ?i] =>
          destruct (getWeatherByCoordinates a b i) as [data|e] eqn:Hget; simpl
      end;
    try (eexists; split; [reflexivity|]); rewrite ?Hget; auto.
Qed.

End device.
End GeolocationFacts.

(** The scenario of the geolocation fallback: the quick attempt times out,
    the precise one gives a position. *)
Module GeolocationExamples.
Import Geolocation GeolocationFacts Samples.

(** The theorem of C9 at that device, without a credential for the reverse
    geocoding: both configurations are tried in order and the weather is
    requested at (51.5, -0.12). *)
Lemma handleCurrentLocation_attempts_witness :
  snd (handleCurrentLocation true slowDevice "" (λ _ _, ReverseFailed) unit
         (λ _ _ _, ok ()) blank)
  = [GetCurrentPosition lowAccuracy; GetCurrentPosition highAccuracy;
     GetWeatherByCoordinates (515 # 10) (-12 # 100) defaultInfo].
Proof.
  destruct (handleCurrentLocation_attempts slowDevice "" (λ _ _, ReverseFailed)
              (λ _ _ _, ok ()) blank) as [_ (rest & Hmade & Hrest & _)].
  rewrite Hmade, Hrest. reflexivity.
Defined.

(** Both attempts fail: the error shown is that of the second attempt. *)
Example both_attempts_fail :
  error (fst (handleCurrentLocation true
                (λ n _, Rejected {| code := Z.of_nat n + 2; message := "" |})
                "" (λ _ _, ReverseFailed) unit (λ _ _ _, ok ()) blank))
  = Some "Location request timed out. Your device may be having trouble determining location. Try searching for your city manually.".
Proof. reflexivity. Qed.

End GeolocationExamples.

(** ** Debounced suggestion search *)
Module SuggestionSearchFacts.
Import WeatherApi SuggestionSearch.
Local Open Scope nat_scope.

Lemma foldl_fire ready p :
  let p' := foldl (λ p t, fire t p) p ready in
  now p' = now p ∧ nextTimerId p' = nextTimerId p ∧ timers p' = timers p
  ∧ debounceTimerRef p' = debounceTimerRef p
  ∧ issued p' = issued p ++ (toCall <$> ready).
Proof.
  revert p. induction ready as [|t ready IH]; intros p; simpl.
  - by rewrite app_nil_r.
  - destruct (IH (fire t p)) as (-> & -> & -> & -> & ->). simpl.
    by rewrite <- app_assoc.
Qed.

(** The calls an [elapse] adds are those of timers that were active and due. *)
Lemma elapse_spec d p :
  let p' := elapse d p in
  now p' = now p + d ∧ nextTimerId p' = nextTimerId p
  ∧ timers p' = filter (λ t, ¬ due (now p + d) t) (timers p)
  ∧ debounceTimerRef p' = debounceTimerRef p
  ∧ ∀ c, c ∈ issued p' ↔
         c ∈ issued p ∨ ∃ t, t ∈ timers p ∧ due (now p + d) t ∧ c = toCall t.
Proof.
  unfold elapse.
  match goal with |- context [foldl _ ?p0 ?ready] =>
    destruct (foldl_fire ready p0) as (-> & -> & -> & -> & ->) end.
  simpl. repeat split; try done.
  - rewrite elem_of_app, list_elem_of_fmap. intros [? | (t & -> & Ht)]; [by left|].
    right. exists t. rewrite merge_sort_Permutation in Ht.
    apply list_elem_of_filter in Ht as [? ?]. done.
  - rewrite elem_of_app, list_elem_of_fmap. intros [? | (t & Ht & Hdue & ->)]; [by left|].
    right. exists t. split; [done|]. rewrite merge_sort_Permutation.
    by apply list_elem_of_filter.
Qed.

(** A keystroke first cancels whatever timer is active. *)
Lemma keystroke_cancels p :
  Inv p →
  timers (match debounceTimerRef p with Some i => clearTimeout i p | None => p end) = [].
Proof.
  intros [Href _ _ _]. destruct (debounceTimerRef p) as [i|] eqn:Hi; simpl.
  - apply elem_of_nil_inv. intros t [Hne Ht]%list_elem_of_filter.
    specialize (Href t Ht). congruence.
  - destruct (timers p) as [|t ts]; [done|].
    specialize (Href t). discriminate Href. left.
Qed.

Lemma cancelled_fields p :
  now (cancelled p) = now p ∧ nextTimerId (cancelled p) = nextTimerId p
  ∧ debounceTimerRef (cancelled p) = debounceTimerRef p
  ∧ issued (cancelled p) = issued p.
Proof. unfold cancelled. by destruct (debounceTimerRef p) eqn:Href. Qed.

Lemma keystroke_spec query p :
  Inv p →
  let p' := debouncedSearchCities query p in
  now p' = now p ∧ issued p' = issued p
  ∧ if tooShort query
    then timers p' = [] ∧ nextTimerId p' = nextTimerId p
         ∧ debounceTimerRef p' = debounceTimerRef p
    else timers p' = [{| timerId := nextTimerId p; fireAt := now p + DEBOUNCE_DELAY;
                         timerQuery := query |}]
         ∧ nextTimerId p' = S (nextTimerId p)
         ∧ debounceTimerRef p' = Some (nextTimerId p).
Proof.
  intros HInv. pose proof (keystroke_cancels p HInv) as Hnone.
  destruct (cancelled_fields p) as (Hnow & Hnext & Href & Hissued).
  unfold debouncedSearchCities. fold (cancelled p) in *. fold (tooShort query).
  destruct (tooShort query); simpl; rewrite ?Hnone, ?Hnow, ?Hnext, ?Href, ?Hissued; done.
Qed.

Lemma settle_fields key fetch limit n p :
  let p' := settle key fetch limit n p in
  now p' = now p ∧ nextTimerId p' = nextTimerId p ∧ timers p' = timers p
  ∧ debounceTimerRef p' = debounceTimerRef p ∧ issued p' = issued p.
Proof. unfold settle. by destruct (inFlight p !! n). Qed.

Section page.
Context (API_KEY : string) (fetch : Request → Response) (limit : nat).

Local Abbreviation step := (step API_KEY fetch limit).
Local Abbreviation run := (run API_KEY fetch limit).

Lemma Inv_initial : Inv initial.
Proof. split; simpl; try lia; by intros ? ?%elem_of_nil. Qed.

Lemma Inv_step p e : Inv p → Inv (step p e).
Proof.
  intros HInv. destruct e as [query | d | n]; simpl.
  - destruct (keystroke_spec query p HInv) as (_ & Hissued & Hcase).
    destruct HInv as [_ _ _ Hold].
    destruct (tooShort query); destruct Hcase as (Hts & Hnext & Href);
      split; rewrite ?Hts, ?Hnext, ?Href, ?Hissued; simpl; try lia.
    + by intros t Ht%elem_of_nil.
    + by intros t Ht%elem_of_nil.
    + done.
    + by intros t ->%list_elem_of_singleton.
    + intros t ->%list_elem_of_singleton. simpl. lia.
    + intros c Hc. specialize (Hold c Hc). lia.
  - destruct (elapse_spec d p) as (_ & Hnext & Hts & Href & Hissued).
    destruct HInv as [Hr Hone Hlt Hold].
    split; rewrite ?Hts, ?Hnext, ?Href.
    + intros t [_ Ht]%list_elem_of_filter. by apply Hr.
    + pose proof (length_filter (λ t, ¬ due (now p + d) t) (timers p)). lia.
    + intros t [_ Ht]%list_elem_of_filter. by apply Hlt.
    + intros c [Hc | (t & Ht & _ & ->)]%Hissued; [by apply Hold | by apply Hlt].
  - destruct (settle_fields API_KEY fetch limit n p) as (_ & Hnext & Hts & Href & Hissued).
    destruct HInv as [Hr Hone Hlt Hold].
    split; rewrite ?Hts, ?Hnext, ?Href, ?Hissued; done.
Qed.

Lemma Inv_run es p : Inv p → Inv (run es p).
Proof.
  revert p. induction es as [|e es IH]; intros p HInv; [done|].
  apply IH, Inv_step, HInv.
Qed.

Lemma now_step p e : now (step p e) = now p + elapsedOf e.
Proof.
  destruct e as [query | d | n]; simpl.
  - unfold debouncedSearchCities. fold (cancelled p).
    destruct (cancelled_fields p) as (Hnow & _).
    destruct (_ || _); simpl; lia.
  - by destruct (elapse_spec d p) as (-> & _).
  - destruct (settle_fields API_KEY fetch limit n p) as (-> & _). lia.
Qed.

Lemma Safe_scheduled query p :
  Inv p → tooShort query = false →
  Safe (nextTimerId p) (now p + DEBOUNCE_DELAY) (step p (Keystroke query)).
Proof.
  intros HInv Hlong. pose proof (Inv_step p (Keystroke query) HInv) as HInv'.
  simpl in *. destruct (keystroke_spec query p HInv) as (_ & Hissued & Hcase).
  rewrite Hlong in Hcase. destruct Hcase as (Hts & Hnext & _).
  split; rewrite ?Hts, ?Hnext, ?Hissued; [done | lia | |].
  - intros c Hc. apply (inv_issued p HInv) in Hc. lia.
  - by intros t ->%list_elem_of_singleton _.
Qed.

Lemma Dead_keystroke i T query p : Safe i T p → Dead i (step p (Keystroke query)).
Proof.
  intros [HInv Hold Hissued _]. pose proof (Inv_step p (Keystroke query) HInv) as HInv'.
  simpl in *. destruct (keystroke_spec query p HInv) as (_ & Hiss & Hcase).
  destruct (tooShort query); destruct Hcase as (Hts & Hnext & _);
    split; rewrite ?Hts, ?Hnext, ?Hiss; try done; try lia.
  - by intros t ?%elem_of_nil.
  - intros t ->%list_elem_of_singleton. simpl. lia.
Qed.

Lemma Dead_step i p e : Dead i p → Dead i (step p e).
Proof.
  intros [HInv Hold Hissued Hgone]. pose proof (Inv_step p e HInv) as HInv'.
  destruct e as [query | d | n].
  - apply (Dead_keystroke i 0). split; try done. intros t Ht Hi. by destruct (Hgone t Ht).
  - simpl in *. destruct (elapse_spec d p) as (_ & Hnext & Hts & _ & Hiss).
    split; rewrite ?Hts, ?Hnext; try done.
    + intros c [Hc | (t & Ht & _ & ->)]%Hiss; [by apply Hissued | by apply Hgone].
    + intros t [_ Ht]%list_elem_of_filter. by apply Hgone.
  - simpl in *. destruct (settle_fields API_KEY fetch limit n p) as (_ & Hnext & Hts & _ & Hiss).
    split; rewrite ?Hts, ?Hnext, ?Hiss; done.
Qed.

Lemma Dead_run i es p : Dead i p → Dead i (run es p).
Proof.
  revert p. induction es as [|e es IH]; intros p Hdead; [done|].
  apply IH, Dead_step, Hdead.
Qed.

Lemma Safe_step i T p e :
  Safe i T p → now p + elapsedOf e < T → Safe i T (step p e).
Proof.
  intros HSafe Htime. destruct e as [query | d | n].
  - destruct (Dead_keystroke i T query p HSafe) as [? ? ? Hgone].
    split; try done. intros t Ht Hi. by destruct (Hgone t Ht).
  - destruct HSafe as [HInv Hold Hissued Hlate].
    pose proof (Inv_step p (Elapse d) HInv) as HInv'.
    simpl in *. destruct (elapse_spec d p) as (_ & Hnext & Hts & _ & Hiss).
    split; rewrite ?Hts, ?Hnext; try done.
    + intros c [Hc | (t & Ht & Hdue & ->)]%Hiss; [by apply Hissued|].
      simpl. intros Hi. specialize (Hlate t Ht Hi). unfold due in Hdue. lia.
    + intros t [_ Ht]%list_elem_of_filter. by apply Hlate.
  - destruct HSafe as [HInv Hold Hissued Hlate].
    pose proof (Inv_step p (Settle n) HInv) as HInv'.
    simpl in *. destruct (settle_fields API_KEY fetch limit n p) as (_ & Hnext & Hts & _ & Hiss).
    split; rewrite ?Hts, ?Hnext, ?Hiss; done.
Qed.

Lemma Safe_run i T es p :
  Safe i T p → now p + elapsed es < T → Safe i T (run es p).
Proof.
  revert p. induction es as [|e es IH]; intros p HSafe Htime; [done|].
  change (elapsed (e :: es)) with (elapsedOf e + elapsed es) in Htime. apply IH.
  - apply Safe_step; [done | lia].
  - rewrite now_step. lia.
Qed.

Lemma filter_all_id {A} (P : A → Prop) `{∀ x, Decision (P x)} (l : list A) :
  (∀ x, x ∈ l → P x) → filter P l = l.
Proof.
  induction l as [|x l IH]; intros Hall; [done|].
  rewrite filter_cons_True by (apply Hall; left). f_equal.
  apply IH. intros y Hy. apply Hall. by right.
Qed.

(** Time passes and no timer is due: only the clock moves. *)
Lemma elapse_idle d p :
  (∀ t, t ∈ timers p → now p + d < fireAt t) →
  elapse d p =
    {| now := now p + d; nextTimerId := nextTimerId p; timers := timers p;
       debounceTimerRef := debounceTimerRef p;
       searchSuggestions := searchSuggestions p; isSearching := isSearching p;
       issued := issued p; inFlight := inFlight p |}.
Proof.
  intros Hlate. unfold elapse.
  assert (filter (due (now p + d)) (timers p) = []) as ->.
  { apply elem_of_nil_inv. intros t [Hdue Ht]%list_elem_of_filter.
    specialize (Hlate t Ht). unfold due in Hdue. lia. }
  rewrite filter_all_id; [done|].
  intros t Ht Hdue. specialize (Hlate t Ht). unfold due in Hdue. lia.
Qed.

(** The one active timer is due: its callback calls [searchCities]. *)
Lemma elapse_single d p t :
  timers p = [t] → fireAt t ≤ now p + d →
  issued (elapse d p) = issued p ++ [toCall t].
Proof.
  intros Hts Hdue. unfold elapse.
  match goal with |- context [foldl _ ?p0 ?ready] =>
    destruct (foldl_fire ready p0) as (_ & _ & _ & _ & ->) end.
  simpl. rewrite Hts. by rewrite filter_cons_True, filter_nil.
Qed.

(** The scenario: "Lon", then "London" [d1] ms later, then [d2] ms of quiet. *)
Lemma lon_london d1 d2 :
  d1 < DEBOUNCE_DELAY → DEBOUNCE_DELAY ≤ d2 →
  issued (run [Keystroke "Lon"; Elapse d1; Keystroke "London"; Elapse d2] initial)
  = [{| callTimer := 2; callQuery := "London" |}].
Proof.
  intros Hd1 Hd2. unfold SuggestionSearch.run.
  change (foldl step initial
            [Keystroke "Lon"; Elapse d1; Keystroke "London"; Elapse d2])
    with (elapse d2 (debouncedSearchCities "London"
            (elapse d1 (debouncedSearchCities "Lon" initial)))).
  rewrite (elapse_idle d1).
  - rewrite (elapse_single d2 _
               {| timerId := 2; fireAt := d1 + DEBOUNCE_DELAY; timerQuery := "London" |});
      [reflexivity | reflexivity |].
    simpl. unfold DEBOUNCE_DELAY in *. lia.
  - intros t ->%list_elem_of_singleton. simpl. lia.
Qed.

(** C8: a keystroke that schedules a fetch hands it to one timer, 300 ms
    ahead; when the next keystroke comes before those 300 ms have passed,
    that timer is cancelled and its fetch is never issued, whatever happens
    afterwards; at every moment at most one timer is pending; and "Lon"
    followed by "London" within the delay issues exactly one fetch, for
    "London". *)
Theorem debounce_cancels_pending :
  (∀ history q1 between q2 after,
      let p := run history initial in
      let scheduled := step p (Keystroke q1) in
      let final := run (between ++ Keystroke q2 :: after) scheduled in
      tooShort q1 = false →
      elapsed between < DEBOUNCE_DELAY →
      timers scheduled = [{| timerId := nextTimerId p; fireAt := now p + 300;
                             timerQuery := q1 |}]
      ∧ ∀ c, c ∈ issued final → callTimer c ≠ nextTimerId p)
  ∧ (∀ history, length (timers (run history initial)) ≤ 1)
  ∧ (∀ d1 d2, d1 < 300 → 300 ≤ d2 →
       issued (run [Keystroke "Lon"; Elapse d1; Keystroke "London"; Elapse d2] initial)
       = [{| callTimer := 2; callQuery := "London" |}]).
Proof.
  split; [|split; [|apply lon_london]].
  - intros history q1 between q2 after p scheduled final Hlong Hsoon.
    assert (Inv p) as HInv by apply Inv_run, Inv_initial.
    pose proof (Safe_scheduled q1 p HInv Hlong) as HSafe. fold scheduled in HSafe.
    split.
    + destruct (keystroke_spec q1 p HInv) as (_ & _ & Hcase).
      rewrite Hlong in Hcase. apply Hcase.
    + subst final. unfold SuggestionSearch.run. rewrite foldl_app. simpl.
      apply dead_issued, Dead_run, (Dead_keystroke _ (now p + DEBOUNCE_DELAY)).
      apply Safe_run; [done|].
      subst scheduled. rewrite now_step. simpl. lia.
  - intros history. apply inv_one, Inv_run, Inv_initial.
Qed.

End page.

End SuggestionSearchFacts.

(** The debounce on the weather page's keystrokes. *)
Module SuggestionSearchExamples.
Import WeatherApi SuggestionSearch SuggestionSearchFacts Samples.
Local Open Scope nat_scope.

(** The theorem of C8 at "Lon", 100 ms, "London", 300 ms and the reply:
    the timer of "Lon" (timer 1) makes no call. *)
Lemma debounce_cancels_pending_witness :
  Forall (λ c, callTimer c ≠ 1)
    (issued (run "key" offline 5
               ([Elapse 100] ++ Keystroke "London" :: [Elapse 300; Settle 0])
               (step "key" offline 5 initial (Keystroke "Lon")))).
Proof.
  apply Forall_forall.
  apply (proj1 (debounce_cancels_pending "key" offline 5)
           [] "Lon" [Elapse 100] "London" [Elapse 300; Settle 0]).
  - reflexivity.
  - unfold elapsed, DEBOUNCE_DELAY. simpl. lia.
Defined.

(** A third keystroke after the fetch for "London" schedules a second one. *)
Example two_fetches :
  callQuery <$> issued (run "key" offline 5
                          [Keystroke "Lon"; Elapse 120; Keystroke "London"; Elapse 300;
                           Keystroke "Londonderry"; Elapse 299; Elapse 1] initial)
  = ["London"; "Londonderry"].
Proof. reflexivity. Qed.

(** A query of one character clears the suggestions and schedules nothing. *)
Example short_query_schedules_nothing :
  timers (run "key" offline 5 [Keystroke "Lo"; Elapse 10; Keystroke " L "] initial) = [].
Proof. reflexivity. Qed.

End SuggestionSearchExamples.

(** ** Doubles

    Bounds on the results of binary64 operations, from their
    specification in [SpecFloat]: an exact product, sum or quotient is
    rounded by [binary_round_aux], which shifts the mantissa to the right
    and rounds to nearest, ties to even.  When the exact result is at most
    an integer below [2 ^ 53] so is the rounded one, because that integer
    is a double itself.  The values are compared on integers, scaled by
    a power of two that makes every mantissa whole. *)
Module DoubleFacts.
Import Binary64.

(** A number between 0 and an integer rounds to an integer between them. *)
Lemma Math_round_range (x : Q) (bound : Z) :
  (0 <= x)%Q → (x <= inject_Z bound)%Q → 0 ≤ JS.Math_round x ≤ bound.
Proof.
  intros Hlo Hhi. unfold JS.Math_round. split.
  - change 0 with (Qfloor (0 + (1 # 2))). apply Qfloor_resp_le. lra.
  - pose proof (Qfloor_le (x + (1 # 2))) as Hfloor.
    assert (inject_Z (Qfloor (x + (1 # 2))) < inject_Z (bound + 1))%Q as Hlt.
    { rewrite inject_Z_plus. change (inject_Z 1) with 1%Q. lra. }
    rewrite <- Zlt_Qlt in Hlt. lia.
Qed.

(** *** Binary digits *)

Lemma digits2_pos_bounds (m : positive) :
  2 ^ (Zpos (digits2_pos m) - 1) ≤ Zpos m < 2 ^ Zpos (digits2_pos m).
Proof.
  induction m as [m IH|m IH|]; simpl digits2_pos.
  - rewrite Pos2Z.inj_succ. replace (Z.succ (Zpos (digits2_pos m)) - 1) with (Zpos (digits2_pos m)) by lia.
    rewrite Z.pow_succ_r by lia.
    assert (2 ^ Z.pos (digits2_pos m) = 2 * 2 ^ (Z.pos (digits2_pos m) - 1)) as Heq.
    { rewrite <- Z.pow_succ_r by lia. f_equal. lia. }
    lia.
  - rewrite Pos2Z.inj_succ. replace (Z.succ (Zpos (digits2_pos m)) - 1) with (Zpos (digits2_pos m)) by lia.
    rewrite Z.pow_succ_r by lia.
    assert (2 ^ Z.pos (digits2_pos m) = 2 * 2 ^ (Z.pos (digits2_pos m) - 1)) as Heq.
    { rewrite <- Z.pow_succ_r by lia. f_equal. lia. }
    lia.
  - simpl. lia.
Qed.

(** *** Shifting a mantissa *)

Lemma shifted_shr_1 x : shifted 1 x (shr_1 x).
Proof.
  destruct x as [m r s]. intros Hm. simpl in Hm.
  unfold shr_1, exact. destruct m as [|[p|p|]|]; simpl; try lia.
  - split; [lia|]. split; [done|]. by intros [-> ->] _.
  - split; [lia|]. split.
    + change (2 ^ 1) with 2. apply (Z.div_unique _ 2 _ 1); lia.
    + intros _ [c Hc]. change (2 ^ 1) with 2 in Hc. lia.
  - split; [lia|]. split.
    + change (2 ^ 1) with 2. apply (Z.div_unique _ 2 _ 0); lia.
    + by intros [-> ->] _.
  - split; [lia|]. split; [done|].
    intros _ [c Hc]. change (2 ^ 1) with 2 in Hc. lia.
Qed.

Lemma shifted_trans a b x y z :
  0 ≤ a → 0 ≤ b → shifted a x y → shifted b y z → shifted (a + b) x z.
Proof.
  intros Ha Hb Hxy Hyz Hx. destruct (Hxy Hx) as (Hy & Hmy & Hey).
  destruct (Hyz Hy) as (Hz & Hmz & Hez). split; [done|]. split.
  - rewrite Hmz, Hmy, Z.pow_add_r by done. apply Z.div_div; lia.
  - intros Hex Hdiv. rewrite Z.pow_add_r in Hdiv by done.
    destruct Hdiv as [c Hc]. apply Hez.
    + apply Hey; [done|]. exists (c * 2 ^ b). lia.
    + rewrite Hmy. exists c. rewrite Hc.
      replace (c * (2 ^ a * 2 ^ b)) with ((c * 2 ^ b) * 2 ^ a) by lia.
      rewrite Z.div_mul by lia. done.
Qed.

Lemma shifted_iter_pos (p : positive) x : shifted (Zpos p) x (SpecFloat.iter_pos shr_1 p x).
Proof.
  revert x. induction p as [p IH|p IH|]; intros x; simpl.
  - replace (Zpos p~1) with (1 + (Zpos p + Zpos p)) by lia.
    eapply shifted_trans; [lia | lia | apply shifted_shr_1|].
    eapply shifted_trans; [lia | lia | apply IH | apply IH].
  - replace (Zpos p~0) with (Zpos p + Zpos p) by lia.
    eapply shifted_trans; [lia | lia | apply IH | apply IH].
  - apply shifted_shr_1.
Qed.

(** [shr]: the mantissa is divided, the exponent raised, by the same
    number of bits. *)
Lemma shr_spec (x : shr_record) (e n : Z) :
  0 ≤ shr_m x →
  let '(y, e') := shr x e n in
  let k := Z.max n 0 in
  e' = e + k ∧ 0 ≤ shr_m y ∧ shr_m y = shr_m x `div` 2 ^ k
  ∧ (exact x → (2 ^ k | shr_m x) → exact y).
Proof.
  intros Hx. unfold shr. destruct n as [|p|p]; simpl Z.max.
  - rewrite Z.add_0_r, Z.pow_0_r, Z.div_1_r. done.
  - destruct (shifted_iter_pos p x Hx) as (? & ? & ?). done.
  - rewrite Z.add_0_r, Z.pow_0_r, Z.div_1_r. done.
Qed.

(** *** Rounding to nearest *)

Lemma round_nearest_even_bounds m l :
  m ≤ round_nearest_even m l ≤ m + 1
  ∧ (l = loc_Exact → round_nearest_even m l = m).
Proof.
  destruct l as [|[| |]]; simpl; try destruct (Z.even m); split; try done; lia.
Qed.

Lemma loc_exact x : exact x → loc_of_shr_record x = loc_Exact.
Proof. destruct x as [m r s]. unfold exact. simpl. by intros [-> ->]. Qed.

(** The value of a positive double, compared on integers after scaling by
    [2 ^ scale]. *)
Lemma valueOf_le (m : positive) (e scale bound : Z) :
  0 ≤ scale → - scale ≤ e → 0 ≤ bound →
  Zpos m * 2 ^ (e + scale) ≤ bound * 2 ^ scale →
  (0 <= JS.valueOf false m e)%Q ∧ (JS.valueOf false m e <= inject_Z bound)%Q.
Proof.
  intros Hs He Hb Hle. unfold JS.valueOf, Qle. simpl.
  destruct e as [|k|k]; simpl Qnum; simpl Qden.
  - rewrite Z.add_0_l in Hle. split; [lia|].
    assert (0 < 2 ^ scale) by (apply Z.pow_pos_nonneg; lia). nia.
  - rewrite Z.pow_add_r in Hle by lia.
    assert (0 < 2 ^ scale) by (apply Z.pow_pos_nonneg; lia).
    assert (0 < 2 ^ Z.pos k) by (apply Z.pow_pos_nonneg; lia).
    split; [nia|]. rewrite Z.mul_1_r. change (Z.pow_pos 2 k) with (2 ^ Z.pos k). nia.
  - rewrite Pos2Z.inj_pow. split; [lia|].
    assert (2 ^ scale = 2 ^ (Z.neg k + scale) * 2 ^ Z.pos k) as Heq.
    { rewrite <- Z.pow_add_r by lia. f_equal. lia. }
    assert (0 < 2 ^ (Z.neg k + scale)) by (apply Z.pow_pos_nonneg; lia).
    assert (0 < 2 ^ Z.pos k) by (apply Z.pow_pos_nonneg; lia).
    rewrite Heq in Hle. nia.
Qed.


(** *** Rounding an exact result *)

Lemma pow2_pos (k : Z) : 0 ≤ k → 0 < 2 ^ k.
Proof. intros. apply Z.pow_pos_nonneg; lia. Qed.

Lemma pow2_split (a b : Z) : 0 ≤ a → 0 ≤ b → 2 ^ (a + b) = 2 ^ a * 2 ^ b.
Proof. intros. by apply Z.pow_add_r. Qed.

(** Rounding an exact or truncated nonnegative result that is at most
    [bound]: the result is zero or a positive double that is at most
    [bound]. *)
Lemma binary_round_aux_le (scale mx ex : Z) (l : location) (bound : Z) :
  0 ≤ mx → - scale ≤ ex → 0 ≤ scale → 0 ≤ bound < 2 ^ 53 →
  (l = loc_Exact ∧ mx * 2 ^ (ex + scale) ≤ bound * 2 ^ scale)
  ∨ (ex ≤ 0 ∧ mx * 2 ^ (ex + scale) < bound * 2 ^ scale) →
  atMost scale bound (binary_round_aux prec emax false mx ex l).
Proof.
  intros Hmx Hex Hscale Hbound Hle.
  assert (mx * 2 ^ (ex + scale) ≤ bound * 2 ^ scale) as Hle'
    by (destruct Hle as [[_ ?]|[_ ?]]; lia).
  pose proof (pow2_pos scale Hscale) as Hps.
  pose proof (pow2_pos (ex + scale) ltac:(lia)) as Hpe.
  unfold binary_round_aux, shr_fexp.
  set (e1 := fexp prec emax (Zdigits2 mx + ex)).
  assert (-1074 ≤ e1) as He1min.
  { unfold e1, fexp, emin. change prec with 53. change emax with 1024. lia. }
  assert (ex < e1 → e1 ≤ 0) as He1.
  { intros Hlt. unfold e1, fexp, emin in *. change prec with 53 in *.
    change emax with 1024 in *. destruct mx as [|p|p]; [simpl Zdigits2 in *; lia| |lia].
    simpl Zdigits2 in *. pose proof (digits2_pos_bounds p) as Hp.
    set (d := Zpos (digits2_pos p)) in *.
    assert (2 ^ (d - 1 + (ex + scale)) < 2 ^ (53 + scale)) as Hpow.
    { rewrite (pow2_split (d - 1)), (pow2_split 53) by lia.
      assert (bound * 2 ^ scale < 2 ^ 53 * 2 ^ scale)
        by (apply Z.mul_lt_mono_pos_r; lia).
      assert (2 ^ (d - 1) * 2 ^ (ex + scale) ≤ Zpos p * 2 ^ (ex + scale))
        by (apply Z.mul_le_mono_nonneg_r; lia).
      lia. }
    apply Z.pow_lt_mono_r_iff in Hpow; lia. }
  pose proof (shr_spec (shr_record_of_loc mx l) ex (e1 - ex)) as Hshr.
  destruct (shr (shr_record_of_loc mx l) ex (e1 - ex)) as [y e'].
  assert (shr_m (shr_record_of_loc mx l) = mx) as Hm0 by (by destruct l as [|[| |]]).
  rewrite Hm0 in Hshr. destruct Hshr as (He' & Hy0 & Hy & Hexact); [done|].
  set (k := Z.max (e1 - ex) 0) in *.
  assert (0 ≤ k) as Hk by (unfold k; lia).
  pose proof (pow2_pos k Hk) as Hpk.
  set (t := e' + scale).
  assert (t = k + (ex + scale)) as Ht by (unfold t; lia).
  assert (0 ≤ t) as Ht0 by lia.
  pose proof (pow2_pos t Ht0) as Hpt.
  set (m2 := round_nearest_even (shr_m y) (loc_of_shr_record y)).
  assert (0 ≤ m2 ∧ m2 * 2 ^ t ≤ bound * 2 ^ scale) as [Hm2 Hm2le].
  { destruct (round_nearest_even_bounds (shr_m y) (loc_of_shr_record y)) as [Hr Hre].
    fold m2 in Hr, Hre. split; [lia|].
    destruct (decide (e' ≤ 0)) as [Hneg | Hpos].
    - set (N := bound * 2 ^ (scale - t)).
      assert (bound * 2 ^ scale = N * 2 ^ t) as HB.
      { unfold N. rewrite <- Z.mul_assoc, <- Z.pow_add_r by lia. do 2 f_equal. lia. }
      assert (2 ^ t = 2 ^ k * 2 ^ (ex + scale)) as Hsplit
        by (rewrite Ht; apply pow2_split; lia).
      assert (mx ≤ N * 2 ^ k) as HmxN.
      { apply (Z.mul_le_mono_pos_r _ _ (2 ^ (ex + scale)) Hpe).
        by rewrite <- Z.mul_assoc, <- Hsplit, <- HB. }
      assert (shr_m y ≤ N) as HyN.
      { rewrite Hy. apply Z.div_le_upper_bound; [done|]. lia. }
      rewrite HB. apply Z.mul_le_mono_nonneg_r; [lia|].
      destruct (decide (shr_m y = N)) as [Heq | Hne]; [|lia].
      pose proof (Z.mul_div_le mx (2 ^ k) Hpk) as Hdiv.
      rewrite <- Hy, Heq in Hdiv.
      assert (mx = N * 2 ^ k) as Hmx' by lia.
      destruct Hle as [[-> _] | [_ Hlt]].
      + rewrite Hre; [lia|]. apply loc_exact, Hexact; [done|]. by exists N.
      + rewrite HB, Hsplit, Hmx', Z.mul_assoc in Hlt. lia.
    - assert (k = 0) as Hk0 by (unfold k; lia).
      destruct Hle as [[-> _] | [? _]]; [|lia].
      rewrite Hk0, Z.pow_0_r, Z.div_1_r in Hy.
      rewrite Hre; [|apply loc_exact, Hexact; [done | rewrite Hk0; by exists mx; lia]].
      rewrite Hy. replace t with (ex + scale) by lia. done. }
  pose proof (shr_spec (shr_record_of_loc m2 loc_Exact) e'
                (fexp prec emax (Zdigits2 m2 + e') - e')) as Hshr2.
  destruct (shr (shr_record_of_loc m2 loc_Exact) e'
              (fexp prec emax (Zdigits2 m2 + e') - e')) as [z e''].
  simpl shr_record_of_loc in Hshr2. simpl shr_m in Hshr2.
  destruct Hshr2 as (He'' & Hz0 & Hz & _); [lia|].
  set (k2 := Z.max (fexp prec emax (Zdigits2 m2 + e') - e') 0) in *.
  assert (0 ≤ k2) as Hk2 by (unfold k2; lia).
  pose proof (pow2_pos k2 Hk2) as Hpk2.
  assert (shr_m z * 2 ^ (e'' + scale) ≤ bound * 2 ^ scale) as Hfinal.
  { replace (e'' + scale) with (k2 + t) by (unfold t; lia).
    rewrite pow2_split by lia.
    pose proof (Z.mul_div_le m2 (2 ^ k2) Hpk2) as Hdiv. rewrite <- Hz in Hdiv.
    nia. }
  destruct (shr_m z) as [|m|m] eqn:Hmz; [done| |lia].
  assert (e'' < 53) as He53.
  { assert (2 ^ (e'' + scale) < 2 ^ (53 + scale)) as Hpow.
    { rewrite (pow2_split 53) by lia.
      pose proof (pow2_pos (e'' + scale) ltac:(lia)). nia. }
    apply Z.pow_lt_mono_r_iff in Hpow; lia. }
  assert ((e'' <=? emax - prec) = true) as ->.
  { apply Z.leb_le. change emax with 1024. change prec with 53. lia. }
  split; [done|]. split; [lia | done].
Qed.

(** A larger bound holds as well. *)
Lemma atMost_mono (scale a b : Z) (x : spec_float) :
  0 ≤ scale → a ≤ b → atMost scale a x → atMost scale b x.
Proof.
  intros Hs Hab. destruct x as [| | |s m e]; simpl; try done.
  intros (-> & He & Hle). split; [done|]. split; [done|].
  pose proof (pow2_pos scale Hs). nia.
Qed.

(** *** Aligning two mantissas *)

(** [shl_align] lowers the exponent to the smaller one and keeps the
    value. *)
Lemma shl_align_spec (mx : positive) (ex ex' : Z) :
  let '(m', e') := shl_align mx ex ex' in
  e' = Z.min ex ex' ∧ Zpos m' = Zpos mx * 2 ^ (ex - e').
Proof.
  unfold shl_align. destruct (ex' - ex) as [|d|d] eqn:Hd.
  - split; [lia|]. rewrite Z.sub_diag. lia.
  - split; [lia|]. rewrite Z.sub_diag. lia.
  - split; [lia|]. replace (ex - ex') with (Zpos d) by lia.
    change (Pos.iter xO mx d) with (shift_pos d mx). rewrite shift_pos_correct.
    change (2 ^ Zpos d) with (Z.pow_pos 2 d). lia.
Qed.

(** *** Sums *)

(** Normalising and rounding a positive value that is at most [bound]. *)
Lemma binary_round_le (scale : Z) (m : positive) (e bound : Z) :
  1074 ≤ scale → -1074 ≤ e → 0 ≤ bound < 2 ^ 53 →
  Zpos m * 2 ^ (e + scale) ≤ bound * 2 ^ scale →
  atMost scale bound (binary_round prec emax false m e).
Proof.
  intros Hs He Hb Hle. unfold binary_round.
  pose proof (shl_align_spec m e (fexp prec emax (Zpos (digits2_pos m) + e))) as Hal.
  destruct (shl_align m e (fexp prec emax (Zpos (digits2_pos m) + e))) as [mz ez].
  destruct Hal as [Hez Hmz].
  assert (-1074 ≤ ez) as Hez'.
  { rewrite Hez. unfold fexp, emin. change prec with 53. change emax with 1024. lia. }
  apply binary_round_aux_le; [lia | lia | lia | done |].
  left. split; [done|]. rewrite Hmz, <- Z.mul_assoc, <- pow2_split by lia.
  by replace (e - ez + (ez + scale)) with (e + scale) by lia.
Qed.

(** The sum of two doubles is at most the sum of their bounds. *)
Lemma SFadd_atMost (scale a b : Z) (x y : spec_float) :
  1074 ≤ scale → 0 ≤ a → 0 ≤ b → a + b < 2 ^ 53 →
  atMost scale a x → atMost scale b y → atMost scale (a + b) (SFadd prec emax x y).
Proof.
  intros Hs Ha Hb Hab Hx Hy.
  destruct x as [sx| | |sx mx ex], y as [sy| | |sy my ey]; simpl in Hx, Hy; try done.
  - by destruct sx, sy.
  - apply (atMost_mono scale b); [lia | lia | done].
  - apply (atMost_mono scale a); [lia | lia | done].
  - destruct Hx as (-> & Hex & Hx), Hy as (-> & Hey & Hy).
    unfold SFadd. cbn [cond_Zopp].
    pose proof (shl_align_spec mx ex (Z.min ex ey)) as Hax.
    pose proof (shl_align_spec my ey (Z.min ex ey)) as Hay.
    destruct (shl_align mx ex (Z.min ex ey)) as [mx' ex'].
    destruct (shl_align my ey (Z.min ex ey)) as [my' ey'].
    destruct Hax as [Hex' Hmx'], Hay as [Hey' Hmy']. cbn [fst].
    change (Zpos mx' + Zpos my') with (Zpos (mx' + my')). cbn [binary_normalize].
    set (ez := Z.min ex ey) in *.
    apply binary_round_le; [done | lia | lia |].
    rewrite Pos2Z.inj_add, Hmx', Hmy', Z.mul_add_distr_r.
    rewrite <- !Z.mul_assoc, <- !pow2_split by lia.
    replace (ex - ex' + (ez + scale)) with (ex + scale) by lia.
    replace (ey - ey' + (ez + scale)) with (ey + scale) by lia.
    lia.
Qed.

(** The sum of doubles that are each at most [bound]. *)
Lemma sum_atMost (scale bound : Z) (xs : list float) (acc : float) (n : Z) :
  1074 ≤ scale → 0 ≤ bound → 0 ≤ n →
  bound * (n + Z.of_nat (length xs)) < 2 ^ 53 →
  atMost scale (bound * n) (Prim2SF acc) →
  Forall (λ x, atMost scale bound (Prim2SF x)) xs →
  atMost scale (bound * (n + Z.of_nat (length xs))) (Prim2SF (foldl PrimFloat.add acc xs)).
Proof.
  intros Hs Hb. revert acc n. induction xs as [|x xs IH]; intros acc n Hn Hlen Hacc Hall.
  - simpl. by rewrite Z.add_0_r.
  - apply Forall_cons in Hall as [Hx Hall]. simpl foldl.
    replace (n + Z.of_nat (length (x :: xs))) with ((n + 1) + Z.of_nat (length xs))
      in * by (simpl length; lia).
    apply IH; [lia | done | | done].
    rewrite add_spec. replace (bound * (n + 1)) with (bound * n + bound) by lia.
    apply SFadd_atMost; [done | nia | done | nia | done | done].
Qed.

(** *** Products *)

(** The product of two doubles is at most the product of their bounds. *)
Lemma SFmul_atMost (scale a b : Z) (x y : spec_float) :
  2200 ≤ scale → 0 ≤ a → 0 ≤ b → a * b < 2 ^ 53 →
  atMost scale a x → atMost scale b y → atMost scale (a * b) (SFmul prec emax x y).
Proof.
  intros Hs Ha Hb Hab Hx Hy.
  destruct x as [sx| | |sx mx ex], y as [sy| | |sy my ey]; simpl in Hx, Hy; try done.
  destruct Hx as (-> & Hex & Hx), Hy as (-> & Hey & Hy).
  unfold SFmul. cbn [xorb].
  pose proof (pow2_pos scale ltac:(lia)) as Hps.
  pose proof (pow2_pos (ex + scale) ltac:(lia)) as Hpx.
  pose proof (pow2_pos (ey + scale) ltac:(lia)) as Hpy.
  apply binary_round_aux_le; [lia | lia | lia | nia |].
  left. split; [done|].
  apply (Z.mul_le_mono_pos_r _ _ (2 ^ scale) Hps).
  rewrite Pos2Z.inj_mul.
  replace (Zpos mx * Zpos my * 2 ^ (ex + ey + scale) * 2 ^ scale)
    with ((Zpos mx * 2 ^ (ex + scale)) * (Zpos my * 2 ^ (ey + scale))).
  - replace (a * b * 2 ^ scale * 2 ^ scale) with ((a * 2 ^ scale) * (b * 2 ^ scale)) by ring.
    apply Z.mul_le_mono_nonneg; lia.
  - rewrite <- (Z.mul_assoc _ (2 ^ (ex + ey + scale))), <- pow2_split by lia.
    replace (ex + ey + scale + scale) with ((ex + scale) + (ey + scale)) by lia.
    rewrite (pow2_split (ex + scale) (ey + scale)) by lia. ring.
Qed.

(** [<=] on two positive doubles. *)
Lemma SFleb_finite (m : positive) (e : Z) (m' : positive) (e' : Z) :
  SFleb (S754_finite false m e) (S754_finite false m' e') = true →
  e < e' ∨ (e = e' ∧ (m <= m')%positive).
Proof.
  unfold SFleb, SFcompare. destruct (Z.compare_spec e e') as [-> | Hlt | Hgt].
  - intros Hle. right. split; [done|]. unfold Pos.le, Pos.compare.
    by destruct (PosDef.Pos.compare_cont Eq m m').
  - by left.
  - discriminate.
Qed.

(** A double between 0 and 1. *)
Lemma probability_atMost (scale : Z) (p : float) :
  1074 ≤ scale →
  (0 <=? p)%float = true → (p <=? 1)%float = true → atMost scale 1 (Prim2SF p).
Proof.
  intros Hs. rewrite !leb_spec.
  pose proof (Prim2SF_valid p) as Hvalid.
  change (Prim2SF 0) with (S754_zero false).
  change (Prim2SF 1) with (S754_finite false 4503599627370496 (-52)).
  destruct (Prim2SF p) as [s | s | | s m e]; intros Hlo Hhi; simpl.
  - done.
  - destruct s; discriminate.
  - discriminate.
  - destruct s; [discriminate|].
    unfold valid_binary, bounded, canonical_mantissa in Hvalid.
    apply andb_prop in Hvalid as [Hcanon _].
    apply Z.eqb_eq in Hcanon. unfold fexp, emin in Hcanon.
    change prec with 53 in Hcanon. change emax with 1024 in Hcanon.
    pose proof (digits2_pos_bounds m) as Hm.
    set (d := Zpos (digits2_pos m)) in *.
    assert (d ≤ 53) as Hd by lia.
    assert (-1074 ≤ e) as He by lia.
    split; [done|]. split; [done|]. rewrite Z.mul_1_l.
    assert (Zpos m ≤ 2 ^ (- e) ∧ e ≤ -52) as [Hme He'].
    { apply SFleb_finite in Hhi as [Hlt | [-> Hle]].
      - split; [|lia]. transitivity (2 ^ 53).
        + assert (2 ^ d ≤ 2 ^ 53) by (apply Z.pow_le_mono_r; lia). lia.
        + apply Z.pow_le_mono_r; lia.
      - split; [|done]. apply Pos2Z.pos_le_pos in Hle. exact Hle. }
    replace scale with (- e + (e + scale)) at 2 by lia.
    rewrite (pow2_split (- e) (e + scale)) by lia.
    apply Z.mul_le_mono_nonneg_r; [|done].
    pose proof (pow2_pos (e + scale) ltac:(lia)). lia.
Qed.

(** *** Rounding to an integer *)

(** [Math.round] of a double that is at most [bound]. *)
Lemma Math_round_atMost (scale bound : Z) (x : float) :
  1074 ≤ scale → 0 ≤ bound → atMost scale bound (Prim2SF x) →
  ∃ z, JS.Math_round_double x = JS.Integer z ∧ 0 ≤ z ≤ bound.
Proof.
  intros Hs Hb. unfold JS.Math_round_double.
  destruct (Prim2SF x) as [s | s | | s m e]; simpl; try done.
  - intros _. exists 0. split; [done | lia].
  - intros (-> & He & Hle).
    destruct (valueOf_le m e scale bound) as [Hlo Hhi]; [lia | lia | lia | done |].
    eexists. split; [done|]. by apply Math_round_range.
Qed.

(** *** The length of a list as a double *)

(** The number of digits of a mantissa, from bounds on it. *)
Lemma digits2_pos_unique (m : positive) (d : Z) :
  2 ^ (d - 1) ≤ Zpos m < 2 ^ d → Zpos (digits2_pos m) = d.
Proof.
  intros [Hlo Hhi]. pose proof (digits2_pos_bounds m) as [Hlo' Hhi'].
  set (d' := Zpos (digits2_pos m)) in *.
  assert (0 < d) as Hd.
  { destruct (decide (0 < d)) as [|Hneg]; [done|].
    destruct (decide (d = 0)) as [-> | Hne]; [simpl in Hhi; lia|].
    rewrite Z.pow_neg_r in Hhi by lia. lia. }
  assert (2 ^ (d - 1) < 2 ^ d') as H1 by lia.
  assert (2 ^ (d' - 1) < 2 ^ d) as H2 by lia.
  apply Z.pow_lt_mono_r_iff in H1; [|lia|lia].
  apply Z.pow_lt_mono_r_iff in H2; [|lia|lia].
  lia.
Qed.

(** A mantissa of 53 bits is not rounded. *)
Lemma binary_round_aux_exact (m : positive) (e : Z) :
  Zpos (digits2_pos m) = 53 → -1074 ≤ e ≤ 971 →
  binary_round_aux prec emax false (Zpos m) e loc_Exact = S754_finite false m e.
Proof.
  intros Hd He. unfold binary_round_aux, shr_fexp.
  cbn [Zdigits2 shr_record_of_loc]. rewrite Hd.
  assert (fexp prec emax (53 + e) - e = 0) as ->.
  { unfold fexp, emin. change prec with 53. change emax with 1024. lia. }
  cbn [shr shr_m loc_of_shr_record round_nearest_even Zdigits2 shr_record_of_loc].
  rewrite Hd.
  assert (fexp prec emax (53 + e) - e = 0) as ->.
  { unfold fexp, emin. change prec with 53. change emax with 1024. lia. }
  cbn [shr shr_m].
  assert ((e <=? emax - prec) = true) as ->; [|done].
  apply Z.leb_le. change emax with 1024. change prec with 53. lia.
Qed.

(** The double of a positive integer below [2 ^ 53] is that integer. *)
Lemma of_uint63_of_Z (n : Z) :
  0 < n < 2 ^ 53 →
  ∃ m e, Prim2SF (of_uint63 (Uint63.of_Z n)) = S754_finite false m e
         ∧ -1074 ≤ e ≤ 0 ∧ Zpos m = n * 2 ^ (- e).
Proof.
  intros Hn. rewrite of_uint63_spec, Uint63.of_Z_spec.
  rewrite Z.mod_small by (change Uint63.wB with (2 ^ 63); change (2 ^ 63) with (2 ^ 53 * 1024); lia).
  destruct n as [|p|p]; [lia| |lia]. cbn [binary_normalize]. unfold binary_round.
  pose proof (shl_align_spec p 0 (fexp prec emax (Zpos (digits2_pos p) + 0))) as Hal.
  destruct (shl_align p 0 (fexp prec emax (Zpos (digits2_pos p) + 0))) as [mz ez].
  destruct Hal as [Hez Hmz].
  pose proof (digits2_pos_bounds p) as [Hlo Hhi].
  set (d := Zpos (digits2_pos p)) in *.
  assert (0 < d) as Hd0 by (unfold d; lia).
  assert (d ≤ 53) as Hd.
  { assert (2 ^ (d - 1) < 2 ^ 53) as Hpow by lia.
    apply Z.pow_lt_mono_r_iff in Hpow; lia. }
  assert (ez = d - 53) as ->.
  { rewrite Hez. unfold fexp, emin. change prec with 53. change emax with 1024. lia. }
  rewrite Z.sub_0_l in Hmz.
  assert (2 ^ 52 = 2 ^ (d - 1) * 2 ^ (- (d - 53))) as H52
    by (rewrite <- pow2_split by lia; f_equal; lia).
  assert (2 ^ 53 = 2 ^ d * 2 ^ (- (d - 53))) as H53
    by (rewrite <- pow2_split by lia; f_equal; lia).
  pose proof (pow2_pos (- (d - 53)) ltac:(lia)) as Hpos.
  rewrite binary_round_aux_exact.
  - exists mz, (d - 53). split; [done|]. split; [lia | done].
  - apply digits2_pos_unique. change (53 - 1) with 52. rewrite Hmz, H52, H53. split.
    + apply Z.mul_le_mono_nonneg_r; lia.
    + apply Z.mul_lt_mono_pos_r; lia.
  - lia.
Qed.

(** *** Quotients *)

(** A division without remainder is exact. *)
Lemma new_location_0 (nb : Z) : new_location nb 0 = loc_Exact.
Proof. unfold new_location, new_location_even, new_location_odd. by destruct (Z.even nb). Qed.

(** A double that is at most [b * n], divided by the double [n]. *)
Lemma SFdiv_atMost (scale b n : Z) (x : spec_float) (my : positive) (ey : Z) :
  2200 ≤ scale → 0 ≤ b < 2 ^ 53 → 0 < n →
  -1074 ≤ ey ≤ 0 → Zpos my = n * 2 ^ (- ey) →
  atMost scale (b * n) x →
  atMost scale b (SFdiv prec emax x (S754_finite false my ey)).
Proof.
  intros Hs Hb Hn Hey Hmy Hx. destruct x as [sx| | |sx mx ex]; simpl in Hx; try done.
  destruct Hx as (-> & Hex & Hx). unfold SFdiv, SFdiv_core_binary. cbn [xorb Zdigits2].
  pose proof (digits2_pos_bounds mx) as [Hmx _].
  pose proof (digits2_pos_bounds my) as [_ Hmy2].
  set (d1 := Zpos (digits2_pos mx)) in *. set (d2 := Zpos (digits2_pos my)) in *.
  assert (0 < d1 ∧ 0 < d2) as [Hd1 Hd2] by (unfold d1, d2; lia).
  set (A := 2 ^ scale). set (X := 2 ^ (ex + scale)). set (Y := 2 ^ (ey + scale)).
  assert (0 < A) as HA by (apply pow2_pos; lia).
  assert (0 < X) as HX by (apply pow2_pos; lia).
  assert (0 < Y) as HY by (apply pow2_pos; lia).
  fold A X in Hx.
  assert (Zpos my * Y = n * A) as HmyY.
  { rewrite Hmy, <- Z.mul_assoc. unfold Y, A. rewrite <- pow2_split by lia.
    do 2 f_equal. lia. }
  assert (d1 + ex - (d2 + ey) ≤ 53) as Hdigits.
  { assert (2 ^ (d1 - 1 + (ex + scale)) < 2 ^ (53 + d2 + (ey + scale))) as Hpow.
    { rewrite (pow2_split (d1 - 1)), (pow2_split (53 + d2)), (pow2_split 53) by lia.
      fold X Y.
      assert (2 ^ (d1 - 1) * X ≤ Zpos mx * X) by (apply Z.mul_le_mono_nonneg_r; lia).
      assert (b * n * A = b * Zpos my * Y) as Heq.
      { replace (b * Zpos my * Y) with (b * (Zpos my * Y)) by ring. rewrite HmyY. ring. }
      assert (b * Zpos my < 2 ^ 53 * 2 ^ d2)
        by (apply Z.mul_lt_mono_nonneg; lia).
      assert (b * Zpos my * Y < 2 ^ 53 * 2 ^ d2 * Y) by (apply Z.mul_lt_mono_pos_r; lia).
      lia. }
    apply Z.pow_lt_mono_r_iff in Hpow; lia. }
  set (e' := Z.min (fexp prec emax (d1 + ex - (d2 + ey))) (ex - ey)).
  assert (-1074 ≤ e' ≤ 0) as He'.
  { unfold e', fexp, emin. change prec with 53. change emax with 1024. lia. }
  set (s := ex - ey - e').
  assert (0 ≤ s) as Hs0 by (unfold s, e'; lia).
  set (m' := match s with
             | 0 => Zpos mx
             | Zpos _ => Z.shiftl (Zpos mx) s
             | Zneg _ => 0
             end).
  assert (m' = Zpos mx * 2 ^ s) as Hm'.
  { unfold m'. destruct s as [|k|k] eqn:Hk; [simpl; lia | | lia].
    by rewrite Z.shiftl_mul_pow2 by lia. }
  pose proof (Z_div_mod m' (Zpos my) ltac:(lia)) as Hdiv.
  destruct (Z.div_eucl m' (Zpos my)) as [q r]. destruct Hdiv as [Hqr Hr].
  set (P := 2 ^ s) in *. set (E := 2 ^ (e' + scale)).
  assert (0 < P) as HP by (apply pow2_pos; lia).
  assert (0 < E) as HE by (apply pow2_pos; lia).
  assert (P * E * Y = X * A) as Hexp.
  { unfold P, E, Y, X, A. rewrite <- !pow2_split by lia. f_equal. unfold s. lia. }
  assert (0 ≤ q) as Hq by nia.
  assert (q * E * (n * A) ≤ b * A * (n * A)
          ∧ (0 < r → q * E * (n * A) < b * A * (n * A))) as [Hle Hlt].
  { assert (q * E * (n * A) = Zpos my * q * (E * Y)) as -> by (rewrite <- HmyY; ring).
    assert (Zpos mx * P * (E * Y) = Zpos mx * X * A) as Hmid
      by (rewrite <- Z.mul_assoc, (Z.mul_assoc P), Hexp; ring).
    assert (Zpos mx * X * A ≤ b * A * (n * A)) as Hupper.
    { replace (b * A * (n * A)) with (b * n * A * A) by ring.
      apply Z.mul_le_mono_nonneg_r; lia. }
    assert (0 < E * Y) as HEY by lia.
    split.
    - assert (Zpos my * q * (E * Y) ≤ Zpos mx * P * (E * Y))
        by (apply Z.mul_le_mono_nonneg_r; lia).
      lia.
    - intros Hrpos.
      assert (Zpos my * q * (E * Y) < Zpos mx * P * (E * Y))
        by (apply Z.mul_lt_mono_pos_r; lia).
      lia. }
  assert (0 < n * A) as HnA by lia.
  apply binary_round_aux_le; [done | lia | lia | done |].
  fold E A. destruct (decide (r = 0)) as [-> | Hr0].
  - left. split; [apply new_location_0|].
    by apply (Z.mul_le_mono_pos_r _ _ (n * A) HnA).
  - right. split; [lia|].
    apply (Z.mul_lt_mono_pos_r (n * A) _ _ HnA). apply Hlt. lia.
Qed.

(** *** Percentages *)

(** The hundredfold of a probability is at most 100. *)
Lemma percentOfDouble_atMost (scale : Z) (p : float) :
  2200 ≤ scale →
  (0 <=? p)%float = true → (p <=? 1)%float = true →
  atMost scale 100 (Prim2SF (JS.percentOfDouble p)).
Proof.
  intros Hs Hlo Hhi. unfold JS.percentOfDouble. rewrite mul_spec.
  apply (SFmul_atMost scale 1 100); [done | lia | lia | done | |].
  - apply probability_atMost; [lia | done | done].
  - change (Prim2SF 100) with (S754_finite false 7036874417766400 (-46)).
    split; [done|]. split; [lia|].
    replace scale with (46 + (-46 + scale)) at 2 by lia.
    rewrite (pow2_split 46) by lia. change (2 ^ 46) with 70368744177664.
    pose proof (pow2_pos (-46 + scale) ltac:(lia)). lia.
Qed.

(** For a double [p] between 0 and 1, [Math.round(p * 100)] is an integer
    between 0 and 100. *)
Lemma percent_bound (p : float) :
  (0 <=? p)%float = true → (p <=? 1)%float = true →
  ∃ z, JS.Math_round_double (p * 100)%float = JS.Integer z ∧ 0 ≤ z ≤ 100.
Proof.
  intros Hlo Hhi. apply (Math_round_atMost 2200); [lia | lia |].
  by apply percentOfDouble_atMost.
Qed.

(** The rounded mean of percentages is an integer between 0 and 100. *)
Lemma mean_percent (xs : list float) :
  xs ≠ [] → Z.of_nat (length xs) < 2 ^ 32 →
  Forall (λ x, atMost 2200 100 (Prim2SF x)) xs →
  ∃ z, JS.Math_round_double (JS.sum xs / JS.lengthOf xs)%float = JS.Integer z ∧ 0 ≤ z ≤ 100.
Proof.
  intros Hne Hlen Hall.
  set (n := Z.of_nat (length xs)) in *.
  assert (0 < n) as Hn by (unfold n; destruct xs; [done | simpl; lia]).
  apply (Math_round_atMost 2200); [lia | lia |]. rewrite div_spec.
  destruct (of_uint63_of_Z n) as (m & e & Hm & He & Hme).
  { split; [done|]. change (2 ^ 53) with (2 ^ 32 * 2097152). lia. }
  unfold JS.lengthOf. fold n. rewrite Hm.
  apply (SFdiv_atMost 2200 100 n); [lia | done | done | done | done |].
  unfold JS.sum.
  pose proof (sum_atMost 2200 100 xs 0%float 0 ltac:(lia) ltac:(lia) ltac:(lia)) as Hsum.
  rewrite Z.add_0_l in Hsum. fold n in Hsum. apply Hsum; [|done|done].
  change (2 ^ 53) with (2 ^ 32 * 2097152). lia.
Qed.

(** The double nearest to 0.42 gives 42.  The double nearest to 0.015
    lies below 0.015 and its exact hundredfold rounds to 1, but the
    product on doubles is 1.5, which rounds to 2. *)
Example percent_of_doubles :
  JS.percentOfDouble 0.42 = 42%float
  ∧ JS.Math_round_double (0.015 * 100) = JS.Integer 2
  ∧ Prim2SF 0.015 = S754_finite false 8646911284551352 (-59)
  ∧ JS.Math_round (JS.valueOf false 8646911284551352 (-59) * 100) = 1.
Proof. repeat split; by vm_compute. Qed.

End DoubleFacts.

(** ** Forecast aggregation *)
Module WeatherPageFacts.
Import WeatherPage DoubleFacts.

(** *** First minimum of a list

    Both "closest to noon" and "closest to now" keep a running best that
    only a strictly smaller distance replaces. *)
Section first_minimum.
Context {A : Type} (dist : A → Z).

Local Abbreviation FirstMin := (FirstMin dist).

Lemma FirstMin_singleton x : FirstMin [x] 0 x.
Proof.
  split; [done|]. intros [|j] y Hy; [|done].
  injection Hy as <-. split; lia.
Qed.

Lemma FirstMin_snoc_keep l i x y :
  FirstMin l i x → ¬ dist y < dist x → FirstMin (l ++ [y]) i x.
Proof.
  intros [Hi Hmin] Hge. split; [by apply lookup_app_l_Some|].
  intros j z Hz. apply lookup_app_Some in Hz as [Hz | [Hj Hz]]; [by apply Hmin|].
  apply list_lookup_singleton_Some in Hz as [_ <-].
  split; [lia|]. intros Hlt. apply lookup_lt_Some in Hi. lia.
Qed.

Lemma FirstMin_snoc_replace l i x y :
  FirstMin l i x → dist y < dist x → FirstMin (l ++ [y]) (length l) y.
Proof.
  intros [Hi Hmin] Hlt. split.
  - rewrite lookup_app_r, Nat.sub_diag by lia. done.
  - intros j z Hz. apply lookup_app_Some in Hz as [Hz | [Hj Hz]].
    + destruct (Hmin j z Hz) as [Hle _]. split; lia.
    + apply list_lookup_singleton_Some in Hz as [_ <-]. split; lia.
Qed.

End first_minimum.

Lemma FirstMin_unique {A} (dist : A → Z) l i x i' x' :
  FirstMin dist l i x → FirstMin dist l i' x' → i = i' ∧ x = x'.
Proof.
  intros [Hi Hmin] [Hi' Hmin'].
  destruct (Hmin i' x' Hi') as [Hle Hlt]. destruct (Hmin' i x Hi) as [Hle' Hlt'].
  assert (i = i') as <- by (destruct (Nat.lt_trichotomy i i') as [?|[?|?]]; [lia|done|lia]).
  split; [done | congruence].
Qed.

(** *** Rounding *)

Lemma Math_round_mono x y : (x <= y)%Q → JS.Math_round x ≤ JS.Math_round y.
Proof. intros Hxy. apply Qfloor_resp_le. lra. Qed.

(** *** Minimum and maximum *)

(** [Math.min] returns one of its arguments, and none is smaller. *)
Lemma Math_min_spec t ts :
  JS.Math_min t ts ∈ t :: ts ∧ ∀ x, x ∈ t :: ts → (JS.Math_min t ts <= x)%Q.
Proof.
  unfold JS.Math_min. revert t. induction ts as [|y ts IH]; intros t; simpl.
  - split; [left|]. intros x ->%list_elem_of_singleton. lra.
  - destruct (IH (JS.Qmin2 t y)) as [Hin Hle].
    assert ((JS.Qmin2 t y = t ∧ (t <= y)%Q) ∨ (JS.Qmin2 t y = y ∧ (y <= t)%Q)) as Hmin.
    { unfold JS.Qmin2. destruct (Qle_bool t y) eqn:Hty.
      - left. split; [done|]. by apply Qle_bool_iff.
      - right. split; [done|]. apply Qlt_le_weak, Qnot_le_lt.
        intros Hle'%Qle_bool_iff. congruence. }
    assert (foldl JS.Qmin2 (JS.Qmin2 t y) ts <= JS.Qmin2 t y)%Q as Hm by (apply Hle; left).
    set (m := foldl JS.Qmin2 (JS.Qmin2 t y) ts) in *. clearbody m.
    split.
    + apply elem_of_cons in Hin as [-> | Hin].
      * destruct Hmin as [[-> _] | [-> _]]; [left | right; left].
      * by do 2 right.
    + intros x [-> | [-> | Hx]%elem_of_cons]%elem_of_cons.
      * destruct Hmin as [[Heq ?] | [Heq ?]]; rewrite Heq in Hm; lra.
      * destruct Hmin as [[Heq ?] | [Heq ?]]; rewrite Heq in Hm; lra.
      * apply Hle. by right.
Qed.

(** [Math.max] returns one of its arguments, and none is greater. *)
Lemma Math_max_spec t ts :
  JS.Math_max t ts ∈ t :: ts ∧ ∀ x, x ∈ t :: ts → (x <= JS.Math_max t ts)%Q.
Proof.
  unfold JS.Math_max. revert t. induction ts as [|y ts IH]; intros t; simpl.
  - split; [left|]. intros x ->%list_elem_of_singleton. lra.
  - destruct (IH (JS.Qmax2 t y)) as [Hin Hle].
    assert ((JS.Qmax2 t y = y ∧ (t <= y)%Q) ∨ (JS.Qmax2 t y = t ∧ (y <= t)%Q)) as Hmax.
    { unfold JS.Qmax2. destruct (Qle_bool t y) eqn:Hty.
      - left. split; [done|]. by apply Qle_bool_iff.
      - right. split; [done|]. apply Qlt_le_weak, Qnot_le_lt.
        intros Hle'%Qle_bool_iff. congruence. }
    assert (JS.Qmax2 t y <= foldl JS.Qmax2 (JS.Qmax2 t y) ts)%Q as Hm by (apply Hle; left).
    set (m := foldl JS.Qmax2 (JS.Qmax2 t y) ts) in *. clearbody m.
    split.
    + apply elem_of_cons in Hin as [-> | Hin].
      * destruct Hmax as [[-> _] | [-> _]]; [right; left | left].
      * by do 2 right.
    + intros x [-> | [-> | Hx]%elem_of_cons]%elem_of_cons.
      * destruct Hmax as [[Heq ?] | [Heq ?]]; rewrite Heq in Hm; lra.
      * destruct Hmax as [[Heq ?] | [Heq ?]]; rewrite Heq in Hm; lra.
      * apply Hle. by right.
Qed.

(** *** The chance of rain *)

Lemma currentForecast_FirstMin forecastList now :
  match currentForecast forecastList now with
  | None => forecastList = []
  | Some f => ∃ i, FirstMin (fromNow now) forecastList i f
  end.
Proof.
  unfold currentForecast.
  induction forecastList as [|g l IH] using rev_ind; [done|].
  rewrite foldl_snoc. destruct (foldl (closer now) None l) as [c|]; simpl.
  - destruct IH as [i Hmin]. case_bool_decide as Hlt.
    + exists (length l). by eapply FirstMin_snoc_replace.
    + exists i. by apply FirstMin_snoc_keep.
  - subst l. exists 0%nat. apply FirstMin_singleton.
Qed.

(** Without current conditions the chance shown is 0. *)
Lemma rainChance_no_current forecastList now :
  rainChance None now = JS.Integer 0
  ∧ rainChance (Some {| current := None; daily := forecastList |}) now = JS.Integer 0.
Proof. done. Qed.

(** C5: [rainChance] takes the forecast entry nearest to [now], the first
    one among equally near ones; with a [pop] on that entry the result is
    [Math.round(pop * 100)], the product being the one of doubles, so 42
    for 0.42; without one, or without any entry, it is 10 when the current
    conditions carry [rain] and 0 otherwise; with every [pop] between 0
    and 1 the result is an integer between 0 and 100. *)
Theorem rainChance_spec (cur : CurrentConditions)
    (forecastList : option (list ForecastEntry)) (now : Z) :
  let result := rainChance (Some {| current := Some cur; daily := forecastList |}) now in
  let fallback := match rain cur with Some _ => JS.Integer 10 | None => JS.Integer 0 end in
  match forecastList with
  | None | Some [] => result = fallback
  | Some l =>
      ∃ i f, FirstMin (fromNow now) l i f
             ∧ (∀ i' f', FirstMin (fromNow now) l i' f' → i' = i ∧ f' = f)
             ∧ result = match pop f with
                        | Some p => JS.Math_round_double (p * 100)%float
                        | None => fallback
                        end
             ∧ (pop f = Some 0.42%float → result = JS.Integer 42)
  end
  ∧ ((∀ f p, f ∈ default [] forecastList → pop f = Some p →
             (0 <=? p)%float = true ∧ (p <=? 1)%float = true) →
     ∃ z, result = JS.Integer z ∧ 0 ≤ z ≤ 100).
Proof.
  intros result fallback. subst result. unfold rainChance. simpl.
  destruct forecastList as [l|]; simpl.
  - pose proof (currentForecast_FirstMin l now) as Hsel.
    destruct (currentForecast l now) as [f|] eqn:Hf; simpl.
    + destruct Hsel as [i Hmin].
      split.
      * destruct l as [|g l']; [by destruct Hmin as [? _]|].
        exists i, f. split; [done|]. split.
        { intros i' f' Hmin'. by destruct (FirstMin_unique _ _ _ _ _ _ Hmin' Hmin). }
        split; [done|]. intros ->. by vm_compute.
      * intros Hpop. destruct (pop f) as [p|] eqn:Hp.
        -- destruct Hmin as [Hi _]. apply list_elem_of_lookup_2 in Hi.
           destruct (Hpop f p Hi Hp). by apply percent_bound.
        -- destruct (rain cur); eexists; (split; [done | lia]).
    + subst l. split; [done|]. intros _. destruct (rain cur); eexists; (split; [done | lia]).
  - split; [done|]. intros _. destruct (rain cur); eexists; (split; [done | lia]).
Qed.

(** *** The [dailyData] object as an association list *)

Lemma lookupDay_app k d e :
  lookupDay k (d ++ e) = match lookupDay k d with
                         | Some b => Some b
                         | None => lookupDay k e
                         end.
Proof.
  induction d as [|[k' b] d IH]; simpl; [done|]. by destruct (decide (k' = k)).
Qed.

Lemma lookupDay_alterDay g k k' d :
  lookupDay k (alterDay g k' d)
  = if decide (k' = k) then g <$> lookupDay k d else lookupDay k d.
Proof.
  induction d as [|[k0 b] d IH]; simpl; [by destruct (decide (k' = k))|].
  destruct (decide (k0 = k')) as [-> | Hne]; simpl.
  - by destruct (decide (k' = k)).
  - rewrite IH. destruct (decide (k0 = k)) as [-> | Hne']; [|done].
    by destruct (decide (k' = k)) as [-> | _].
Qed.

Lemma alterDay_keys g k d : (alterDay g k d).*1 = d.*1.
Proof.
  induction d as [|[k0 b] d IH]; simpl; [done|].
  destruct (decide (k0 = k)); simpl; [done | f_equal; apply IH].
Qed.

Lemma lookupDay_None k d : lookupDay k d = None ↔ k ∉ d.*1.
Proof.
  induction d as [|[k0 b] d IH]; simpl.
  - split; [intros _ Hin; by apply elem_of_nil in Hin | done].
  - rewrite not_elem_of_cons. destruct (decide (k0 = k)) as [-> | Hne].
    + split; [done | intros [? _]; done].
    + rewrite IH. split; [intros ?; split; [congruence | done] | tauto].
Qed.

Lemma lookupDay_elem_of k b d : NoDup d.*1 → (k, b) ∈ d → lookupDay k d = Some b.
Proof.
  induction d as [|[k0 b0] d IH]; simpl; intros Hnd Hin.
  - by apply elem_of_nil in Hin.
  - apply NoDup_cons in Hnd as [Hk0 Hnd].
    apply elem_of_cons in Hin as [[= -> ->] | Hin].
    + by rewrite decide_True.
    + destruct (decide (k0 = k)) as [-> | Hne]; [|by apply IH].
      destruct Hk0. apply list_elem_of_fmap. by exists (k, b).
Qed.

Lemma lookupDay_Some_elem_of k b d : lookupDay k d = Some b → (k, b) ∈ d.
Proof.
  induction d as [|[k0 b0] d IH]; simpl; [done|].
  destruct (decide (k0 = k)) as [-> | Hne].
  - intros [= ->]. left.
  - intros Hl. right. by apply IH.
Qed.

(** *** Sorted lists *)

Lemma StronglySorted_sublist {A} (R : relation A) (l k : list A) :
  k `sublist_of` l → StronglySorted R l → StronglySorted R k.
Proof.
  induction 1 as [|x k l Hsub IH|x k l Hsub IH]; intros Hs; [done| |].
  - apply StronglySorted_inv in Hs as [Hl Hx]. constructor; [by apply IH|].
    rewrite Forall_forall in *. intros y Hy. apply Hx.
    by eapply elem_of_sublist.
  - apply StronglySorted_inv in Hs as [Hl _]. by apply IH.
Qed.

Lemma StronglySorted_lookup {A} (R : relation A) (l : list A) i j x y :
  StronglySorted R l → l !! i = Some x → l !! j = Some y → (i < j)%nat → R x y.
Proof.
  intros Hs. revert i j. induction Hs as [|a l Hs IH Ha]; intros i j Hi Hj Hij; [done|].
  destruct j as [|j]; [lia|]. simpl in Hj. destruct i as [|i]; simpl in Hi.
  - injection Hi as <-. rewrite Forall_forall in Ha.
    by eapply Ha, list_elem_of_lookup_2.
  - apply (IH i j); [done | done | lia].
Qed.

(** A list sorted by a key that no two elements share is strictly sorted. *)
Lemma StronglySorted_strict {A} (key : A → Z) (l : list A) :
  StronglySorted (λ a b, key a ≤ key b) l → NoDup (key <$> l) →
  StronglySorted (λ a b, key a < key b) l.
Proof.
  induction 1 as [|a l Hs IH Ha]; intros Hnd; [constructor|].
  rewrite fmap_cons in Hnd. apply NoDup_cons in Hnd as [Hnew Hnd].
  constructor; [by apply IH|].
  rewrite Forall_forall in *. intros b Hb. specialize (Ha b Hb).
  assert (key a ≠ key b); [|lia].
  intros Heq. apply Hnew. rewrite Heq. by apply list_elem_of_fmap_2.
Qed.

(** *** Zones without daylight saving time *)
Section fixed_zone.
Context (utcOffset : Z).

Local Abbreviation zone := (LocalTime.fixed utcOffset).
Local Abbreviation forecastDate := (forecastDate zone).
Local Abbreviation dayKey := (dayKey zone).
Local Abbreviation localDay := (LocalTime.localDay zone).

(** *** Days *)

(** Local midnight is a whole number of days after the zone's epoch. *)
Lemma startOfDay_localDay t :
  LocalTime.startOfDay zone t = LocalTime.msPerDay * localDay t - utcOffset.
Proof.
  unfold LocalTime.startOfDay, LocalTime.utc, LocalTime.localDay, LocalTime.localTime,
    LocalTime.msPerDay. simpl.
  pose proof (Z.div_mod (t + utcOffset) 86400000). lia.
Qed.

(** The day string is the local date, shifted by a constant of the zone. *)
Lemma isoDate_startOfDay t :
  LocalTime.isoDate (LocalTime.startOfDay zone t)
  = localDay t + (- utcOffset) `div` LocalTime.msPerDay.
Proof.
  rewrite startOfDay_localDay. unfold LocalTime.isoDate, LocalTime.msPerDay.
  replace (86400000 * localDay t - utcOffset)
    with (localDay t * 86400000 + (- utcOffset)) by lia.
  apply Z.div_add_l. lia.
Qed.

(** The entries of one day string are those of one local date. *)
Lemma dayKey_localDay f g :
  dayKey f = dayKey g ↔ localDay (dt f * 1000) = localDay (dt g * 1000).
Proof.
  unfold WeatherPage.dayKey, WeatherPage.forecastDate.
  rewrite !isoDate_startOfDay. lia.
Qed.

(** The local date of a day's midnight is the date of the day. *)
Lemma localDay_startOfDay t : localDay (LocalTime.startOfDay zone t) = localDay t.
Proof.
  rewrite startOfDay_localDay.
  unfold LocalTime.localDay at 1. unfold LocalTime.localTime. simpl.
  unfold LocalTime.msPerDay.
  replace (86400000 * localDay t - utcOffset + utcOffset) with (localDay t * 86400000) by lia.
  apply Z.div_mul. lia.
Qed.

End fixed_zone.

Section zone.
Context (zone : LocalTime.Zone).

Local Abbreviation forecastDate := (forecastDate zone).
Local Abbreviation forecastHour := (forecastHour zone).
Local Abbreviation timeDiffFromNoon := (timeDiffFromNoon zone).
Local Abbreviation dayKey := (dayKey zone).
Local Abbreviation visit := (visit zone).
Local Abbreviation addForecast := (addForecast zone).
Local Abbreviation groupByDay := (groupByDay zone).
Local Abbreviation buildFiveDay := (buildFiveDay zone).
Local Abbreviation localDay := (LocalTime.localDay zone).
Local Abbreviation dayEntries := (dayEntries zone).
Local Abbreviation dayBucket := (dayBucket zone).
Local Abbreviation shownDays := (shownDays zone).
Local Abbreviation onLocalDay := (onLocalDay zone).

(** The local hour of an entry is an hour of the day. *)
Lemma forecastHour_range f : 0 ≤ forecastHour f < 24.
Proof.
  unfold WeatherPage.forecastHour, LocalTime.getHours, LocalTime.msPerDay,
    LocalTime.msPerHour.
  pose proof (Z.mod_pos_bound (LocalTime.localTime zone (dt f * 1000)) 86400000).
  split; [apply Z.div_pos; lia | apply Z.div_lt_upper_bound; lia].
Qed.

(** *** One step of the loop *)

Lemma lookupDay_addForecast k d f :
  lookupDay k (addForecast d f)
  = if decide (dayKey f = k)
    then Some (visit f (default (emptyBucket (forecastDate f)) (lookupDay k d)))
    else lookupDay k d.
Proof.
  unfold WeatherPage.addForecast.
  destruct (lookupDay (dayKey f) d) as [b|] eqn:Hl;
    rewrite lookupDay_alterDay; destruct (decide (dayKey f = k)) as [<- | Hne].
  - by rewrite Hl.
  - done.
  - rewrite lookupDay_app, Hl. simpl. by rewrite decide_True.
  - rewrite lookupDay_app. destruct (lookupDay k d); [done|].
    simpl. by rewrite decide_False.
Qed.

Lemma addForecast_keys d f :
  (addForecast d f).*1 = if decide (dayKey f ∈ d.*1) then d.*1 else d.*1 ++ [dayKey f].
Proof.
  unfold WeatherPage.addForecast. rewrite alterDay_keys.
  destruct (lookupDay (dayKey f) d) as [b|] eqn:Hl.
  - rewrite decide_True; [done|].
    destruct (decide (dayKey f ∈ d.*1)) as [|Hnot]; [done|].
    apply lookupDay_None in Hnot. congruence.
  - apply lookupDay_None in Hl. rewrite decide_False by done. by rewrite fmap_app.
Qed.

(** *** The whole loop *)

Lemma lookupDay_groupByDay k forecastList :
  lookupDay k (groupByDay forecastList) = dayBucket (dayEntries k forecastList).
Proof.
  unfold WeatherPage.groupByDay, dayBucket, dayEntries.
  induction forecastList as [|f l IH] using rev_ind; [done|].
  rewrite foldl_snoc, lookupDay_addForecast, filter_app, IH.
  destruct (decide (dayKey f = k)) as [Hk | Hk].
  - rewrite filter_cons_True, filter_nil by done. by rewrite foldl_snoc.
  - rewrite filter_cons_False, filter_nil by done. by rewrite app_nil_r.
Qed.

Lemma groupByDay_keys forecastList : NoDup (groupByDay forecastList).*1.
Proof.
  unfold WeatherPage.groupByDay.
  induction forecastList as [|f l IH] using rev_ind; [constructor|].
  rewrite foldl_snoc, addForecast_keys.
  destruct (decide _) as [|Hnew]; [done|].
  apply NoDup_app. split; [done|]. split; [|apply NoDup_singleton].
  intros k Hk ->%list_elem_of_singleton. done.
Qed.

(** *** The bucket of one day *)

Lemma visit_fields g b :
  date (visit g b) = date b
  ∧ temps (visit g b) = temps b ++ omap tempSample [g]
  ∧ pops (visit g b) = pops b ++ omap popSample [g]
  ∧ bweather (visit g b) = bweather (noteWeather zone g b)
  ∧ noonTimeDiff (visit g b) = noonTimeDiff (noteWeather zone g b).
Proof.
  unfold WeatherPage.visit, notePop, noteTemp, noteWeather, popSample.
  cbn [omap list_omap].
  destruct (pop g), (tempSample g), (JS.lt_ext _ _); simpl;
    rewrite ?app_nil_r; done.
Qed.

(** The bucket of a day holds the [forecastDate] of its first entry, one
    temperature per entry that yields a sample, one percentage per entry
    with a [pop], and the weather of the first entry nearest to noon. *)
Lemma dayBucket_spec entries :
  match dayBucket entries with
  | None => entries = []
  | Some b =>
      (∃ f0, head entries = Some f0 ∧ date b = forecastDate f0)
      ∧ temps b = omap tempSample entries
      ∧ pops b = omap popSample entries
      ∧ ∃ i f, FirstMin timeDiffFromNoon entries i f
               ∧ bweather b = head (weather f)
               ∧ noonTimeDiff b = JS.Fin (timeDiffFromNoon f)
  end.
Proof.
  unfold dayBucket. induction entries as [|g l IH] using rev_ind; [done|].
  rewrite foldl_snoc, !omap_app.
  destruct (foldl _ None l) as [b|]; simpl default.
  - destruct IH as ((f0 & Hhead & Hdate) & Htemps & Hpops & i & f & Hmin & Hw & Hdiff).
    destruct (visit_fields g b) as (-> & -> & -> & -> & ->).
    rewrite Htemps, Hpops. split; [|split; [done|split; [done|]]].
    + exists f0. split; [|done]. by destruct l.
    + unfold noteWeather. rewrite Hdiff. simpl. case_bool_decide as Hlt; simpl.
      * exists (length l), g. split; [|done]. by eapply FirstMin_snoc_replace.
      * exists i, f. split; [|done]. by apply FirstMin_snoc_keep.
  - subst l.
    destruct (visit_fields g (emptyBucket (forecastDate g))) as (-> & -> & -> & -> & ->).
    simpl. split; [by exists g|]. split; [done|]. split; [done|].
    exists 0%nat, g. split; [apply FirstMin_singleton | done].
Qed.

(** *** The sorted, filtered, cut list of days *)

Global Instance byDate_total : Total byDate.
Proof. intros a b. unfold byDate. lia. Qed.
Global Instance byDate_transitive : Transitive byDate.
Proof. intros a b c. unfold byDate. lia. Qed.

Lemma buildFiveDay_shownDays forecastList today :
  buildFiveDay forecastList today = imap (dayView zone) (shownDays forecastList today).
Proof. done. Qed.

Lemma shownDays_sublist forecastList today :
  shownDays forecastList today
    `sublist_of` merge_sort byDate ((groupByDay forecastList).*2).
Proof. unfold shownDays. etrans; [apply sublist_take | apply sublist_filter]. Qed.

(** Each bucket is filed under the day string of its own date. *)
Lemma groupByDay_date k b forecastList :
  (k, b) ∈ groupByDay forecastList → LocalTime.isoDate (date b) = k.
Proof.
  intros Hin. apply lookupDay_elem_of in Hin; [|apply groupByDay_keys].
  rewrite lookupDay_groupByDay in Hin.
  pose proof (dayBucket_spec (dayEntries k forecastList)) as Hb. rewrite Hin in Hb.
  destruct Hb as ((f0 & Hhead & ->) & _).
  assert (f0 ∈ dayEntries k forecastList) as [Hk _]%list_elem_of_filter.
  { destruct (dayEntries k forecastList); [done|]. injection Hhead as ->. left. }
  done.
Qed.

Lemma groupByDay_dates forecastList : NoDup (date <$> (groupByDay forecastList).*2).
Proof.
  apply (NoDup_fmap_1 LocalTime.isoDate). rewrite <- !list_fmap_compose.
  erewrite list_fmap_ext; [apply groupByDay_keys|].
  intros i [k b] Hi. simpl. by eapply groupByDay_date, list_elem_of_lookup_2.
Qed.

Lemma shownDays_sorted forecastList today :
  StronglySorted (λ a b, date a < date b) (shownDays forecastList today).
Proof.
  eapply StronglySorted_sublist; [apply shownDays_sublist|].
  apply (StronglySorted_strict date).
  - apply (StronglySorted_merge_sort byDate).
  - rewrite merge_sort_Permutation. apply groupByDay_dates.
Qed.

Lemma shownDays_elem_of b forecastList today :
  b ∈ shownDays forecastList today →
  today ≤ date b ∧ ∃ k, lookupDay k (groupByDay forecastList) = Some b.
Proof.
  unfold shownDays. intros Hin.
  assert (b ∈ filter (λ day, today ≤ date day)
                (merge_sort byDate ((groupByDay forecastList).*2))) as Hin'.
  { eapply elem_of_sublist; [done | apply sublist_take]. }
  apply list_elem_of_filter in Hin' as [Hdate Hb]. split; [done|].
  rewrite merge_sort_Permutation in Hb.
  apply list_elem_of_fmap in Hb as ([k b'] & -> & Hb). exists k.
  apply lookupDay_elem_of; [apply groupByDay_keys | done].
Qed.

(** C4: for every forecast list and every [today], [buildFiveDay] returns
    at most 5 entries, none of a day before [today], in strictly increasing
    order of date. *)
Theorem buildFiveDay_bounds (forecastList : list ForecastEntry) (today : Z) :
  let days := buildFiveDay forecastList today in
  (length days ≤ 5)%nat
  ∧ (∀ day, day ∈ days → today ≤ day_date day)
  ∧ (∀ i j a b, days !! i = Some a → days !! j = Some b → (i < j)%nat →
       day_date a < day_date b).
Proof.
  intros days. subst days. rewrite buildFiveDay_shownDays. split; [|split].
  - rewrite length_imap. unfold shownDays. rewrite length_take. lia.
  - intros day (i & b & -> & Hb)%elem_of_lookup_imap. simpl.
    by apply list_elem_of_lookup_2, shownDays_elem_of in Hb as [? _].
  - intros i j a b Ha Hb Hij. rewrite list_lookup_imap in Ha, Hb.
    destruct (shownDays forecastList today !! i) as [a'|] eqn:Ha'; [|done].
    destruct (shownDays forecastList today !! j) as [b'|] eqn:Hb'; [|done].
    injection Ha as <-. injection Hb as <-. simpl.
    exact (StronglySorted_lookup (λ a b, date a < date b) _ i j a' b'
             (shownDays_sorted forecastList today) Ha' Hb' Hij).
Qed.

(** *** One day of the view *)

(** A bucket that reaches the view was built from exactly the entries
    filed under the day string of its date. *)
Lemma shownDays_bucket b forecastList today :
  b ∈ shownDays forecastList today →
  dayBucket (dayEntries (LocalTime.isoDate (date b)) forecastList) = Some b.
Proof.
  intros [_ [k Hk]]%shownDays_elem_of.
  rewrite (groupByDay_date k b forecastList) by (by apply lookupDay_Some_elem_of).
  by rewrite <- lookupDay_groupByDay.
Qed.

Lemma buildFiveDay_elem_of day forecastList today :
  day ∈ buildFiveDay forecastList today →
  ∃ i b, day = dayView zone i b ∧ b ∈ shownDays forecastList today.
Proof.
  rewrite buildFiveDay_shownDays. intros (i & b & -> & Hb)%elem_of_lookup_imap.
  exists i, b. split; [done|]. by eapply list_elem_of_lookup_2.
Qed.

(** The temperatures of a day of [buildFiveDay]: over the samples its
    entries yield, the rounded least and the rounded greatest one, and 0
    for both when no entry yields a sample. *)
Lemma fiveDay_temperatures forecastList today day :
  day ∈ buildFiveDay forecastList today →
  match omap tempSample (dayEntries (LocalTime.isoDate (day_date day)) forecastList) with
  | [] => minTemp day = 0 ∧ maxTemp day = 0
  | t :: ts =>
      ∃ lo hi, lo ∈ t :: ts ∧ hi ∈ t :: ts
               ∧ (∀ x, x ∈ t :: ts → (lo <= x)%Q ∧ (x <= hi)%Q)
               ∧ minTemp day = JS.Math_round lo ∧ maxTemp day = JS.Math_round hi
  end.
Proof.
  intros (idx & b & -> & Hb)%buildFiveDay_elem_of. simpl.
  pose proof (dayBucket_spec (dayEntries (LocalTime.isoDate (date b)) forecastList)) as Hspec.
  rewrite (shownDays_bucket _ _ _ Hb) in Hspec.
  destruct Hspec as (_ & <- & _).
  destruct (temps b) as [|t ts]; [done|].
  destruct (Math_min_spec t ts) as [Hlo Hmin], (Math_max_spec t ts) as [Hhi Hmax].
  exists (JS.Math_min t ts), (JS.Math_max t ts). naive_solver.
Qed.

(** An entry whose [main.temp] is not 0 yields it as its sample; one whose
    [main.temp] is 0 yields only its top-level [temp], if it has one. *)
Lemma tempSample_main f m t :
  main f = Some m → main_temp m = Some t →
  tempSample f = if Qeq_bool t 0 then temp f else Some t.
Proof.
  intros Hm Ht. unfold tempSample. rewrite Hm. simpl. rewrite Ht. simpl.
  unfold JS.truthy. by destruct (Qeq_bool t 0).
Qed.

End zone.

(** In a zone without daylight saving time, entries with the same day
    string have the same [forecastDate]. *)
Lemma same_day_same_date (zone : LocalTime.Zone) (utcOffset : Z) (f g : ForecastEntry) :
  zone = LocalTime.fixed utcOffset →
  dayKey zone f = dayKey zone g → forecastDate zone f = forecastDate zone g.
Proof.
  intros -> Hkey%dayKey_localDay. unfold forecastDate.
  rewrite !startOfDay_localDay. by rewrite Hkey.
Qed.

(** In a zone without daylight saving time, the entries filed under the
    day string of a row are the entries of the row's local calendar
    date. *)
Lemma shownDays_localDay (zone : LocalTime.Zone) (utcOffset : Z) b forecastList today :
  zone = LocalTime.fixed utcOffset →
  b ∈ shownDays zone forecastList today →
  dayEntries zone (LocalTime.isoDate (date b)) forecastList
  = onLocalDay zone (LocalTime.localDay zone (date b)) forecastList.
Proof.
  intros -> Hb.
  pose proof (dayBucket_spec (LocalTime.fixed utcOffset)
                (dayEntries (LocalTime.fixed utcOffset) (LocalTime.isoDate (date b))
                   forecastList)) as Hspec.
  rewrite (shownDays_bucket _ _ _ _ Hb) in Hspec.
  destruct Hspec as ((f0 & _ & Hdate) & _).
  unfold dayEntries, onLocalDay. apply list_filter_iff. intros f.
  rewrite Hdate. change (LocalTime.isoDate (forecastDate (LocalTime.fixed utcOffset) f0))
    with (dayKey (LocalTime.fixed utcOffset) f0).
  unfold forecastDate. rewrite localDay_startOfDay. apply dayKey_localDay.
Qed.


End WeatherPageFacts.

(** ** Forecast aggregation on sample data *)
Module WeatherPageExamples.
Import WeatherPage WeatherPageFacts Samples.

(** Entries at 9, 12 and 15 o'clock with the temperatures 10, 15 and 12:
    one day, from 10 to 15 degrees, with the icon of 12 o'clock. *)
Example threeEntries_view : buildFiveDay cet threeEntries today = [noonDay].
Proof. vm_compute. reflexivity. Qed.


(** Where the clocks change, two local dates can share a day string.  In
    London, local midnight of Sunday 2024-03-31 is 00:00 UTC and local
    midnight of Monday 2024-04-01 is 23:00 UTC of the Sunday: an entry of
    Sunday morning and one of Monday noon are filed under 2024-03-31, and
    the view has one row, dated Sunday, with the icon and the highest
    temperature of Monday noon. *)
Example london_summer_time :
  dayKey europeLondon <$> londonEntries = [19813; 19813]
  ∧ LocalTime.localDay europeLondon <$> ((λ f, dt f * 1000) <$> londonEntries) = [19813; 19814]
  ∧ buildFiveDay europeLondon londonEntries 0
    = [ {| index := 0; dayName := 0; day_date := 1711843200000;
           minTemp := 8; maxTemp := 14; day_pop := JS.Integer 0;
           day_weather := Some {| icon := "01d"; description := "clear sky" |} |} ].
Proof. vm_compute. repeat split; reflexivity. Qed.

(** Entries at 11 and 13 o'clock are equally near to noon: the first wins. *)
Example noon_tie :
  day_weather <$> buildFiveDay cet [entry 0 11 3 "13d" None; entry 0 13 4 "01d" None] today
  = [Some {| icon := "13d"; description := "" |}].
Proof. vm_compute. reflexivity. Qed.

(** C2, where the code departs from it: a day with the temperatures 0, 4
    and 2.  The rounded minimum over the three readings is 0, but the
    reading 0 is falsy in [main.temp || temp] and yields no sample, so the
    day is shown with a minimum of 2. *)
Lemma fiveDay_zero_reading_dropped :
  omap tempSample freezing = [4 # 1; 2 # 1]%Q
  ∧ (minTemp <$> buildFiveDay cet freezing today) = [2]
  ∧ JS.Math_round (JS.Math_min 0 [4 # 1; 2 # 1]%Q) = 0.
Proof. vm_compute. repeat split; reflexivity. Qed.

(** A week of entries seen on Wednesday: Monday and Tuesday are dropped,
    the five days from Wednesday follow in order. *)
Example week_from_wednesday :
  (λ day, (day_date day - today) `div` 86400000) <$> buildFiveDay cet week (today + 2 * 86400000)
  = [2; 3; 4; 5; 6].
Proof. vm_compute. reflexivity. Qed.

(** The theorem of C5 at the three entries, shortly before noon: the
    result is a percentage. *)
Lemma rainChance_spec_witness :
  ∃ z, rainChance (Some {| current := Some dry; daily := Some threeEntries |})
         (monday + 43000) = JS.Integer z
       ∧ 0 ≤ z ≤ 100.
Proof.
  apply (proj2 (rainChance_spec dry (Some threeEntries) (monday + 43000))).
  intros f p Hin Hp. simpl in Hin.
  repeat (apply elem_of_cons in Hin as [-> | Hin]);
    [| | | by apply elem_of_nil in Hin];
    injection Hp as <-; split; vm_compute; reflexivity.
Defined.

(** The entry nearest to now has [pop = 0.42]: the chance shown is 42. *)
Example rainChance_42 :
  rainChance (Some {| current := Some dry; daily := Some threeEntries |}) (monday + 43000)
  = JS.Integer 42.
Proof. vm_compute. reflexivity. Qed.

(** No forecast, but rain in the current conditions: the chance shown is 10. *)
Example rainChance_raining :
  rainChance (Some {| current := Some {| cur_dt := 0; cur_temp := 5; cur_weather := [];
                                         rain := Some (3 # 10) |};
                      daily := None |}) 0 = JS.Integer 10.
Proof. reflexivity. Qed.

End WeatherPageExamples.

(** ** Weather icons *)
Module WeatherIconsFacts.
Import WeatherIcons.
Local Open Scope nat_scope.

Lemma string_length_app (a b : string) :
  String.length (a +:+ b) = String.length a + String.length b.
Proof. induction a as [|c a IH]; simpl; [done | by rewrite IH]. Qed.

Lemma string_app_inj_r (s a b : string) : a +:+ s = b +:+ s → a = b.
Proof.
  revert b. induction a as [|c a IH]; intros [|d b] Heq; simpl in *.
  - done.
  - apply (f_equal String.length) in Heq.
    rewrite !string_length_app in Heq. simpl in Heq. lia.
  - apply (f_equal String.length) in Heq.
    rewrite !string_length_app in Heq. simpl in Heq. lia.
  - injection Heq as -> Heq. f_equal. by apply IH.
Qed.

Lemma iconFile_inj a b : iconFile a = iconFile b → a = b.
Proof.
  unfold iconFile. intros Heq. apply (inj (String.app _)) in Heq.
  by apply string_app_inj_r in Heq.
Qed.

Lemma sliceInit_snoc s c : sliceInit (s +:+ String c "") = s.
Proof.
  induction s as [|d s IH]; [done|].
  simpl. simpl in IH. rewrite IH. by destruct s.
Qed.

Lemma sliceLast_snoc s c : sliceLast (s +:+ String c "") = String c "".
Proof.
  induction s as [|d s IH]; [done|].
  simpl. simpl in IH. rewrite IH. by destruct s.
Qed.

(** Every family of the table has two characters. *)
Lemma family_length family :
  family ∈ NO_DAY_NIGHT_VARIANTS → String.length family = 2.
Proof.
  unfold NO_DAY_NIGHT_VARIANTS. intros Hin.
  repeat (apply elem_of_cons in Hin as [-> | Hin]; [reflexivity|]).
  by apply elem_of_nil in Hin.
Qed.

Lemma family_file (family : string) (fallback : option string) :
  family ∈ NO_DAY_NIGHT_VARIANTS →
  getWeatherIconPath (Some (family +:+ "d")) fallback = iconFile family
  ∧ getWeatherIconPath (Some (family +:+ "n")) fallback = iconFile family
  ∧ getWeatherIconPath (Some family) fallback = iconFile family.
Proof.
  unfold NO_DAY_NIGHT_VARIANTS. intros Hin.
  repeat (apply elem_of_cons in Hin as [-> | Hin]; [by vm_compute|]).
  by apply elem_of_nil in Hin.
Qed.

(** A family of the table, with or without a day/night suffix, is drawn
    with the one file of the family. *)
Theorem getWeatherIconPath_family (family : string) (fallback : option string) :
  family ∈ NO_DAY_NIGHT_VARIANTS →
  getWeatherIconPath (Some (family +:+ "d")) fallback = iconFile family
  ∧ getWeatherIconPath (Some (family +:+ "n")) fallback = iconFile family
  ∧ getWeatherIconPath (Some family) fallback = iconFile family.
Proof. apply family_file. Qed.

Lemma getWeatherIconPath_Some code fallback :
  code ≠ "" →
  getWeatherIconPath (Some code) fallback
  = if bool_decide (sliceInit code ∈ NO_DAY_NIGHT_VARIANTS)
       && (bool_decide (sliceLast code = "d") || bool_decide (sliceLast code = "n"))
    then iconFile (sliceInit code) else iconFile code.
Proof. intros Hcode. unfold getWeatherIconPath. by rewrite decide_False. Qed.

Lemma getWeatherIconPath_family_witness :
  getWeatherIconPath (Some "10d") None = iconFile "10"
  ∧ getWeatherIconPath (Some "10n") None = iconFile "10"
  ∧ getWeatherIconPath (Some "10") None = iconFile "10".
Proof.
  apply (getWeatherIconPath_family "10" None).
  apply (bool_decide_unpack _). by vm_compute.
Defined.

(** The file chosen for a code is never that of a suffixed family of the
    table, and choosing again from the code of the chosen file changes
    nothing. *)
Theorem getWeatherIconPath_normal (code family : string) (fallback : option string) :
  code ≠ "" →
  family ∈ NO_DAY_NIGHT_VARIANTS →
  getWeatherIconPath (Some code) fallback ≠ iconFile (family +:+ "d")
  ∧ getWeatherIconPath (Some code) fallback ≠ iconFile (family +:+ "n")
  ∧ ∃ chosen, getWeatherIconPath (Some code) fallback = iconFile chosen
              ∧ getWeatherIconPath (Some chosen) fallback = iconFile chosen.
Proof.
  intros Hcode Hfamily. rewrite (getWeatherIconPath_Some code fallback Hcode).
  destruct (bool_decide (sliceInit code ∈ NO_DAY_NIGHT_VARIANTS)) eqn:Hbase;
    cbn [andb].
  - apply bool_decide_eq_true in Hbase.
    destruct (bool_decide (sliceLast code = "d") || bool_decide (sliceLast code = "n"))
      eqn:Hsuffix.
    + pose proof (family_length _ Hbase) as Hlen.
      pose proof (family_length _ Hfamily) as Hlen'.
      split; [|split].
      * intros Heq%iconFile_inj. rewrite Heq, string_length_app in Hlen. simpl in Hlen. lia.
      * intros Heq%iconFile_inj. rewrite Heq, string_length_app in Hlen. simpl in Hlen. lia.
      * exists (sliceInit code). split; [done|].
        by apply (family_file _ fallback) in Hbase as (_ & _ & ->).
    + split; [|split].
      * intros Heq%iconFile_inj. subst code.
        rewrite sliceLast_snoc in Hsuffix. done.
      * intros Heq%iconFile_inj. subst code.
        rewrite sliceLast_snoc in Hsuffix. simpl in Hsuffix. done.
      * exists code. split; [done|].
        by rewrite getWeatherIconPath_Some, Hsuffix, andb_false_r.
  - apply bool_decide_eq_false in Hbase. split; [|split].
    + intros Heq%iconFile_inj. subst code. by rewrite sliceInit_snoc in Hbase.
    + intros Heq%iconFile_inj. subst code. by rewrite sliceInit_snoc in Hbase.
    + exists code. split; [done|].
      by rewrite getWeatherIconPath_Some, bool_decide_false.
Qed.

Lemma getWeatherIconPath_normal_witness :
  getWeatherIconPath (Some "13n") (Some "02d") ≠ iconFile ("13" +:+ "d")
  ∧ getWeatherIconPath (Some "13n") (Some "02d") ≠ iconFile ("13" +:+ "n")
  ∧ ∃ chosen, getWeatherIconPath (Some "13n") (Some "02d") = iconFile chosen
              ∧ getWeatherIconPath (Some chosen) (Some "02d") = iconFile chosen.
Proof.
  apply (getWeatherIconPath_normal "13n" "13" (Some "02d")); [done|].
  apply (bool_decide_unpack _). by vm_compute.
Defined.

(** Whatever the condition text and the time of day, the code chosen for
    it is drawn with one of twelve files, and the time of day changes the
    file only for the families 01, 02 and 03. *)
Theorem getIconCodeFromCondition_files (condition : option string) (fallback : option string) :
  (∀ isDay, getWeatherIconPath (Some (getIconCodeFromCondition condition isDay)) fallback
            ∈ conditionFiles)
  ∧ (getWeatherIconPath (Some (getIconCodeFromCondition condition (Some true))) fallback
     = getWeatherIconPath (Some (getIconCodeFromCondition condition (Some false))) fallback
     ∨ ∃ family, family ∈ ["01"; "02"; "03"]
         ∧ getWeatherIconPath (Some (getIconCodeFromCondition condition (Some true))) fallback
           = iconFile (family +:+ "d")
         ∧ getWeatherIconPath (Some (getIconCodeFromCondition condition (Some false))) fallback
           = iconFile (family +:+ "n")).
Proof.
  unfold getIconCodeFromCondition.
  set (conditionLower := default "" (toLowerCase <$> condition)). clearbody conditionLower.
  split.
  - intros [[|]|]; cbn [default];
      repeat match goal with
             | |- context [includes ?n conditionLower] =>
                 destruct (includes n conditionLower)
             end;
      cbn [orb]; apply (bool_decide_unpack _); by vm_compute.
  - cbn [default].
    repeat match goal with
           | |- context [includes ?n conditionLower] =>
               destruct (includes n conditionLower)
           end;
      cbn [orb];
      first [ left; vm_compute; reflexivity
            | right; exists "01"; split; [apply (bool_decide_unpack _); by vm_compute | by vm_compute]
            | right; exists "02"; split; [apply (bool_decide_unpack _); by vm_compute | by vm_compute]
            | right; exists "03"; split; [apply (bool_decide_unpack _); by vm_compute | by vm_compute] ].
Qed.

End WeatherIconsFacts.


(** ** Favourite cities: how the calls compose *)
Module FavoritesLaws.
Import WeatherApi Favorites FavoritesFacts Samples.

Lemma isCityFavorited_existsb cityData st :
  isCityFavorited (c_lat cityData) (c_lon cityData) st
  = existsb (sameCoords cityData) (getFavoriteCities st).
Proof. reflexivity. Qed.

Lemma filter_id_snoc (favorites : list FavoriteCity) newCity cityId :
  id newCity = cityId →
  (∀ fav, fav ∈ favorites → id fav ≠ cityId) →
  filter (λ fav, id fav ≠ cityId) (favorites ++ [newCity]) = favorites.
Proof.
  intros <- Hfresh. rewrite filter_app, filter_cons_False, filter_nil, app_nil_r.
  - induction favorites as [|fav favorites IH]; [done|].
    rewrite filter_cons_True.
    + f_equal. apply IH. intros fav' Hin. apply Hfresh. by right.
    + apply Hfresh. by left.
  - by intros Hne.
Qed.

Lemma addFavoriteCity_ok cityData newId timestamp st :
  existsb (sameCoords cityData) (getFavoriteCities st) = false →
  LocalStorage.quotaExceeded st = false →
  let newCity := {| id := newId; city := cityData; addedAt := timestamp |} in
  addFavoriteCity cityData newId timestamp st
  = (ok newCity, written (getFavoriteCities st ++ [newCity]) st).
Proof.
  intros Hnew Hq newCity. unfold addFavoriteCity. rewrite Hnew.
  fold newCity. by rewrite (saveFavoriteCities_ok _ _ Hq).
Qed.

(** [isCityFavorited] answers exactly whether [addFavoriteCity] would
    refuse the city; and a city that is not a favourite, added while the
    storage takes the write, is returned with the given id, stored last
    behind the earlier favourites, and is a favourite from then on. *)
Theorem addFavoriteCity_isCityFavorited (cityData : City) (newId timestamp : string)
    (st : LocalStorage.t) :
  let newCity := {| id := newId; city := cityData; addedAt := timestamp |} in
  (isCityFavorited (c_lat cityData) (c_lon cityData) st = true
   ↔ addFavoriteCity cityData newId timestamp st = (throw AlreadyInFavorites, st))
  ∧ (isCityFavorited (c_lat cityData) (c_lon cityData) st = false →
     LocalStorage.quotaExceeded st = false →
     addFavoriteCity cityData newId timestamp st
     = (ok newCity, written (getFavoriteCities st ++ [newCity]) st)
     ∧ isCityFavorited (c_lat cityData) (c_lon cityData)
         (snd (addFavoriteCity cityData newId timestamp st)) = true).
Proof.
  intros newCity. rewrite isCityFavorited_existsb. unfold addFavoriteCity.
  fold newCity. split.
  - destruct (existsb (sameCoords cityData) (getFavoriteCities st)); [done|].
    split; [done|].
    unfold saveFavoriteCities, LocalStorage.setFavorites.
    by destruct (LocalStorage.quotaExceeded st).
  - intros Hnew Hq. rewrite Hnew, (saveFavoriteCities_ok _ _ Hq). split; [done|].
    change (isCityFavorited (c_lat cityData) (c_lon cityData)
              (written (getFavoriteCities st ++ [newCity]) st) = true).
    rewrite isCityFavorited_existsb.
    change (getFavoriteCities (written (getFavoriteCities st ++ [newCity]) st))
      with (getFavoriteCities st ++ [newCity]).
    rewrite existsb_app. apply orb_true_iff. right. simpl.
    unfold sameCoords. simpl.
    by rewrite !(proj2 (Qeq_bool_iff _ _) (Qeq_refl _)).
Qed.

(** Adding a city under an id that no stored favourite has, and removing
    that id again, gives back the favourites there were. *)
Theorem addFavoriteCity_removeFavoriteCity (cityData : City) (newId timestamp : string)
    (st : LocalStorage.t) :
  LocalStorage.quotaExceeded st = false →
  isCityFavorited (c_lat cityData) (c_lon cityData) st = false →
  (∀ fav, fav ∈ getFavoriteCities st → id fav ≠ newId) →
  let st' := snd (addFavoriteCity cityData newId timestamp st) in
  fst (removeFavoriteCity newId st') = ok ()
  ∧ getFavoriteCities (snd (removeFavoriteCity newId st')) = getFavoriteCities st.
Proof.
  intros Hq Hnew Hfresh.
  rewrite isCityFavorited_existsb in Hnew.
  rewrite (addFavoriteCity_ok cityData newId timestamp st Hnew Hq). simpl.
  set (newCity := {| id := newId; city := cityData; addedAt := timestamp |}).
  unfold removeFavoriteCity.
  change (getFavoriteCities (written (getFavoriteCities st ++ [newCity]) st))
    with (getFavoriteCities st ++ [newCity]).
  rewrite (filter_id_snoc (getFavoriteCities st) newCity newId eq_refl Hfresh).
  rewrite length_app. simpl.
  destruct (decide _) as [Hlen | _]; [lia|].
  by rewrite saveFavoriteCities_ok.
Qed.

Lemma addFavoriteCity_removeFavoriteCity_witness :
  let st' := snd (addFavoriteCity bergen "1700000000500_xyz" "2023-11-14T22:13:20.500Z"
                    (written [favOslo] LocalStorage.empty)) in
  fst (removeFavoriteCity "1700000000500_xyz" st') = ok ()
  ∧ getFavoriteCities (snd (removeFavoriteCity "1700000000500_xyz" st')) = [favOslo].
Proof.
  apply (addFavoriteCity_removeFavoriteCity bergen "1700000000500_xyz"
           "2023-11-14T22:13:20.500Z" (written [favOslo] LocalStorage.empty));
    [reflexivity | reflexivity |].
  intros fav Hin. apply list_elem_of_singleton in Hin as ->. discriminate.
Defined.

(** Once an id has been removed, removing it again throws 'City not found
    in favorites' and writes nothing. *)
Theorem removeFavoriteCity_twice (cityId : string) (st : LocalStorage.t) :
  LocalStorage.quotaExceeded st = false →
  let st' := snd (removeFavoriteCity cityId st) in
  removeFavoriteCity cityId st' = (throw NotInFavorites, st').
Proof.
  intros Hq st'.
  assert (Forall (λ fav, id fav ≠ cityId) (getFavoriteCities st')) as Hgone.
  { unfold st', removeFavoriteCity.
    destruct (decide _) as [Hlen | _]; simpl.
    - by apply length_filter_all in Hlen.
    - rewrite saveFavoriteCities_ok by done. simpl.
      apply Forall_forall. intros fav Hin. by apply list_elem_of_filter in Hin as [? _]. }
  unfold removeFavoriteCity at 1.
  destruct (decide _) as [_ | Hne]; [done|].
  exfalso. apply Hne. by apply length_filter_all.
Qed.

Lemma removeFavoriteCity_twice_witness :
  let st' := snd (removeFavoriteCity (id favOslo) twoFavorites) in
  removeFavoriteCity (id favOslo) st' = (throw NotInFavorites, st').
Proof. apply (removeFavoriteCity_twice (id favOslo) twoFavorites). reflexivity. Defined.

(** While the storage refuses writes, neither call returns: each throws
    its own refusal or 'Failed to save favorite cities', and the
    favourites stay as they were. *)
Theorem favorites_storage_full (cityData : City) (newId timestamp cityId : string)
    (st : LocalStorage.t) :
  LocalStorage.quotaExceeded st = true →
  (fst (addFavoriteCity cityData newId timestamp st) = throw AlreadyInFavorites
   ∨ fst (addFavoriteCity cityData newId timestamp st) = throw SaveFailed)
  ∧ getFavoriteCities (snd (addFavoriteCity cityData newId timestamp st))
    = getFavoriteCities st
  ∧ (fst (removeFavoriteCity cityId st) = throw NotInFavorites
     ∨ fst (removeFavoriteCity cityId st) = throw SaveFailed)
  ∧ getFavoriteCities (snd (removeFavoriteCity cityId st)) = getFavoriteCities st.
Proof.
  intros Hq. unfold addFavoriteCity, removeFavoriteCity.
  destruct (existsb _ _), (decide _); simpl;
    unfold saveFavoriteCities, LocalStorage.setFavorites; rewrite ?Hq; simpl; auto.
Qed.

Lemma favorites_storage_full_witness :
  let full := {| LocalStorage.favorite_cities := LocalStorage.Doc [favOslo];
                 LocalStorage.weather_search_history := LocalStorage.Absent;
                 LocalStorage.quotaExceeded := true;
                 LocalStorage.setItemCalls := 1 |} in
  (fst (addFavoriteCity bergen "b" "t" full) = throw AlreadyInFavorites
   ∨ fst (addFavoriteCity bergen "b" "t" full) = throw SaveFailed)
  ∧ getFavoriteCities (snd (addFavoriteCity bergen "b" "t" full)) = [favOslo]
  ∧ (fst (removeFavoriteCity (id favOslo) full) = throw NotInFavorites
     ∨ fst (removeFavoriteCity (id favOslo) full) = throw SaveFailed)
  ∧ getFavoriteCities (snd (removeFavoriteCity (id favOslo) full)) = [favOslo].
Proof.
  intros full. apply (favorites_storage_full bergen "b" "t" (id favOslo) full).
  reflexivity.
Defined.

(** The calls never invent or alter an entry: every favourite found after
    a run of calls was stored before it, or is the entry of an addition
    of the run, under its id and timestamp. *)
Theorem run_provenance (ops : list Op) (st : LocalStorage.t) (fav : FavoriteCity) :
  fav ∈ getFavoriteCities (run ops st) →
  fav ∈ getFavoriteCities st ∨ Add (city fav) (id fav) (addedAt fav) ∈ ops.
Proof.
  revert st. induction ops as [|op ops IH]; intros st Hin; [by left|].
  apply IH in Hin as [Hin | Hin]; [|right; by right].
  destruct op as [cityData newId timestamp | cityId | ]; simpl in Hin.
  - unfold addFavoriteCity in Hin.
    destruct (existsb _ _); [by left|].
    match type of Hin with context [saveFavoriteCities ?l st] =>
      pose proof (saveFavoriteCities_favorites l st) as Hsave;
      destruct (saveFavoriteCities l st) as [[[]|e] st'] end;
      simpl in *; destruct Hsave as [Hsave | Hsave]; rewrite Hsave in Hin; auto;
      apply elem_of_app in Hin as [Hin | Hin]; auto;
      apply list_elem_of_singleton in Hin as ->; right; by left.
  - unfold removeFavoriteCity in Hin.
    destruct (decide _); [by left|].
    match type of Hin with context [saveFavoriteCities ?l st] =>
      destruct (saveFavoriteCities_favorites l st) as [Hsave | Hsave] end;
      rewrite Hsave in Hin; auto.
    apply list_elem_of_filter in Hin as [_ Hin]. by left.
  - by apply elem_of_nil in Hin.
Qed.

Lemma run_provenance_witness :
  favBergen ∈ getFavoriteCities twoFavorites
  ∨ Add (city favBergen) (id favBergen) (addedAt favBergen) ∈ [Remove (id favOslo)].
Proof.
  apply (run_provenance [Remove (id favOslo)] twoFavorites favBergen).
  change (favBergen ∈ [favBergen]). left.
Defined.

End FavoritesLaws.


(** ** Saved weather stations *)
Module StationsFacts.
Import Stations.

Section stations.
Context {Station : Type} (station_id : Station → option string).
Local Abbreviation removeStation := (removeStation station_id).

Lemma readStations_Saved (l : list Station) (full : bool) :
  readStations {| weather_stations := Saved l; quotaExceeded := full |} = l.
Proof. reflexivity. Qed.

Lemma filter_filter_same (stationId : string) (l : list Station) :
  filter (λ s, station_id s ≠ Some stationId) (filter (λ s, station_id s ≠ Some stationId) l)
  = filter (λ s, station_id s ≠ Some stationId) l.
Proof.
  induction l as [|s l IH]; [done|].
  rewrite (filter_cons _ s l).
  destruct (decide (station_id s ≠ Some stationId)) as [Hne | He]; [|done].
  rewrite filter_cons, decide_True by done. by f_equal.
Qed.

(** While the storage takes writes, [removeStation] returns whether or
    not a station has the id; what it stores is the stations there were
    without those of the id, in their order; and removing the id once
    more stores the same again. *)
Theorem removeStation_idempotent (stationId : string) (st : Storage Station) :
  quotaExceeded st = false →
  let st' := snd (removeStation stationId st) in
  fst (removeStation stationId st) = ok ()
  ∧ readStations st' `sublist_of` readStations st
  ∧ (∀ s, s ∈ readStations st' ↔ s ∈ readStations st ∧ station_id s ≠ Some stationId)
  ∧ removeStation stationId st' = (ok (), st').
Proof.
  intros Hq st'.
  assert (removeStation stationId st
          = (ok (), {| weather_stations :=
                         Saved (filter (λ s, station_id s ≠ Some stationId) (readStations st));
                       quotaExceeded := false |})) as Hrm.
  { unfold Stations.removeStation, setItem. by rewrite Hq. }
  unfold st'. rewrite Hrm. cbn [fst snd]. rewrite !readStations_Saved.
  split; [done|]. split; [apply sublist_filter|]. split.
  - intros s. rewrite list_elem_of_filter. tauto.
  - unfold Stations.removeStation, setItem. cbn [quotaExceeded].
    by rewrite readStations_Saved, filter_filter_same.
Qed.

(** [addStation] checks nothing: a station added twice is stored twice,
    behind the stations there were, and one [removeStation] of its id
    takes both copies and every older station of that id away. *)
Theorem addStation_twice (station : Station) (stationId : string) (st : Storage Station) :
  quotaExceeded st = false →
  station_id station = Some stationId →
  let st2 := snd (addStation station (snd (addStation station st))) in
  readStations st2 = readStations st ++ [station; station]
  ∧ readStations (snd (removeStation stationId st2))
    = filter (λ s, station_id s ≠ Some stationId) (readStations st).
Proof.
  intros Hq Hid st2.
  assert (readStations st2 = readStations st ++ [station; station]) as Hst2.
  { unfold st2, addStation, setItem. rewrite Hq. simpl.
    by rewrite !readStations_Saved, <- app_assoc. }
  split; [done|].
  assert (quotaExceeded st2 = false) as Hq2.
  { unfold st2, addStation, setItem. by rewrite Hq. }
  unfold Stations.removeStation, setItem. rewrite Hq2. simpl. rewrite Hst2.
  rewrite filter_app, !filter_cons_False, filter_nil, app_nil_r; [done | |];
    by intros Hne.
Qed.

End stations.

Lemma removeStation_idempotent_witness :
  let st := {| weather_stations := Saved [stationA; stationB; stationA];
               quotaExceeded := false |} in
  let st' := snd (removeStation fst "st-1" st) in
  fst (removeStation fst "st-1" st) = ok ()
  ∧ readStations st' `sublist_of` readStations st
  ∧ Forall (λ s, s.1 ≠ Some "st-1") (readStations st')
  ∧ removeStation fst "st-1" st' = (ok (), st').
Proof.
  intros st st'.
  destruct (removeStation_idempotent fst "st-1" st eq_refl) as (Hok & Hsub & Hin & Hagain).
  split; [exact Hok|]. split; [exact Hsub|]. split; [|exact Hagain].
  apply Forall_forall. intros s Hs. by apply Hin in Hs as [_ ?].
Defined.

Lemma addStation_twice_witness :
  let st := {| weather_stations := NotArray; quotaExceeded := false |} in
  let st2 := snd (addStation stationA (snd (addStation stationA st))) in
  readStations st2 = [stationA; stationA]
  ∧ readStations (snd (removeStation fst "st-1" st2)) = [].
Proof.
  intros st st2.
  apply (addStation_twice fst stationA "st-1" st); reflexivity.
Defined.

End StationsFacts.


(** ** The hourly strip *)
Module HourlyForecastFacts.
Import HourlyForecast.

Section zone.
Context (zone : LocalTime.Zone).
Local Abbreviation hourView := (hourView zone).
Local Abbreviation hourlyForecast := (hourlyForecast zone).

(** The comparison [forecast.dt >= Date.now() / 1000], on the time
    values. *)
Lemma not_over_iff (nowMs d : Z) :
  Qle_bool (inject_Z nowMs / 1000) (inject_Z d) = true ↔ nowMs ≤ d * 1000.
Proof.
  rewrite Qle_bool_iff. unfold Qle, Qdiv, Qmult, Qinv, inject_Z. simpl. lia.
Qed.

Lemma filter_not_over nowMs (forecastList : list ForecastEntry) :
  filter (λ forecast, Qle_bool (inject_Z nowMs / 1000) (inject_Z (dt forecast)) = true)
         forecastList
  = upcoming nowMs forecastList.
Proof. apply list_filter_iff. intros f. apply not_over_iff. Qed.

(** The strip shows the first eleven entries of the list that are not
    over, in the order of the list, and none else: at most eleven rows,
    and all of the upcoming entries when they are fewer. *)
Theorem hourlyForecast_upcoming (cur : option CurrentConditions)
    (forecastList : list ForecastEntry) (nowMs : Z) :
  let rows := hourlyForecast (Some {| current := cur; daily := Some forecastList |}) nowMs in
  let shown := take 11 (upcoming nowMs forecastList) in
  rows = hourView <$> shown
  ∧ (length rows ≤ 11)%nat
  ∧ shown `sublist_of` forecastList
  ∧ (∀ f, f ∈ shown → nowMs ≤ dt f * 1000)
  ∧ ((length rows < 11)%nat → ∀ f, f ∈ forecastList → nowMs ≤ dt f * 1000 → f ∈ shown).
Proof.
  intros rows shown. unfold rows, HourlyForecast.hourlyForecast. simpl.
  rewrite filter_not_over. fold shown. split; [done|].
  rewrite length_fmap. unfold shown. rewrite length_take.
  split; [lia|]. split.
  - etrans; [apply sublist_take | apply sublist_filter].
  - split.
    + intros f Hf.
      assert (f ∈ upcoming nowMs forecastList) as Hf'
        by (eapply elem_of_sublist; [exact Hf | apply sublist_take]).
      by apply list_elem_of_filter in Hf' as [? _].
    + intros Hlen f Hin Hf. rewrite take_ge by lia.
      apply list_elem_of_filter. done.
Qed.

(** The temperature of a row is the rounded reading of the entry, also
    when the reading is 0; an entry without a reading is shown as 0. *)
Theorem hourView_temp (forecast : ForecastEntry) :
  hour_temp (hourView forecast)
  = match WeatherPage.tempSample forecast with
    | Some t => JS.Math_round t
    | None => 0
    end.
Proof.
  unfold HourlyForecast.hourView, WeatherPage.tempSample. simpl.
  destruct (JS.js_or (main forecast ≫= main_temp) (temp forecast)) as [t|]; [|done].
  simpl. unfold JS.truthy. destruct (Qeq_bool t 0) eqn:Ht; [|done]. simpl.
  apply Qeq_bool_iff in Ht. unfold JS.Math_round.
  symmetry. apply Qfloor_comp. lra.
Qed.

End zone.
End HourlyForecastFacts.


(** ** The five-day view: what each day shows *)
Module FiveDayLaws.
Import WeatherPage DoubleFacts WeatherPageFacts Samples.

Section zone.
Context (zone : LocalTime.Zone).

Local Abbreviation forecastDate := (forecastDate zone).
Local Abbreviation dayKey := (dayKey zone).
Local Abbreviation groupByDay := (groupByDay zone).
Local Abbreviation buildFiveDay := (buildFiveDay zone).
Local Abbreviation dayEntries := (dayEntries zone).
Local Abbreviation dayBucket := (dayBucket zone).
Local Abbreviation shownDays := (shownDays zone).

(** The lowest temperature of a row is at most its highest, the rounding
    of every sample of the row's entries lies between them, both are
    roundings of samples of these entries, and both are 0 when there is
    no sample.  The row's entries are those the loop files under the day
    string of the row's date. *)
Theorem fiveDay_temperature_range (forecastList : list ForecastEntry) (today : Z)
    (day : DayForecast) :
  day ∈ buildFiveDay forecastList today →
  let samples :=
    omap tempSample (dayEntries (LocalTime.isoDate (day_date day)) forecastList) in
  minTemp day ≤ maxTemp day
  ∧ (∀ t, t ∈ samples → minTemp day ≤ JS.Math_round t ≤ maxTemp day)
  ∧ (samples = [] → minTemp day = 0 ∧ maxTemp day = 0)
  ∧ (samples ≠ [] →
     ∃ lo hi, lo ∈ samples ∧ hi ∈ samples
              ∧ minTemp day = JS.Math_round lo ∧ maxTemp day = JS.Math_round hi).
Proof.
  intros Hday samples. pose proof (fiveDay_temperatures zone _ _ _ Hday) as Ht.
  fold samples in Ht. destruct samples as [|t ts].
  - destruct Ht as [-> ->]. split; [done|]. split; [|split; [done|done]].
    intros t Hin. by apply elem_of_nil in Hin.
  - destruct Ht as (lo & hi & Hlo & Hhi & Hbounds & -> & ->).
    split; [|split; [|split; [done|]]].
    + apply Math_round_mono. by apply Hbounds.
    + intros x Hx. destruct (Hbounds x Hx). split; by apply Math_round_mono.
    + intros _. by exists lo, hi.
Qed.

(** *** Chance of rain *)

Lemma length_omap_le {A B} (g : A → option B) (l : list A) :
  (length (omap g l) ≤ length l)%nat.
Proof. induction l as [|x l IH]; [done|]. csimpl. destruct (g x); simpl; lia. Qed.

(** With every probability of the forecast a double between 0 and 1, the
    chance of rain of every row is a whole percentage: the sum of the
    doubles [pop * 100] of the row's entries and its quotient by their
    number, each rounded to a double, give a mean between 0 and 100.  The
    forecast list has a length an array can have. *)
Theorem fiveDay_pop_range (forecastList : list ForecastEntry) (today : Z)
    (day : DayForecast) :
  Z.of_nat (length forecastList) < 2 ^ 32 →
  Forall (λ f, ∀ p, pop f = Some p → (0 <=? p)%float = true ∧ (p <=? 1)%float = true)
    forecastList →
  day ∈ buildFiveDay forecastList today →
  ∃ z, day_pop day = JS.Integer z ∧ 0 ≤ z ≤ 100.
Proof.
  intros Hlen Hpops (idx & b & -> & Hb)%buildFiveDay_elem_of. simpl.
  pose proof (dayBucket_spec zone (dayEntries (LocalTime.isoDate (date b)) forecastList))
    as Hspec.
  rewrite (shownDays_bucket _ _ _ _ Hb) in Hspec.
  destruct Hspec as (_ & _ & Hp & _).
  destruct (pops b) as [|x l] eqn:Hpb; [exists 0; split; [done | lia]|].
  rewrite <- Hpb. apply mean_percent.
  - by rewrite Hpb.
  - rewrite Hpb, Hp.
    pose proof (length_omap_le popSample
                  (dayEntries (LocalTime.isoDate (date b)) forecastList)) as Hle.
    pose proof (length_filter (λ f, dayKey f = LocalTime.isoDate (date b)) forecastList)
      as Hle'.
    unfold WeatherPage.dayEntries in *. lia.
  - rewrite Hpb, Hp. apply Forall_forall. intros y (f & Hf & Hy)%list_elem_of_omap.
    unfold popSample in Hy. destruct (pop f) as [p|] eqn:Hpf; [|done].
    injection Hy as <-. apply list_elem_of_filter in Hf as [_ Hf].
    rewrite Forall_forall in Hpops. destruct (Hpops f Hf p Hpf).
    by apply percentOfDouble_atMost.
Qed.

(** *** No day is passed over *)

Lemma take_sorted_complete {A} (key : A → Z) (l : list A) (n : nat) (x : A) :
  StronglySorted (λ a b, key a < key b) l → x ∈ l →
  x ∈ take n l ∨ (length (take n l) = n ∧ ∀ y, y ∈ take n l → key y < key x).
Proof.
  intros Hs Hx. rewrite <- (take_drop n l) in Hx.
  apply elem_of_app in Hx as [Hx | Hx]; [by left | right].
  apply list_elem_of_lookup_1 in Hx as [j Hj]. rewrite lookup_drop in Hj.
  pose proof (lookup_lt_Some _ _ _ Hj) as Hlen. split.
  - rewrite length_take. lia.
  - intros y [i Hi]%list_elem_of_lookup_1.
    pose proof (lookup_lt_Some _ _ _ Hi) as Hi'. rewrite length_take in Hi'.
    rewrite lookup_take_lt in Hi by lia.
    apply (StronglySorted_lookup _ l i (n + j) y x Hs Hi Hj). lia.
Qed.


End zone.

Lemma fiveDay_temperature_range_witness :
  let samples :=
    omap tempSample (WeatherPage.dayEntries cet (LocalTime.isoDate today) threeEntries) in
  minTemp noonDay ≤ maxTemp noonDay
  ∧ Forall (λ t, minTemp noonDay ≤ JS.Math_round t ≤ maxTemp noonDay) samples
  ∧ (samples ≠ [] →
     ∃ lo hi, lo ∈ samples ∧ hi ∈ samples
              ∧ minTemp noonDay = JS.Math_round lo ∧ maxTemp noonDay = JS.Math_round hi).
Proof.
  intros samples.
  assert (noonDay ∈ WeatherPage.buildFiveDay cet threeEntries today) as Hday.
  { replace (WeatherPage.buildFiveDay cet threeEntries today) with [noonDay]
      by (vm_compute; reflexivity).
    left. }
  destruct (fiveDay_temperature_range cet threeEntries today noonDay) as (Hle & Hall & _ & Hex).
  - exact Hday.
  - split; [exact Hle|]. split; [by apply Forall_forall | exact Hex].
Defined.

Lemma fiveDay_pop_range_witness : ∃ z, day_pop noonDay = JS.Integer z ∧ 0 ≤ z ≤ 100.
Proof.
  apply (fiveDay_pop_range cet threeEntries today noonDay).
  - by vm_compute.
  - repeat (apply Forall_cons; split;
            [intros p [= <-]; split; vm_compute; reflexivity|]).
    apply Forall_nil_2.
  - replace (WeatherPage.buildFiveDay cet threeEntries today) with [noonDay]
      by (vm_compute; reflexivity).
    left.
Defined.


End FiveDayLaws.


(** ** The debounce: which fetches are made *)
Module DebounceLaws.
Import WeatherApi SuggestionSearch SuggestionSearchFacts Samples.
Local Open Scope nat_scope.

Section page.
Context (API_KEY : string) (fetch : Request → Response) (limit : nat).

Local Abbreviation step := (step API_KEY fetch limit).
Local Abbreviation run := (run API_KEY fetch limit).

Lemma run_snoc es e p : run (es ++ [e]) p = step (run es p) e.
Proof. unfold SuggestionSearch.run. by rewrite foldl_snoc. Qed.

(** A query is typed in the run and long enough to be searched for. *)
Local Abbreviation typed es query := (Keystroke query ∈ es ∧ tooShort query = false).

Lemma typed_snoc es e query : typed es query → typed (es ++ [e]) query.
Proof. intros [Hin Hlong]. split; [|done]. apply elem_of_app. by left. Qed.

(** Every pending timer and every call made carries a query that was
    typed and is long enough. *)
Lemma queries_typed es :
  let p := run es initial in
  (∀ t, t ∈ timers p → typed es (timerQuery t))
  ∧ (∀ c, c ∈ issued p → typed es (callQuery c)).
Proof.
  induction es as [|e es IH] using rev_ind.
  - split; by intros ? ?%elem_of_nil.
  - destruct IH as [IHt IHc]. rewrite run_snoc.
    assert (Inv (run es initial)) as HInv by apply Inv_run, Inv_initial.
    set (p := run es initial) in *.
    destruct e as [query | d | n]; simpl.
    + destruct (keystroke_spec query p HInv) as (_ & Hissued & Hcase).
      rewrite Hissued. split; [|intros c Hc; by apply typed_snoc, IHc].
      destruct (tooShort query) eqn:Hlong; destruct Hcase as (-> & _).
      * by intros ? ?%elem_of_nil.
      * intros t ->%list_elem_of_singleton. simpl. split; [|done].
        apply elem_of_app. right. by left.
    + destruct (elapse_spec d p) as (_ & _ & Hts & _ & Hissued). split.
      * rewrite Hts. intros t [_ Ht]%list_elem_of_filter. by apply typed_snoc, IHt.
      * intros c [Hc | (t & Ht & _ & ->)]%Hissued; apply typed_snoc; [by apply IHc|].
        by apply IHt.
    + destruct (settle_fields API_KEY fetch limit n p) as (_ & _ & -> & _ & ->).
      split; [intros t Ht | intros c Hc]; apply typed_snoc; auto.
Qed.

(** Whatever is typed and whenever, [searchCities] is only ever called
    with a query that was typed and that has at least two characters once
    trimmed. *)
Theorem issued_only_typed (es : list Event) (c : Call) :
  c ∈ issued (run es initial) →
  Keystroke (callQuery c) ∈ es
  ∧ callQuery c ≠ ""
  ∧ 2 ≤ String.length (trim (callQuery c)).
Proof.
  intros Hc. destruct (queries_typed es) as [_ Hissued].
  destruct (Hissued c Hc) as [Hin Hlong]. split; [done|].
  unfold tooShort in Hlong. apply orb_false_iff in Hlong as [Hne Hlen].
  apply bool_decide_eq_false in Hne, Hlen. split; [done | lia].
Qed.

(** A keystroke with a long enough query, followed by a quiet period of
    at least the delay, makes exactly one call more, for that query, by
    the timer the keystroke set. *)
Theorem quiet_period_fetches (history : list Event) (query : string) (d : nat) :
  tooShort query = false →
  DEBOUNCE_DELAY ≤ d →
  let p := run history initial in
  issued (run (history ++ [Keystroke query; Elapse d]) initial)
  = issued p ++ [{| callTimer := nextTimerId p; callQuery := query |}].
Proof.
  intros Hlong Hd p.
  assert (Inv p) as HInv by apply Inv_run, Inv_initial.
  unfold SuggestionSearch.run. rewrite foldl_app. fold (run history initial). fold p.
  change (foldl step p [Keystroke query; Elapse d])
    with (elapse d (debouncedSearchCities query p)).
  destruct (keystroke_spec query p HInv) as (Hnow & Hissued & Hcase).
  rewrite Hlong in Hcase. destruct Hcase as (Hts & _ & _).
  rewrite (elapse_single d _ _ Hts), Hissued; [done|].
  rewrite Hnow. simpl. lia.
Qed.

End page.

Lemma issued_only_typed_witness :
  let es := [Keystroke "L"; Elapse 400; Keystroke "Lo"; Elapse 300; Settle 0] in
  Keystroke "Lo" ∈ es ∧ "Lo" ≠ "" ∧ 2 ≤ String.length (trim "Lo").
Proof.
  intros es.
  apply (issued_only_typed "key" offline 5 es {| callTimer := 1; callQuery := "Lo" |}).
  change ({| callTimer := 1; callQuery := "Lo" |} ∈ [{| callTimer := 1; callQuery := "Lo" |}]).
  left.
Defined.

Lemma quiet_period_fetches_witness :
  issued (run "key" offline 5
            ([Keystroke "Lon"; Elapse 100] ++ [Keystroke "London"; Elapse 300]) initial)
  = issued (run "key" offline 5 [Keystroke "Lon"; Elapse 100] initial)
    ++ [{| callTimer := 2; callQuery := "London" |}].
Proof.
  apply (quiet_period_fetches "key" offline 5 [Keystroke "Lon"; Elapse 100] "London" 300).
  - reflexivity.
  - unfold DEBOUNCE_DELAY. lia.
Defined.

End DebounceLaws.


(** ** The search dropdown: keyboard navigation *)
Module SearchDropdownFacts.
Import Stdlib.Strings.Ascii WeatherApi SearchDropdown.

Lemma totalItems_setHighlightedIndex i v : totalItems (setHighlightedIndex i v) = totalItems v.
Proof. reflexivity. Qed.

Lemma setHighlightedIndex_same v : setHighlightedIndex (highlightedIndex v) v = v.
Proof. by destruct v. Qed.

Lemma setHighlightedIndex_twice i j v :
  setHighlightedIndex i (setHighlightedIndex j v) = setHighlightedIndex i v.
Proof. reflexivity. Qed.

Lemma handleKeyDown_ArrowDown v :
  showHistory v = true →
  fst (handleKeyDown ArrowDown v)
  = setHighlightedIndex
      (if bool_decide (highlightedIndex v < totalItems v - 1)
       then highlightedIndex v + 1 else 0) v.
Proof. intros Hshow. unfold handleKeyDown. by rewrite Hshow. Qed.

Lemma handleKeyDown_ArrowUp v :
  showHistory v = true →
  fst (handleKeyDown ArrowUp v)
  = setHighlightedIndex
      (if bool_decide (highlightedIndex v > 0)
       then highlightedIndex v - 1 else totalItems v - 1) v.
Proof. intros Hshow. unfold handleKeyDown. by rewrite Hshow. Qed.

(** The row after and the row before row [i] of [n] rows, going round. *)
Lemma next_row (i n : Z) :
  0 ≤ i < n → (i + 1) `mod` n = if bool_decide (i < n - 1) then i + 1 else 0.
Proof.
  intros Hi. case_bool_decide as Hlt.
  - apply Z.mod_small. lia.
  - replace (i + 1) with n by lia. apply Z_mod_same_full.
Qed.

Lemma previous_row (i n : Z) :
  0 ≤ i < n → (i - 1) `mod` n = if bool_decide (i > 0) then i - 1 else n - 1.
Proof.
  intros Hi. case_bool_decide as Hgt.
  - apply Z.mod_small. lia.
  - symmetry. apply (Z.mod_unique _ _ (-1)); lia.
Qed.

(** With the dropdown open and an item highlighted, the arrow keys move
    the highlight by one row and change nothing else: down to the next
    row, and from the last row to the first; up to the row before, and
    from the first row to the last.  The highlight stays within the
    items, it moves whenever there is more than one item, and each key
    undoes the other. *)
Theorem arrows_cycle (v : View) :
  showHistory v = true →
  0 ≤ highlightedIndex v < totalItems v →
  let down := fst (handleKeyDown ArrowDown v) in
  let up := fst (handleKeyDown ArrowUp v) in
  down = setHighlightedIndex ((highlightedIndex v + 1) `mod` totalItems v) v
  ∧ up = setHighlightedIndex ((highlightedIndex v - 1) `mod` totalItems v) v
  ∧ (highlightedIndex v < totalItems v - 1 → highlightedIndex down = highlightedIndex v + 1)
  ∧ (highlightedIndex v = totalItems v - 1 → highlightedIndex down = 0)
  ∧ (0 < highlightedIndex v → highlightedIndex up = highlightedIndex v - 1)
  ∧ (highlightedIndex v = 0 → highlightedIndex up = totalItems v - 1)
  ∧ (1 < totalItems v →
     highlightedIndex down ≠ highlightedIndex v ∧ highlightedIndex up ≠ highlightedIndex v)
  ∧ 0 ≤ highlightedIndex down < totalItems v
  ∧ 0 ≤ highlightedIndex up < totalItems v
  ∧ fst (handleKeyDown ArrowUp down) = v
  ∧ fst (handleKeyDown ArrowDown up) = v.
Proof.
  intros Hshow Hrange down up. unfold down, up.
  rewrite (handleKeyDown_ArrowDown v Hshow), (handleKeyDown_ArrowUp v Hshow).
  rewrite handleKeyDown_ArrowUp, handleKeyDown_ArrowDown by done.
  rewrite !totalItems_setHighlightedIndex, !setHighlightedIndex_twice.
  cbn [highlightedIndex setHighlightedIndex].
  rewrite (next_row _ _ Hrange), (previous_row _ _ Hrange).
  split; [done|]. split; [done|].
  split; [intros ?; by rewrite bool_decide_true by lia|].
  split; [intros ?; by rewrite bool_decide_false by lia|].
  split; [intros ?; by rewrite bool_decide_true by lia|].
  split; [intros ?; by rewrite bool_decide_false by lia|].
  split; [intros ?; split; case_bool_decide; lia|].
  split; [case_bool_decide; lia|]. split; [case_bool_decide; lia|].
  split.
  - etrans; [|apply (setHighlightedIndex_same v)]. f_equal.
    repeat case_bool_decide; lia.
  - etrans; [|apply (setHighlightedIndex_same v)]. f_equal.
    repeat case_bool_decide; lia.
Qed.

Lemma arrows_cycle_witness :
  let down := fst (handleKeyDown ArrowDown focused) in
  let up := fst (handleKeyDown ArrowUp focused) in
  down = setHighlightedIndex ((highlightedIndex focused + 1) `mod` totalItems focused) focused
  ∧ up = setHighlightedIndex ((highlightedIndex focused - 1) `mod` totalItems focused) focused
  ∧ (highlightedIndex focused < totalItems focused - 1 →
     highlightedIndex down = highlightedIndex focused + 1)
  ∧ (highlightedIndex focused = totalItems focused - 1 → highlightedIndex down = 0)
  ∧ (0 < highlightedIndex focused → highlightedIndex up = highlightedIndex focused - 1)
  ∧ (highlightedIndex focused = 0 → highlightedIndex up = totalItems focused - 1)
  ∧ (1 < totalItems focused →
     highlightedIndex down ≠ highlightedIndex focused
     ∧ highlightedIndex up ≠ highlightedIndex focused)
  ∧ 0 ≤ highlightedIndex down < totalItems focused
  ∧ 0 ≤ highlightedIndex up < totalItems focused
  ∧ fst (handleKeyDown ArrowUp down) = focused
  ∧ fst (handleKeyDown ArrowDown up) = focused.
Proof. apply (arrows_cycle focused); [reflexivity | by vm_compute]. Defined.

(** The highlight goes round: from the last of the three rows the arrow
    down leads to the first, and from there the arrow up leads back. *)
Example arrows_wrap :
  totalItems focused = 3
  ∧ highlightedIndex (fst (handleKeyDown ArrowDown (setHighlightedIndex 2 focused))) = 0
  ∧ highlightedIndex (fst (handleKeyDown ArrowUp (setHighlightedIndex 0 focused))) = 2.
Proof. by vm_compute. Qed.

(** Enter never hands a handler an item that is not there: a suggestion
    or a recent search it selects is the one at the highlighted row, the
    first row of the recent searches selects the current location, and
    the state is left as it was. *)
Theorem enter_selects_existing (v v' : View) (action : Action) :
  handleKeyDown Enter v = (v', Some action) →
  v' = v
  ∧ match action with
    | HandleSuggestionClick suggestion =>
        suggesting v = true
        ∧ ∃ i c, highlightedIndex v = Z.of_nat i
                 ∧ searchSuggestions v !! i = Some c ∧ suggestion = Some c
    | HandleCurrentLocation => suggesting v = false ∧ highlightedIndex v = 0
    | HandleRecentSearchClick city =>
        suggesting v = false
        ∧ ∃ i c, highlightedIndex v = Z.of_nat (S i)
                 ∧ searchHistory v !! i = Some c ∧ city = Some c
    | Blur => False
    end.
Proof.
  unfold handleKeyDown. destruct (showHistory v); cbn [negb]; [|done].
  case_bool_decide as Hidx; [|done].
  destruct (suggesting v) eqn:Hs.
  - case_bool_decide as Hlt; [|done]. intros [= <- <-]. split; [done|]. split; [done|].
    destruct (lookup_lt_is_Some_2 (searchSuggestions v) (Z.to_nat (highlightedIndex v)))
      as [c Hc]; [lia|].
    exists (Z.to_nat (highlightedIndex v)), c. split; [lia | done].
  - case_bool_decide as H0; [intros [= <- <-]; done|].
    case_bool_decide as Hle; [|done]. intros [= <- <-]. split; [done|]. split; [done|].
    destruct (lookup_lt_is_Some_2 (searchHistory v) (Z.to_nat (highlightedIndex v - 1)))
      as [c Hc]; [lia|].
    exists (Z.to_nat (highlightedIndex v - 1)), c. split; [lia | done].
Qed.

Lemma enter_selects_existing_witness :
  focused = focused
  ∧ suggesting focused = false
  ∧ ∃ i c, highlightedIndex focused = Z.of_nat (S i)
           ∧ searchHistory focused !! i = Some c ∧ Some "Oslo, NO" = Some c.
Proof.
  apply (enter_selects_existing focused focused (HandleRecentSearchClick (Some "Oslo, NO"))).
  reflexivity.
Defined.

(** While fewer than two characters are typed the recent searches are
    the items, but the count leaves out the row of the current location:
    no arrow key leads to the row of the last recent search.  Without
    typing, the arrow down from the row before it does, and Enter there
    selects it. *)
Theorem last_recent_search_unreachable (v : View) :
  showHistory v = true →
  suggesting v = false →
  searchHistory v ≠ [] →
  highlightedIndex v ≤ Z.of_nat (length (searchHistory v)) →
  let last := Z.of_nat (length (searchHistory v)) in
  (isActivelyTyping v = true →
   highlightedIndex (fst (handleKeyDown ArrowDown v)) < last
   ∧ highlightedIndex (fst (handleKeyDown ArrowUp v)) < last)
  ∧ (isActivelyTyping v = false → highlightedIndex v = last - 1 →
     highlightedIndex (fst (handleKeyDown ArrowDown v)) = last
     ∧ snd (handleKeyDown Enter (fst (handleKeyDown ArrowDown v)))
       = Some (HandleRecentSearchClick (List.last (Some <$> searchHistory v) None))).
Proof.
  intros Hshow Hs Hne Hidx last.
  assert (0 < last) as Hpos.
  { unfold last. destruct (searchHistory v); [done | simpl; lia]. }
  unfold handleKeyDown. rewrite Hshow. cbn [negb fst snd].
  unfold totalItems. rewrite Hs. fold last. split.
  - intros ->. cbn [highlightedIndex setHighlightedIndex].
    repeat case_bool_decide; lia.
  - intros Htyping Hlast. rewrite Htyping.
    cbn [highlightedIndex setHighlightedIndex showHistory negb].
    rewrite bool_decide_true by lia. split; [lia|].
    assert (suggesting (setHighlightedIndex (highlightedIndex v + 1) v) = false) as ->
      by exact Hs.
    cbn [highlightedIndex setHighlightedIndex searchHistory].
    rewrite bool_decide_true by lia. rewrite bool_decide_false by lia.
    fold last. rewrite bool_decide_true by lia. rewrite Hshow. cbn [negb snd].
    do 2 f_equal.
    replace (Z.to_nat (highlightedIndex v + 1 - 1)) with (pred (length (searchHistory v)))
      by lia.
    clear. induction (searchHistory v) as [|x [|y l] IH]; [done | done | exact IH].
Qed.

Lemma last_recent_search_unreachable_witness :
  highlightedIndex (fst (handleKeyDown ArrowDown typedOne)) < 2
  ∧ highlightedIndex (fst (handleKeyDown ArrowUp typedOne)) < 2.
Proof.
  apply (last_recent_search_unreachable typedOne);
    [reflexivity | reflexivity | discriminate | by vm_compute | reflexivity].
Defined.

(** *** The term of a recent search *)

Lemma beforeComma_app (a b : string) :
  beforeComma (a +:+ String ","%char b) = beforeComma a.
Proof.
  induction a as [|c a IH]; [done|]. simpl. rewrite IH.
  by destruct (Ascii.eqb c ","%char).
Qed.

Lemma beforeComma_commaFree (s : string) : commaFree s = true → beforeComma s = s.
Proof.
  induction s as [|c s IH]; [done|]. simpl. intros [Hc Hs]%andb_true_iff.
  destruct (Ascii.eqb c ","%char); [done|]. by rewrite IH.
Qed.

(** A click on a recent search looks the city up by its name alone: the
    country written in the entry is not part of the term, so two entries
    of one name give one term; and for a name without a comma the term is
    the trimmed name. *)
Theorem recentSearchTerm_cityIdentifier (location : GeoLocation) :
  recentSearchTerm (SearchHistory.cityIdentifier location)
  = trim (beforeComma (name location))
  ∧ (∀ other, name other = name location →
       recentSearchTerm (SearchHistory.cityIdentifier other)
       = recentSearchTerm (SearchHistory.cityIdentifier location))
  ∧ (commaFree (name location) = true →
     recentSearchTerm (SearchHistory.cityIdentifier location) = trim (name location)).
Proof.
  assert (∀ l, recentSearchTerm (SearchHistory.cityIdentifier l)
               = trim (beforeComma (name l))) as Hterm.
  { intros l. unfold recentSearchTerm, SearchHistory.cityIdentifier.
    change (", " +:+ country l) with (String ","%char (" " +:+ country l)).
    by rewrite beforeComma_app. }
  split; [apply Hterm|]. split.
  - intros other Hname. by rewrite !Hterm, Hname.
  - intros Hfree. by rewrite Hterm, beforeComma_commaFree.
Qed.

End SearchDropdownFacts.


(** ** The weather requests of the client *)
Module WeatherClientFacts.
Import WeatherApi WeatherApiFacts WeatherClient.

Lemma GeoLocation_eta (location : GeoLocation) :
  {| lat := lat location; lon := lon location; name := name location;
     country := country location; state := state location |} = location.
Proof. by destruct location. Qed.

Lemma getCoordinatesFromCity_no_key fetch cityName :
  getCoordinatesFromCity "" fetch cityName = (throw ApiKeyMissing, []).
Proof. done. Qed.

Lemma getCoordinatesFromCity_key key fetch cityName :
  key ≠ "" →
  let url := {| q := cityName; limit := 1; appid := key |} in
  let call := getCoordinatesFromCity key fetch cityName in
  snd call = [SentGeocode url]
  ∧ (∀ location, fst call = ok location
                 ↔ ∃ rest, fetch url = HttpOk (JsonArray (location :: rest)))
  ∧ (fst call = throw (CityNotFound cityName)
     ↔ fetch url = HttpOk JsonNull ∨ fetch url = HttpOk (JsonArray [])).
Proof.
  intros Hkey url call. unfold call, getCoordinatesFromCity.
  rewrite (ensureApiKey_present _ Hkey). fold url. cbn [fst snd]. split; [done|].
  unfold WeatherApi.requestJson.
  destruct (fetch url) as [|[| |[|first others]]|status message statusText]; simpl.
  - split; [intros location; split; [done | by intros [rest [=]]]|].
    split; [done | by intros [[=] | [=]]].
  - split; [intros location; split; [done | by intros [rest [=]]]|].
    split; [done | by intros [[=] | [=]]].
  - split; [intros location; split; [done | by intros [rest [=]]]|].
    split; [by left | done].
  - split; [intros location; split; [done | by intros [rest [=]]]|].
    split; [by right | done].
  - rewrite GeoLocation_eta. split.
    + intros location. split; [intros [= <-]; by exists others|].
      by intros [rest [= -> _]].
    + split; [done | by intros [[=] | [=]]].
  - destruct (decide (status = 401%nat)); simpl.
    + split; [intros location; split; [done | by intros [rest [=]]]|].
      split; [done | by intros [[=] | [=]]].
    + split; [intros location; split; [done | by intros [rest [=]]]|].
      split; [done | by intros [[=] | [=]]].
Qed.

(** [getCoordinatesFromCity]: without a credential it throws before any
    request; with one it sends one request, for the name as given and
    one result; it returns the first element of a non-empty array, and
    throws 'City "<name>" not found' exactly for [null] and for the empty
    array. *)
Theorem getCoordinatesFromCity_spec (key : string) (fetch : Request → Response)
    (cityName : string) :
  getCoordinatesFromCity "" fetch cityName = (throw ApiKeyMissing, [])
  ∧ (key ≠ "" →
     let url := {| q := cityName; limit := 1; appid := key |} in
     let call := getCoordinatesFromCity key fetch cityName in
     snd call = [SentGeocode url]
     ∧ (∀ location, fst call = ok location
                    ↔ ∃ rest, fetch url = HttpOk (JsonArray (location :: rest)))
     ∧ (fst call = throw (CityNotFound cityName)
        ↔ fetch url = HttpOk JsonNull ∨ fetch url = HttpOk (JsonArray []))).
Proof. split; [apply getCoordinatesFromCity_no_key | apply getCoordinatesFromCity_key]. Qed.

Lemma getCoordinatesFromCity_spec_witness :
  let fetch := λ _ : Request, HttpOk (JsonArray Samples.sixCities) in
  let url := {| q := " Oslo"; limit := 1; appid := "key" |} in
  let call := getCoordinatesFromCity "key" fetch " Oslo" in
  snd call = [SentGeocode url]
  ∧ fst call = ok (Samples.place "Oslo").
Proof.
  intros fetch url call.
  destruct (proj2 (getCoordinatesFromCity_spec "key" fetch " Oslo")) as (Hsent & Hok & _);
    [done|].
  split; [exact Hsent|]. apply Hok. by eexists.
Defined.

Lemma getCurrentWeather_key key fetchCurrent lat lon :
  key ≠ "" →
  getCurrentWeather key fetchCurrent lat lon
  = (requestJson (fetchCurrent lat lon) "Current Weather API", [SentCurrent lat lon key]).
Proof. intros Hkey. unfold getCurrentWeather. by rewrite (ensureApiKey_present _ Hkey). Qed.

Lemma getForecast_key key fetchForecast lat lon :
  key ≠ "" →
  getForecast key fetchForecast lat lon
  = (requestJson (fetchForecast lat lon) "Forecast API", [SentForecast lat lon key]).
Proof. intros Hkey. unfold getForecast. by rewrite (ensureApiKey_present _ Hkey). Qed.

Lemma requestJson_ok {A} (answer : Answer A) label data :
  requestJson answer label = ok data ↔ answer = Ok200 (Some data).
Proof.
  destruct answer as [|[body|]|status message statusText]; simpl;
    try (destruct (decide (status = 401%nat))); split; intros [=]; by subst.
Qed.

Lemma getWeatherData_no_key fetchCurrent fetchForecast first lat lon :
  getWeatherData "" fetchCurrent fetchForecast first lat lon = (throw ApiKeyMissing, []).
Proof. unfold getWeatherData. simpl. by destruct first. Qed.

Lemma getWeatherData_key key fetchCurrent fetchForecast first lat lon :
  key ≠ "" →
  let call := getWeatherData key fetchCurrent fetchForecast first lat lon in
  snd call = [SentCurrent lat lon key; SentForecast lat lon key]
  ∧ (∀ data, fst call = ok data
             ↔ ∃ c f, fetchCurrent lat lon = Ok200 (Some c)
                      ∧ fetchForecast lat lon = Ok200 (Some f)
                      ∧ data = buildWeatherData c f)
  ∧ (∀ e, fst call = throw e →
          requestJson (fetchCurrent lat lon) "Current Weather API" = throw e
          ∨ requestJson (fetchForecast lat lon) "Forecast API" = throw e).
Proof.
  intros Hkey call. unfold call, getWeatherData.
  rewrite (getCurrentWeather_key _ _ _ _ Hkey), (getForecast_key _ _ _ _ Hkey).
  cbn [fst snd]. split; [done|].
  pose proof (requestJson_ok (fetchCurrent lat lon) "Current Weather API") as Hc.
  pose proof (requestJson_ok (fetchForecast lat lon) "Forecast API") as Hf.
  destruct (requestJson (fetchCurrent lat lon) _) as [c|ec],
           (requestJson (fetchForecast lat lon) _) as [f|ef]; simpl.
  - split; [|by intros e [=]]. intros data. split.
    + intros [= <-]. exists c, f. split; [by apply Hc|]. split; [by apply Hf | done].
    + intros (c' & f' & Hc' & Hf' & ->). apply Hc in Hc'. apply Hf in Hf'.
      by injection Hc' as ->; injection Hf' as ->.
  - split; [|intros e [= <-]; by right]. intros data. split; [done|].
    intros (c' & f' & _ & Hf' & _). apply Hf in Hf'. done.
  - split; [|intros e [= <-]; by left]. intros data. split; [done|].
    intros (c' & f' & Hc' & _). apply Hc in Hc'. done.
  - split.
    + intros data. split; [by destruct first|].
      intros (c' & f' & Hc' & _). apply Hc in Hc'. done.
    + intros e. destruct first; intros [= <-]; auto.
Qed.

(** [getWeatherData] is all or nothing.  Without a credential it throws
    before any request.  With one it always sends both requests, the
    current weather first, whatever the first one gives; it returns
    exactly when both answers are ok and parse, and then the object built
    from the two bodies; and what it throws is the failure of one of the
    two requests. *)
Theorem getWeatherData_all_or_nothing (key : string)
    (fetchCurrent : Q → Q → Answer CurrentData)
    (fetchForecast : Q → Q → Answer ForecastData) (first : bool) (lat lon : Q) :
  getWeatherData "" fetchCurrent fetchForecast first lat lon = (throw ApiKeyMissing, [])
  ∧ (key ≠ "" →
     let call := getWeatherData key fetchCurrent fetchForecast first lat lon in
     snd call = [SentCurrent lat lon key; SentForecast lat lon key]
     ∧ (∀ data, fst call = ok data
                ↔ ∃ c f, fetchCurrent lat lon = Ok200 (Some c)
                         ∧ fetchForecast lat lon = Ok200 (Some f)
                         ∧ data = buildWeatherData c f)
     ∧ (∀ e, fst call = throw e →
             requestJson (fetchCurrent lat lon) "Current Weather API" = throw e
             ∨ requestJson (fetchForecast lat lon) "Forecast API" = throw e)).
Proof. split; [apply getWeatherData_no_key | apply getWeatherData_key]. Qed.



(** [getWeatherByCity] asks for the weather only once the city is found:
    when the geocoding call throws, its error is thrown on and no weather
    request is sent; when it returns a location, the two weather requests
    follow at that location's coordinates, and what is returned carries
    that location with the weather data of that call. *)
Theorem getWeatherByCity_requests (key : string) (fetch : Request → Response)
    (fetchCurrent : Q → Q → Answer CurrentData)
    (fetchForecast : Q → Q → Answer ForecastData) (first : bool) (cityName : string) :
  let call := getWeatherByCity key fetch fetchCurrent fetchForecast first cityName in
  let geocode := getCoordinatesFromCity key fetch cityName in
  (∀ e, fst geocode = throw e → call = (throw e, snd geocode) ∧ geocodeOnly (snd call))
  ∧ (∀ location, fst geocode = ok location →
       key ≠ ""
       ∧ snd call = [SentGeocode {| q := cityName; limit := 1; appid := key |};
                     SentCurrent (lat location) (lon location) key;
                     SentForecast (lat location) (lon location) key]
       ∧ ∀ data, fst call = ok data
                 ↔ cw_location data = location
                   ∧ fst (getWeatherData key fetchCurrent fetchForecast first
                            (lat location) (lon location)) = ok (cw_weather data)).
Proof.
  intros call geocode. unfold call, getWeatherByCity. fold geocode.
  destruct (decide (key = "")) as [-> | Hkey].
  - unfold geocode. rewrite getCoordinatesFromCity_no_key.
    simpl. split; [|done]. intros e [= <-]. split; [done | constructor].
  - destruct (getCoordinatesFromCity_key key fetch cityName Hkey) as (Hsent & _).
    fold geocode in Hsent.
    destruct geocode as [[location|e] sent]; cbn [fst snd] in *; subst sent.
    + split; [done|]. intros ? [= <-]. split; [done|].
      destruct (getWeatherData_key key fetchCurrent fetchForecast first
                  (lat location) (lon location) Hkey) as (Hsent' & _).
      destruct (getWeatherData key fetchCurrent fetchForecast first
                  (lat location) (lon location)) as [[w|e] sent'];
        cbn [fst snd] in *; subst sent'.
      * split; [done|]. intros [loc w']. cbn [cw_location cw_weather]. split.
        -- intros [= <- <-]. done.
        -- intros [-> [= ->]]. done.
      * split; [done|]. intros [loc w']. cbn [cw_location cw_weather].
        split; [done | by intros [_ ?]].
    + split; [|done]. intros ? [= <-]. split; [done|].
      repeat constructor.
Qed.

(** After a click on a suggestion of [searchCities], the heading of the
    page is the text of the suggestion, and the data carries its
    coordinates. *)
Theorem locationName_of_suggestion (key : string)
    (fetchCurrent : Q → Q → Answer CurrentData)
    (fetchForecast : Q → Q → Answer ForecastData) (first : bool)
    (location : GeoLocation) (data : CityWeather) :
  fst (weatherOfSuggestion key fetchCurrent fetchForecast first (toCity location)) = ok data →
  locationName (Some data) = Some (displayName (toCity location))
  ∧ lat (cw_location data) = lat location
  ∧ lon (cw_location data) = lon location.
Proof.
  unfold weatherOfSuggestion, getWeatherByCoordinates.
  destruct (getWeatherData _ _ _ _ _ _) as [[w|e] sent]; [|done].
  intros [= <-]. done.
Qed.

Lemma locationName_of_suggestion_witness :
  locationName (Some ClientSamples.osloWeather)
  = Some (displayName (toCity ClientSamples.osloPlace))
  ∧ lat (cw_location ClientSamples.osloWeather) = lat ClientSamples.osloPlace
  ∧ lon (cw_location ClientSamples.osloWeather) = lon ClientSamples.osloPlace.
Proof.
  apply (locationName_of_suggestion "key" ClientSamples.fetchCurrent
           ClientSamples.fetchForecast false ClientSamples.osloPlace
           ClientSamples.osloWeather).
  reflexivity.
Defined.

End WeatherClientFacts.


(** ** The cards of the stations page *)
Module StationsPageFacts.
Import WeatherApi WeatherClient WeatherClientFacts StationsPage WeatherPageFacts.

Lemma mapM_Some_fmap (xs : list Q) : mapM (λ x : option Q, x) (Some <$> xs) = Some xs.
Proof. by apply (mapM_fmap_Some (λ x : option Q, x) Some). Qed.

(** When every entry has the reading, the list handed to [Math.min] or
    [Math.max] holds the readings of the entries, in order. *)
Lemma readings_all (field : Main → option Q) (forecasts : list ForecastEntry) :
  Forall (λ f, ∃ m x, main f = Some m ∧ field m = Some x) forecasts →
  ∃ xs, readings field forecasts = Some (Some <$> xs)
        ∧ Forall2 (λ f x, ∃ m, main f = Some m ∧ field m = Some x) forecasts xs.
Proof.
  unfold readings. induction 1 as [|f l (m & x & Hm & Hx) _ (xs & IH & Hall)].
  - by exists [].
  - exists (x :: xs). split.
    + simpl. rewrite Hm. simpl. rewrite IH. simpl. by rewrite Hx.
    + constructor; [by exists m | done].
Qed.

Lemma readings_None (field : Main → option Q) (forecasts : list ForecastEntry) :
  readings field forecasts = None ↔ ∃ f, f ∈ forecasts ∧ main f = None.
Proof.
  unfold readings. rewrite mapM_None, Exists_exists. split.
  - intros (f & Hf & Hnone). exists f. split; [done|]. by destruct (main f).
  - intros (f & Hf & Hnone). exists f. split; [done|]. by rewrite Hnone.
Qed.

Section page.
Context (API_KEY : string) (fetchCurrent : Q → Q → Answer CurrentData)
  (fetchForecast : Q → Q → Answer ForecastData) (first : bool).

Local Abbreviation getWeatherData :=
  (getWeatherData API_KEY fetchCurrent fetchForecast first).
Local Abbreviation fetchCityWeather :=
  (fetchCityWeather API_KEY fetchCurrent fetchForecast first).

(** A card sends the requests of [getWeatherData] and swallows its
    failure: the card is empty then, and also when one of the first eight
    forecast entries has no [main].  On an empty forecast the card's
    minimum is [Infinity] and its maximum [-Infinity].  When each of the
    first eight entries has a lowest and a highest reading, the lowest
    not above the highest, the card's minimum is at most each lowest
    reading, its maximum at least each highest, and the minimum is at
    most the maximum. *)
Theorem fetchCityWeather_range (lat lon : Q) :
  let call := getWeatherData lat lon in
  let card := fst (fetchCityWeather lat lon) in
  snd (fetchCityWeather lat lon) = snd call
  ∧ (∀ e, fst call = throw e → card = None)
  ∧ (∀ data, fst call = ok data →
       let today := take 8 (wd_daily data) in
       (card = None ↔ ∃ f, f ∈ today ∧ main f = None)
       ∧ (today = [] →
          card = Some {| card_temp := w_temp (wd_current data);
                         card_temp_min := PlusInfinity;
                         card_temp_max := MinusInfinity;
                         card_weather := w_weather (wd_current data) |})
       ∧ (today ≠ [] →
          Forall (λ f, ∃ m lo hi, main f = Some m ∧ temp_min m = Some lo
                                  ∧ temp_max m = Some hi ∧ lo <= hi)%Q today →
          ∃ c lo hi,
            card = Some c ∧ card_temp_min c = Finite lo ∧ card_temp_max c = Finite hi
            ∧ (lo <= hi)%Q
            ∧ Forall (λ f, ∀ m x, main f = Some m → temp_min m = Some x → lo <= x)%Q today
            ∧ Forall (λ f, ∀ m x, main f = Some m → temp_max m = Some x → x <= hi)%Q today)).
Proof.
  intros call card. unfold card, StationsPage.fetchCityWeather. fold call.
  destruct call as [[data|e] sent]; cbn [fst snd].
  2: { split; [done|]. split; [done|]. by intros data [=]. }
  split; [done|]. split; [by intros e [=]|]. intros ? [= <-].
  set (today := take 8 (wd_daily data)).
  split; [|split].
  - destruct (readings temp_min today) as [mins|] eqn:Hmins.
    + assert (is_Some (readings temp_max today)) as [maxs Hmaxs].
      { destruct (readings temp_max today) eqn:Hmaxs; [by eexists|].
        apply readings_None in Hmaxs. apply (readings_None temp_min) in Hmaxs.
        congruence. }
      rewrite Hmaxs. cbn. split; [done|].
      intros Hnone%(readings_None temp_min). congruence.
    + cbn. split; [|done]. intros _. by apply (readings_None temp_min).
  - intros ->. done.
  - intros Hne Hall.
    destruct (readings_all temp_min today) as (los & -> & Hlos).
    { eapply Forall_impl; [exact Hall|]. intros f (m & lo & hi & ? & ? & _). by exists m, lo. }
    destruct (readings_all temp_max today) as (his & -> & Hhis).
    { eapply Forall_impl; [exact Hall|]. intros f (m & lo & hi & ? & _ & ? & _). by exists m, hi. }
    cbn. unfold Math_min_spread, Math_max_spread. rewrite !mapM_Some_fmap.
    destruct Hlos as [|f0 lo0 l los Hf0 Hlos]; [done|].
    destruct his as [|hi0 his]; [by apply Forall2_length in Hhis|].
    apply Forall2_cons in Hhis as [Hf0' Hhis].
    destruct (Math_min_spec lo0 los) as [_ Hmin], (Math_max_spec hi0 his) as [_ Hmax].
    eexists _, _, _. split; [done|]. split; [done|]. split; [done|].
    assert (∀ f, f ∈ f0 :: l →
              ∃ m lo hi, main f = Some m ∧ temp_min m = Some lo ∧ temp_max m = Some hi
                         ∧ lo ∈ lo0 :: los ∧ hi ∈ hi0 :: his ∧ (lo <= hi)%Q) as Hread.
    { assert (Forall2 (λ f x, ∃ m, main f = Some m ∧ temp_min m = Some x)
                (f0 :: l) (lo0 :: los)) as Hmins by (by constructor).
      assert (Forall2 (λ f x, ∃ m, main f = Some m ∧ temp_max m = Some x)
                (f0 :: l) (hi0 :: his)) as Hmaxs by (by constructor).
      intros f [i Hi]%list_elem_of_lookup_1.
      destruct (Forall2_lookup_l _ _ _ _ _ Hmins Hi) as (lo & Hlo & m & Hm & Hmin').
      destruct (Forall2_lookup_l _ _ _ _ _ Hmaxs Hi) as (hi & Hhi & m' & Hm' & Hmax').
      rewrite Forall_forall in Hall.
      destruct (Hall f) as (m'' & lo' & hi' & Hm'' & Hlo' & Hhi' & Hle);
        [by eapply list_elem_of_lookup_2|].
      exists m, lo, hi. simplify_eq. repeat split; try done;
        by eapply list_elem_of_lookup_2. }
    split; [|split].
    + destruct (Hread f0) as (m & lo & hi & _ & _ & _ & Hlo & Hhi & Hle); [left|].
      specialize (Hmin lo Hlo). specialize (Hmax hi Hhi). lra.
    + apply Forall_forall. intros f Hf m x Hm Hx.
      destruct (Hread f Hf) as (m' & lo & hi & Hm' & Hlo' & _ & Hlo & _).
      simplify_eq. by apply Hmin.
    + apply Forall_forall. intros f Hf m x Hm Hx.
      destruct (Hread f Hf) as (m' & lo & hi & Hm' & _ & Hhi' & _ & Hhi & _).
      simplify_eq. by apply Hmax.
Qed.

End page.
End StationsPageFacts.


(** ** Searching on the weather page *)
Module WeatherSearchFacts.
Import WeatherApi WeatherApiFacts WeatherClient WeatherClientFacts WeatherSearch.

Lemma getWeatherByCity_geocode_throws key fetch fetchCurrent fetchForecast first cityName e :
  fst (getCoordinatesFromCity key fetch cityName) = throw e →
  getWeatherByCity key fetch fetchCurrent fetchForecast first cityName
  = (throw e, snd (getCoordinatesFromCity key fetch cityName)).
Proof.
  intros He. unfold getWeatherByCity.
  destruct (getCoordinatesFromCity key fetch cityName) as [[location|e'] sent]; [done|].
  by injection He as ->.
Qed.

Lemma setCurrentWeather_ok data b :
  LocalStorage.quotaExceeded (local b) = false →
  ∃ l, setCurrentWeather data b
       = (ok (), {| local := l; weather_current_data := LocalStorage.Doc data |})
       ∧ LocalStorage.quotaExceeded l = false
       ∧ LocalStorage.weather_search_history l
         = LocalStorage.weather_search_history (local b).
Proof. intros Hq. unfold setCurrentWeather. rewrite Hq. by eexists. Qed.

Lemma addToSearchHistory_ok data p :
  LocalStorage.quotaExceeded (local (browser p)) = false →
  let history :=
    SearchHistory.newHistory (SearchHistory.cityIdentifier (cw_location data))
      (searchHistory p) in
  ∃ l, addToSearchHistory data p
       = (ok (), setBrowser {| local := l;
                               weather_current_data := weather_current_data (browser p) |}
                   (setSearchHistory history p))
       ∧ SearchHistory.readHistoryFromStorage l = history.
Proof.
  intros Hq history. unfold addToSearchHistory, SearchHistory.addToSearchHistory,
    LocalStorage.setHistory.
  cbn [SearchHistory.searchHistory SearchHistory.storage]. rewrite Hq. by eexists.
Qed.

(** What [applyWeatherData] with both options leaves, on a storage that
    takes writes. *)
Lemma applyWeatherData_ok data p :
  LocalStorage.quotaExceeded (local (browser p)) = false →
  let applied := applyWeatherData data true true p in
  fst applied = ok ()
  ∧ weatherData (snd applied) = Some data
  ∧ cityName (snd applied) = name (cw_location data)
  ∧ searchHistory (snd applied)
    = SearchHistory.newHistory (SearchHistory.cityIdentifier (cw_location data))
        (searchHistory p)
  ∧ SearchHistory.readHistoryFromStorage (local (browser (snd applied)))
    = searchHistory (snd applied)
  ∧ readSavedWeather (browser (snd applied)) = Some data
  ∧ loading (snd applied) = loading p ∧ error (snd applied) = error p
  ∧ showHistory (snd applied) = showHistory p
  ∧ isActivelyTyping (snd applied) = isActivelyTyping p.
Proof.
  intros Hq applied. unfold applied, applyWeatherData.
  set (p1 := setCityName _ (setWeatherData _ p)).
  destruct (setCurrentWeather_ok data (browser p1) Hq) as (l & -> & Hq' & _).
  cbv beta iota zeta.
  destruct (addToSearchHistory_ok data
              (setBrowser {| local := l; weather_current_data := LocalStorage.Doc data |} p1)
              Hq') as (l' & -> & Hstored).
  done.
Qed.

(** Without either option [applyWeatherData] writes nothing. *)
Lemma applyWeatherData_plain data p :
  applyWeatherData data false false p
  = (ok (), setCityName (name (cw_location data)) (setWeatherData (Some data) p)).
Proof. reflexivity. Qed.

Section page.
Context (API_KEY : string) (fetch : Request → Response)
  (fetchCurrent : Q → Q → Answer CurrentData)
  (fetchForecast : Q → Q → Answer ForecastData) (first : bool).

Local Abbreviation getWeatherByCity :=
  (getWeatherByCity API_KEY fetch fetchCurrent fetchForecast first).
Local Abbreviation handleSearch :=
  (handleSearch API_KEY fetch fetchCurrent fetchForecast first).
Local Abbreviation loadInitialData :=
  (loadInitialData API_KEY fetch fetchCurrent fetchForecast first).

(** A search that fails changes nothing of what the page shows and
    stores but the error: a blank term does nothing at all; when
    [getWeatherByCity] throws, its message becomes the error, and the
    weather data, the text of the input, the history and the storage stay
    as they were; and for a city the geocoding does not know the error is
    'City "<term>" not found' after the one geocoding request. *)
Theorem handleSearch_failure (searchTerm : option string) (p : Page) :
  let term := termOf searchTerm p in
  let call := getWeatherByCity term in
  let result := handleSearch searchTerm p in
  (term = "" → result = (p, []))
  ∧ (∀ e, term ≠ "" → fst call = throw e →
       snd result = snd call
       ∧ error (fst result) = Some (messageOf e)
       ∧ loading (fst result) = false
       ∧ weatherData (fst result) = weatherData p
       ∧ cityName (fst result) = cityName p
       ∧ searchHistory (fst result) = searchHistory p
       ∧ browser (fst result) = browser p)
  ∧ (term ≠ "" → API_KEY ≠ "" →
     fetch {| q := term; limit := 1; appid := API_KEY |} = HttpOk (JsonArray []) →
     snd result = [SentGeocode {| q := term; limit := 1; appid := API_KEY |}]
     ∧ error (fst result)
       = Some ("City " +:+ dquote +:+ term +:+ dquote +:+ " not found")
     ∧ weatherData (fst result) = weatherData p).
Proof.
  intros term call result.
  assert (∀ e, term ≠ "" → fst call = throw e →
            result = (setLoading false (setError (Some (messageOf e))
                        (setIsActivelyTyping false (setShowHistory false
                           (setError None (setLoading true p))))), snd call)) as Hfail.
  { intros e Hterm He. unfold result, WeatherSearch.handleSearch, searchFor. fold term. fold call.
    rewrite decide_False by done. destruct call as [[data|e'] sent]; [done|].
    by injection He as ->. }
  split; [|split].
  - intros Hterm. unfold result, WeatherSearch.handleSearch, searchFor. fold term.
    by rewrite decide_True.
  - intros e Hterm He. by rewrite (Hfail e Hterm He).
  - intros Hterm Hkey Hfetch.
    destruct (getCoordinatesFromCity_key API_KEY fetch term Hkey) as (Hsent & _ & Hnone).
    assert (fst call = throw (CityNotFound term) ∧ snd call
            = [SentGeocode {| q := term; limit := 1; appid := API_KEY |}]) as [He Hs].
    { unfold call. rewrite (getWeatherByCity_geocode_throws _ _ _ _ _ _ (CityNotFound term)).
      - by rewrite Hsent.
      - apply Hnone. by right. }
    by rewrite (Hfail _ Hterm He), Hs.
Qed.

(** A search that succeeds, on a storage that takes writes, shows the
    data, puts the city first in the history and stores both; and a page
    mounted afterwards over that storage shows the same data and the same
    history without a request and without a write. *)
Theorem handleSearch_then_reload (searchTerm : option string) (p : Page)
    (data : CityWeather) :
  termOf searchTerm p ≠ "" →
  fst (getWeatherByCity (termOf searchTerm p)) = ok data →
  LocalStorage.quotaExceeded (local (browser p)) = false →
  let p' := fst (handleSearch searchTerm p) in
  let reloaded := loadInitialData (mounted (browser p')) in
  weatherData p' = Some data
  ∧ cityName p' = name (cw_location data)
  ∧ error p' = None ∧ loading p' = false
  ∧ searchHistory p'
    = SearchHistory.newHistory (SearchHistory.cityIdentifier (cw_location data))
        (searchHistory p)
  ∧ snd reloaded = []
  ∧ weatherData (fst reloaded) = Some data
  ∧ cityName (fst reloaded) = name (cw_location data)
  ∧ searchHistory (fst reloaded) = searchHistory p'
  ∧ browser (fst reloaded) = browser p'.
Proof.
  intros Hterm Hdata Hq p' reloaded.
  set (p1 := setIsActivelyTyping false (setShowHistory false
               (setError None (setLoading true p)))).
  destruct (applyWeatherData_ok data p1 Hq)
    as (Hok & Hw & Hc & Hh & Hstored & Hsaved & _ & He & _).
  assert (p' = setLoading false (snd (applyWeatherData data true true p1))) as Hp'.
  { unfold p', WeatherSearch.handleSearch, searchFor. rewrite decide_False by done. fold p1.
    destruct (getWeatherByCity (termOf searchTerm p)) as [[data'|e] sent]; [|done].
    injection Hdata as ->.
    destruct (applyWeatherData data true true p1) as [[[]|e] p2]; [done | done]. }
  assert (reloaded
          = (setCityName (name (cw_location data))
               (setWeatherData (Some data)
                  (setSearchHistory (searchHistory p') (mounted (browser p')))), [])) as Hr.
  { unfold reloaded, WeatherSearch.loadInitialData.
    assert (browser p' = browser (snd (applyWeatherData data true true p1))) as Hb
      by (by rewrite Hp').
    assert (searchHistory p' = searchHistory (snd (applyWeatherData data true true p1)))
      as Hs by (by rewrite Hp').
    cbn [browser setSearchHistory mounted]. rewrite Hb, Hsaved, Hstored, <- Hs.
    by rewrite applyWeatherData_plain. }
  rewrite Hr, Hp'. cbn [fst snd weatherData cityName error loading searchHistory browser
                         setLoading setCityName setWeatherData setSearchHistory mounted].
  by rewrite Hw, Hc, Hh, He.
Qed.

(** Mounted over a storage without saved data, the page asks for the
    weather of New York.  When that fails the error shown is 'Failed to
    load default weather', whatever was thrown, and the weather data and
    the storage stay as they were; when it succeeds on a storage that
    takes writes, the data is shown and saved. *)
Theorem loadInitialData_default (p : Page) :
  readSavedWeather (browser p) = None →
  let call := getWeatherByCity "New York" in
  let result := loadInitialData p in
  snd result = snd call
  ∧ loading (fst result) = false
  ∧ (∀ e, fst call = throw e →
       error (fst result) = Some "Failed to load default weather"
       ∧ weatherData (fst result) = weatherData p
       ∧ searchHistory (fst result)
         = SearchHistory.readHistoryFromStorage (local (browser p))
       ∧ browser (fst result) = browser p)
  ∧ (∀ data, fst call = ok data →
       LocalStorage.quotaExceeded (local (browser p)) = false →
       weatherData (fst result) = Some data
       ∧ readSavedWeather (browser (fst result)) = Some data
       ∧ head (searchHistory (fst result))
         = Some (SearchHistory.cityIdentifier (cw_location data))).
Proof.
  intros Hnone call result. unfold result, WeatherSearch.loadInitialData.
  cbn [browser setSearchHistory]. rewrite Hnone. fold call.
  set (p2 := setLoading true _).
  destruct call as [[data|e] sent]; cbn [fst snd].
  - destruct (applyWeatherData data true true p2) as [[[]|e] p3] eqn:Happly;
      cbn [fst snd loading setLoading setError];
      (split; [done|]); (split; [done|]); (split; [by intros ? [=]|]);
      intros ? [= <-] Hq;
      destruct (applyWeatherData_ok data p2 Hq) as (Hok & Hw & _ & Hh & _ & Hsaved & _);
      rewrite Happly in *; cbn [fst snd] in *; [|done].
    cbn [weatherData browser searchHistory setLoading]. by rewrite Hw, Hsaved, Hh.
  - split; [done|]. split; [done|]. split; [|by intros ? [=]].
    by intros ? [= <-].
Qed.

End page.

Lemma handleSearch_then_reload_witness :
  let p' := fst (handleSearch "key" knowsOslo ClientSamples.fetchCurrent
                   ClientSamples.fetchForecast false None typing) in
  let reloaded := loadInitialData "" Samples.offline ClientSamples.fetchCurrent
                    ClientSamples.fetchForecast false (mounted (browser p')) in
  weatherData p' = Some ClientSamples.osloWeather
  ∧ cityName p' = "Oslo"
  ∧ searchHistory p' = ["Oslo, NO"]
  ∧ snd reloaded = []
  ∧ weatherData (fst reloaded) = Some ClientSamples.osloWeather
  ∧ searchHistory (fst reloaded) = ["Oslo, NO"].
Proof.
  intros p' reloaded.
  destruct (handleSearch_then_reload "key" knowsOslo ClientSamples.fetchCurrent
              ClientSamples.fetchForecast false None typing ClientSamples.osloWeather)
    as (Hw & Hc & _ & _ & Hh & _); [done | reflexivity | reflexivity |].
  split; [exact Hw|]. split; [exact Hc|]. split; [exact Hh|].
  by vm_compute.
Defined.

Lemma loadInitialData_default_witness :
  error (fst (loadInitialData "" Samples.offline ClientSamples.fetchCurrent
                ClientSamples.fetchForecast false (mounted emptyBrowser)))
  = Some "Failed to load default weather".
Proof.
  apply (loadInitialData_default "" Samples.offline ClientSamples.fetchCurrent
           ClientSamples.fetchForecast false (mounted emptyBrowser) eq_refl)
    with (e := ApiKeyMissing).
  reflexivity.
Defined.

End WeatherSearchFacts.


(** ** The client and the pages on sample answers *)
Module ClientExamples.
Import WeatherApi WeatherClient StationsPage WeatherSearch ClientSamples.

(** Three entries with the ranges 3..5, 1..4 and 2..8: the card shows 1
    and 8. *)
Example fetchCityWeather_ranged :
  fst (fetchCityWeather "key" fetchCurrent fetchRanged false 0 0)
  = Some {| card_temp := 15; card_temp_min := Finite 1; card_temp_max := Finite 8;
            card_weather := [{| icon := "02d"; description := "few clouds" |}] |}.
Proof. reflexivity. Qed.

(** An empty forecast: the card's minimum is above its maximum. *)
Example fetchCityWeather_empty :
  fst (fetchCityWeather "key" fetchCurrent fetchNoForecast false 0 0)
  = Some {| card_temp := 15; card_temp_min := PlusInfinity;
            card_temp_max := MinusInfinity;
            card_weather := [{| icon := "02d"; description := "few clouds" |}] |}.
Proof. reflexivity. Qed.

(** The views of the weather page read the fetched data through
    [toRecord]: the five-day view is built from its [daily] list. *)
Lemma fiveDayForecast_toRecord zone (data : WeatherData) (now : Z) :
  WeatherPage.fiveDayForecast zone (Some (toRecord data)) now
  = WeatherPage.buildFiveDay zone (wd_daily data)
      (LocalTime.startOfDay zone now).
Proof. reflexivity. Qed.

(** A click on the recent search "Oslo, NO" looks up "Oslo" and shows
    its weather. *)
Example handleRecentSearchClick_oslo :
  let clicked := handleRecentSearchClick "key" knowsOslo fetchCurrent fetchForecast false
                   "Oslo, NO" (mounted emptyBrowser) in
  weatherData (fst clicked) = Some osloWeather
  ∧ snd clicked = [SentGeocode {| q := "Oslo"; limit := 1; appid := "key" |};
                   SentCurrent (5991 # 100) (1075 # 100) "key";
                   SentForecast (5991 # 100) (1075 # 100) "key"].
Proof. split; reflexivity. Qed.

(** A click on a recent search whose text before the comma is blank,
    while " Oslo " stands in the input: the handler still reads that
    input and looks up "Oslo". *)
Example handleRecentSearchClick_blank :
  snd (handleRecentSearchClick "key" knowsOslo fetchCurrent fetchForecast false
         ", NO" typing)
  = [SentGeocode {| q := "Oslo"; limit := 1; appid := "key" |};
     SentCurrent (5991 # 100) (1075 # 100) "key";
     SentForecast (5991 # 100) (1075 # 100) "key"].
Proof. reflexivity. Qed.

(** Without an icon the fallback is drawn. *)
Lemma getWeatherIcon_fallback (fallback : option string) :
  WeatherIcons.getWeatherIcon None fallback
  = WeatherIcons.getWeatherIconPath fallback fallback.
Proof.
  unfold WeatherIcons.getWeatherIcon, WeatherIcons.getWeatherIconPath.
  destruct fallback as [code|]; simpl; [|done].
  by destruct (decide (code = "")).
Qed.

(** The time [formatTime] prints is a time of the day. *)
Lemma formatTime_range zone (timestamp : option Z) (time : HourlyForecast.ClockTime) :
  HourlyForecast.formatTime zone timestamp = Some time →
  0 ≤ HourlyForecast.hours time < 24 ∧ 0 ≤ HourlyForecast.minutes time < 60.
Proof.
  unfold HourlyForecast.formatTime. destruct timestamp as [t|]; [|done].
  destruct (decide (t = 0)); [done|]. intros [= <-]. simpl.
  unfold LocalTime.getHours, LocalTime.msPerDay, LocalTime.msPerHour,
    HourlyForecast.msPerMinute.
  pose proof (Z.mod_pos_bound (LocalTime.localTime zone (t * 1000)) 86400000).
  pose proof (Z.mod_pos_bound (LocalTime.localTime zone (t * 1000)) 3600000).
  repeat split; try (apply Z.div_pos; lia); apply Z.div_lt_upper_bound; lia.
Qed.

End ClientExamples.
